(** * gafa2025-ringScreen: tracking, gating, aggregation and annotation cache

    A shallow embedding of the core of the two camera programs of the
    repository:

    - [RingScreen]: [RingScreen/emotion_detect_normalize_ai_ver2.py], the
      face/emotion loop with its own [IoUTracker] and the window summary;
    - [SideScreen]: [SideScreen/modules/models/tracker.py] (the letter
      tracker), [SideScreen/main.py] (the report gate) and
      [SideScreen/modules/vision_api/worker.py] (the annotation list).

    Numbers.  Pixel coordinates, class ids and counters are Python ints and
    are modelled by [Z] and [nat].  Python floats (IoU values, thresholds,
    clock readings, normalised coordinates) are modelled by the rationals
    they stand for, in [Q]: every comparison of the source is kept.
    Arithmetic on them is exact, except in the report gate of
    [SideScreen/main.py], whose change test compares differences of
    quotients with the literal 0.01: there the quotients, the differences
    and the literals that are no floats as written are rounded to
    binary64 by [fl]. *)

From Stdlib Require Import ZArith QArith Qabs Qround Lqa List Lia Bool Ascii String Permutation.
From Stdlib Require Import Sorting.Sorted.
From stdpp Require Import gmap strings list fin_maps.

Open Scope Z_scope.

(** ** Boxes *)

(** A box is the Python list [[x1, y1, x2, y2]] of ints. *)
Record Box : Type := mkBox { bx1 : Z; by1 : Z; bx2 : Z; by2 : Z }.

Definition Box_eqb (a b : Box) : bool :=
  (bx1 a =? bx1 b) && (by1 a =? by1 b) && (bx2 a =? bx2 b) && (by2 a =? by2 b).

(** [a / b] on two ints, as Python's true division, for a positive [b];
    both trackers guard the quotient by [union > 0]. *)
Definition int_div (a b : Z) : Q := Qmake a (Z.to_pos b).

(** ** Python dicts in insertion order

    [self.tracks] is iterated ([list(self.tracks)], [.keys()]), so the order
    of its keys matters: a dict is an association list in insertion order.
    Assigning to a present key keeps its place, assigning to a new key
    appends, [del] removes the key. *)
Section Dict.
Context {V : Type}.

Fixpoint dict_get (k : nat) (d : list (nat * V)) : option V :=
  match d with
  | [] => None
  | (k', v) :: d' => if Nat.eqb k k' then Some v else dict_get k d'
  end.

Fixpoint dict_set (k : nat) (v : V) (d : list (nat * V)) : list (nat * V) :=
  match d with
  | [] => [(k, v)]
  | (k', v') :: d' =>
      if Nat.eqb k k' then (k', v) :: d' else (k', v') :: dict_set k v d'
  end.

Definition dict_del (k : nat) (d : list (nat * V)) : list (nat * V) :=
  List.filter (fun e => negb (Nat.eqb k (fst e))) d.

(** [d[k][field] = ...]: the value under a present key is changed in
    place.  Every key the trackers use this way was read from the dict
    in the same call and is still present, so Python's KeyError does not
    arise there. *)
Fixpoint dict_alter (f : V -> V) (k : nat) (d : list (nat * V)) : list (nat * V) :=
  match d with
  | [] => []
  | (k', v') :: d' =>
      if Nat.eqb k k' then (k', f v') :: d' else (k', v') :: dict_alter f k d'
  end.

Definition dict_keys (d : list (nat * V)) : list nat := map fst d.
End Dict.

(** Python's [enumerate]. *)
Definition enumerate {A : Type} (l : list A) : list (nat * A) :=
  combine (seq 0 (length l)) l.

Definition Qlt_bool (x y : Q) : bool := negb (Qle_bool y x).

(** [int(x)] on a float: the integer part, rounding towards zero. *)
Definition py_int (x : Q) : Z := if Qle_bool 0 x then Qfloor x else Qceiling x.

(** ** Floats

    A Python float is a binary64 number: a mantissa of 53 bits times a
    power of two.  [fl q] is the float nearest to the rational [q], a tie
    going to the even mantissa: the value of the literal written [q], and
    of an arithmetic operation whose exact result is [q].  Subnormal
    numbers are covered (the exponent stops at -1074).  The exponent is
    not bounded above: a result of 2^1024 or more, for which Python
    raises OverflowError or returns [inf], is not modelled. *)

(** [n / d] rounded to the nearest integer, a tie to the even one, for
    [0 <= n] and [0 < d]. *)
Definition round_half_even (n d : Z) : Z :=
  let q := n / d in
  match 2 * (n mod d) ?= d with
  | Lt => q
  | Gt => q + 1
  | Eq => if Z.even q then q else q + 1
  end.

(** The integer part of the binary logarithm of [n / d]. *)
Definition ilog2 (n d : positive) : Z :=
  let k := Z.log2 (Zpos n) - Z.log2 (Zpos d) in
  if Zpos d * 2 ^ Z.max 0 k <=? Zpos n * 2 ^ Z.max 0 (- k) then k else k - 1.

(** The float nearest to [n / d]: with [e] the exponent of its last
    mantissa bit, the mantissa is [n / d / 2 ^ e] rounded. *)
Definition fl_pos (n d : positive) : Q :=
  let e := Z.max (ilog2 n d - 52) (-1074) in
  let m := round_half_even (Zpos n * 2 ^ Z.max 0 (- e)) (Zpos d * 2 ^ Z.max 0 e) in
  Qred (Qmake (m * 2 ^ Z.max 0 e) (Z.to_pos (2 ^ Z.max 0 (- e)))).

Definition fl (q : Q) : Q :=
  match Qnum q with
  | Z0 => 0%Q
  | Zpos n => fl_pos n (Qden q)
  | Zneg n => (- fl_pos n (Qden q))%Q
  end.

(** ** The OSC sink

    Both programs hand their events to [SimpleUDPClient.send_message]. *)
Inductive osc_arg : Type :=
| OInt (z : Z)
| OFloat (q : Q)
| OStr (s : string).

Record osc_message : Type := mkMsg { address : string; args : list osc_arg }.

(** ** RingScreen/emotion_detect_normalize_ai_ver2.py *)
Module RingScreen.

(** *** IoUTracker *)

Record Track : Type := mkTrack { bbox : Box; missed : nat }.

Record IoUTracker : Type := mkTracker {
  iou_threshold : Q;
  max_missed : nat;
  next_id : nat;
  tracks : list (nat * Track)
}.

Definition init (thr : Q) (max_missed_frames : nat) : IoUTracker :=
  {| iou_threshold := thr; max_missed := max_missed_frames;
     next_id := 1; tracks := [] |}.

(** The overlap ratio computed inline in [update] for track box [b] and
    detection [d]. *)
Definition iou (b d : Box) : Q :=
  let xa := Z.max (bx1 b) (bx1 d) in
  let ya := Z.max (by1 b) (by1 d) in
  let xb := Z.min (bx2 b) (bx2 d) in
  let yb := Z.min (by2 b) (by2 d) in
  let wi := Z.max 0 (xb - xa) in
  let hi := Z.max 0 (yb - ya) in
  let inter := wi * hi in
  let a1 := (bx2 b - bx1 b) * (by2 b - by1 b) in
  let a2 := (bx2 d - bx1 d) * (by2 d - by1 d) in
  let union := a1 + a2 - inter in
  if 0 <? union then int_div inter union else 0%Q.

(** [m[i,j]]: one row per detection, one column per entry of the
    snapshot of [self.tracks] taken by [tids = list(self.tracks)]. *)
Definition iou_matrix (detections : list Box) (trk : list (nat * Track))
  : list (list Q) :=
  map (fun d => map (fun e => iou (bbox (snd e)) d) trk) detections.

(** [[(m[i,j],i,j) for i in ... for j in ... if m[i,j] >= thr]]. *)
Definition candidate_pairs (thr : Q) (m : list (list Q)) : list (Q * nat * nat) :=
  flat_map (fun ir =>
    flat_map (fun jv =>
      if Qle_bool thr (snd jv) then [(snd jv, fst ir, fst jv)] else [])
      (enumerate (snd ir)))
    (enumerate m).

(** [sorted(..., key=lambda x: x[0], reverse=True)]: Python's sort is
    stable, also under [reverse=True]; entries with equal keys keep their
    order. *)
Fixpoint insert_desc (x : Q * nat * nat) (l : list (Q * nat * nat))
  : list (Q * nat * nat) :=
  match l with
  | [] => [x]
  | y :: l' =>
      if Qlt_bool (fst (fst x)) (fst (fst y)) then y :: insert_desc x l'
      else x :: y :: l'
  end.

Definition sorted_desc (l : list (Q * nat * nat)) : list (Q * nat * nat) :=
  fold_right insert_desc [] l.

(** The acceptance loop [for _,i,j in pairs]; [tids[j]] and
    [detections[i]] are always in range, as [i] and [j] index the
    matrix. *)
Record Claimed : Type := mkClaimed {
  used_t : gset nat;
  used_d : gset nat;
  results : list (nat * Box)
}.

Definition accept_pair (tids : list nat) (detections : list Box)
    (c : Claimed) (p : Q * nat * nat) : Claimed :=
  let i := snd (fst p) in
  let j := snd p in
  match tids !! j, detections !! i with
  | Some tid, Some d =>
      if bool_decide (tid ∈ used_t c) || bool_decide (i ∈ used_d c) then c
      else {| used_t := {[tid]} ∪ used_t c;
              used_d := {[i]} ∪ used_d c;
              results := results c ++ [(tid, d)] |}
  | _, _ => c
  end.

Definition accept_pairs (tids : list nat) (detections : list Box)
    (pairs : list (Q * nat * nat)) : Claimed :=
  fold_left (accept_pair tids detections) pairs
    {| used_t := ∅; used_d := ∅; results := [] |}.

(** [for tid,bb in results: tracks[tid]["bbox"] = bb; ...["missed"] = 0]. *)
Definition refresh (trk : list (nat * Track)) (res : list (nat * Box))
  : list (nat * Track) :=
  fold_left (fun t r =>
    dict_alter (fun _ => {| bbox := snd r; missed := 0 |}) (fst r) t) res trk.

(** A new track per detection whose index is not in [used]; threads
    [next_id], the dict and the result list. *)
Definition spawn (used : gset nat)
    (st : nat * list (nat * Track) * list (nat * Box)) (e : nat * Box)
  : nat * list (nat * Track) * list (nat * Box) :=
  let '(nid, trk, res) := st in
  if bool_decide (fst e ∈ used) then st
  else (S nid, dict_set nid {| bbox := snd e; missed := 0 |} trk,
        res ++ [(nid, snd e)]).

(** [for tid in tids: if tid not in used_t: tracks[tid]["missed"] += 1]. *)
Definition age (used : gset nat) (tids : list nat) (trk : list (nat * Track))
  : list (nat * Track) :=
  fold_left (fun t tid =>
    if bool_decide (tid ∈ used) then t
    else dict_alter (fun tr => {| bbox := bbox tr; missed := S (missed tr) |}) tid t)
    tids trk.

(** [for tid in list(self.tracks): if ...["missed"] > max: del ...]. *)
Definition sweep (max : nat) (trk : list (nat * Track)) : list (nat * Track) :=
  fold_left (fun t tid =>
    match dict_get tid t with
    | Some tr => if Nat.ltb max (missed tr) then dict_del tid t else t
    | None => t
    end) (dict_keys trk) trk.

Definition update (detections : list Box) (s : IoUTracker)
  : list (nat * Box) * IoUTracker :=
  let tids := dict_keys (tracks s) in
  match tids with
  | [] =>
      let '(nid, trk, res) :=
        fold_left (spawn ∅) (enumerate detections) (next_id s, tracks s, []) in
      (res, {| iou_threshold := iou_threshold s; max_missed := max_missed s;
               next_id := nid; tracks := trk |})
  | _ :: _ =>
      let m := iou_matrix detections (tracks s) in
      let pairs := sorted_desc (candidate_pairs (iou_threshold s) m) in
      let c := accept_pairs tids detections pairs in
      let trk1 := refresh (tracks s) (results c) in
      let '(nid, trk2, res) :=
        fold_left (spawn (used_d c)) (enumerate detections)
          (next_id s, trk1, results c) in
      let trk3 := age (used_t c) tids trk2 in
      let trk4 := sweep (max_missed s) trk3 in
      (res, {| iou_threshold := iou_threshold s; max_missed := max_missed s;
               next_id := nid; tracks := trk4 |})
  end.

(** *** Configuration and emotion tables *)

Definition TARGET_W : Z := 1280.
Definition TARGET_H : Z := 720.
Definition SAMPLE_INTERVAL : Q := 3.
Definition SAMPLES_PER_SUMMARY : nat := 12.

Inductive category : Type := active | calm | hesitant | anxious.

Definition category_eqb (a b : category) : bool :=
  match a, b with
  | active, active | calm, calm | hesitant, hesitant | anxious, anxious => true
  | _, _ => false
  end.

Definition category_name (c : category) : string :=
  match c with
  | active => "active" | calm => "calm"
  | hesitant => "hesitant" | anxious => "anxious"
  end.

Definition emotion_to_index (emo : string) : Z :=
  if String.eqb emo "neutral" then 0
  else if String.eqb emo "happy" then 1
  else if String.eqb emo "surprise" then 2
  else if String.eqb emo "fear" then 3
  else if String.eqb emo "sad" then 4
  else if String.eqb emo "angry" then 5
  else if String.eqb emo "disgust" then 6
  else -1.

Definition emotion_to_category (emo : string) : option category :=
  if String.eqb emo "neutral" then Some calm
  else if String.eqb emo "happy" then Some active
  else if String.eqb emo "surprise" then Some active
  else if String.eqb emo "fear" then Some anxious
  else if String.eqb emo "sad" then Some hesitant
  else if String.eqb emo "angry" then Some anxious
  else if String.eqb emo "disgust" then Some anxious
  else None.

Definition category_to_index (c : category) : Z :=
  match c with active => 0 | calm => 1 | hesitant => 2 | anxious => 3 end.

(** The dict [counts], with its four fixed keys. *)
Record Counts : Type := mkCounts {
  n_active : nat; n_calm : nat; n_hesitant : nat; n_anxious : nat
}.

Definition zero_counts : Counts :=
  {| n_active := 0; n_calm := 0; n_hesitant := 0; n_anxious := 0 |}.

Definition count_of (c : category) (cs : Counts) : nat :=
  match c with
  | active => n_active cs | calm => n_calm cs
  | hesitant => n_hesitant cs | anxious => n_anxious cs
  end.

Definition incr (cs : Counts) (c : category) : Counts :=
  match c with
  | active => {| n_active := S (n_active cs); n_calm := n_calm cs;
                 n_hesitant := n_hesitant cs; n_anxious := n_anxious cs |}
  | calm => {| n_active := n_active cs; n_calm := S (n_calm cs);
               n_hesitant := n_hesitant cs; n_anxious := n_anxious cs |}
  | hesitant => {| n_active := n_active cs; n_calm := n_calm cs;
                   n_hesitant := S (n_hesitant cs); n_anxious := n_anxious cs |}
  | anxious => {| n_active := n_active cs; n_calm := n_calm cs;
                  n_hesitant := n_hesitant cs; n_anxious := S (n_anxious cs) |}
  end.

(** *** The summary of a window *)

(** [vals], in the insertion order of the dict literal. *)
Definition vals (cs : Counts) : list (category * nat) :=
  [(active, n_active cs); (calm, n_calm cs);
   (hesitant, n_hesitant cs); (anxious, n_anxious cs)].

Definition max_value (v : list (category * nat)) : nat :=
  fold_right Nat.max 0%nat (map snd v).

Definition max_categories (v : list (category * nat)) : list category :=
  map fst (List.filter (fun e => Nat.eqb (snd e) (max_value v)) v).

(** [random.choice(seq)] is [seq[k]] for a drawn [k] below [len(seq)];
    [r] is the draw. *)
Definition random_choice {A : Type} (r : nat) (l : list A) : option A :=
  l !! (r mod length l)%nat.

(** [total_cat]; [None] would be the IndexError of [max_categories[0]]. *)
Definition total_cat (r : nat) (cs : Counts) : option category :=
  let mc := max_categories (vals cs) in
  if Nat.ltb 1 (length mc) then random_choice r mc else mc !! 0%nat.

(** *** One round of the main loop *)

(** What the outside world does during one round of [while True]. *)
Record World : Type := mkWorld {
  (** [f['box']] for each face of [detector.detect_faces(frame)] *)
  faces : list (Z * Z * Z * Z);
  (** [DeepFace.analyze] on the crop of a box: the dominant emotion, or
      [None] when it raises *)
  analyze : Box -> option string;
  (** whether [osc_client.send_message] raises on a message *)
  send_raises : osc_message -> bool;
  (** [requests.post]: [None] when it raises, else the status code and
      the stripped content of the first choice ([None] when reading it
      raises); the argument stands for the text [stat] *)
  post : category * Counts -> option (Z * option string);
  (** the draw of [random.choice] *)
  rand : nat;
  (** [time.time()] after the faces were reported *)
  now : Q
}.

(** The variables of the script, and [sent]: the messages passed to
    [osc_client.send_message], in the order of the calls. *)
Record Vars : Type := mkVars {
  tracker : IoUTracker;
  last_sample : Q;
  sample_count : nat;
  counts : Counts;
  cats : list category;
  has_face : bool;
  sent : list osc_message
}.

(** A statement either completes or raises; the variables keep what was
    assigned before the exception. *)
Inductive outcome (A : Type) : Type :=
| Ret (a : A)
| Raise.
Arguments Ret {A} a.
Arguments Raise {A}.

Definition Exec (A : Type) : Type := Vars -> outcome A * Vars.

Definition ret {A : Type} (a : A) : Exec A := fun v => (Ret a, v).

Definition bind {A B : Type} (m : Exec A) (k : A -> Exec B) : Exec B :=
  fun v => match m v with
           | (Ret a, v') => k a v'
           | (Raise, v') => (Raise, v')
           end.

Notation "x <- m ;; k" := (bind m (fun x => k))
  (at level 100, m at next level, right associativity).
Notation "m ;;; k" := (bind m (fun _ => k))
  (at level 100, right associativity).

Definition raise {A : Type} : Exec A := fun v => (Raise, v).

(** [try: body  except Exception: handler]. *)
Definition try_except (body handler : Exec unit) : Exec unit :=
  fun v => match body v with
           | (Ret a, v') => (Ret a, v')
           | (Raise, v') => handler v'
           end.

Definition get : Exec Vars := fun v => (Ret v, v).
Definition modify (f : Vars -> Vars) : Exec unit := fun v => (Ret tt, f v).

Fixpoint for_each {A : Type} (l : list A) (body : A -> Exec unit) : Exec unit :=
  match l with
  | [] => ret tt
  | x :: l' => body x ;;; for_each l' body
  end.

Definition set_tracker (t : IoUTracker) (v : Vars) : Vars :=
  {| tracker := t; last_sample := last_sample v; sample_count := sample_count v;
     counts := counts v; cats := cats v; has_face := has_face v; sent := sent v |}.
Definition set_cats (c : list category) (v : Vars) : Vars :=
  {| tracker := tracker v; last_sample := last_sample v;
     sample_count := sample_count v; counts := counts v; cats := c;
     has_face := has_face v; sent := sent v |}.
Definition set_has_face (b : bool) (v : Vars) : Vars :=
  {| tracker := tracker v; last_sample := last_sample v;
     sample_count := sample_count v; counts := counts v; cats := cats v;
     has_face := b; sent := sent v |}.
Definition set_counts (c : Counts) (v : Vars) : Vars :=
  {| tracker := tracker v; last_sample := last_sample v;
     sample_count := sample_count v; counts := c; cats := cats v;
     has_face := has_face v; sent := sent v |}.
Definition set_sample (n : nat) (t : Q) (v : Vars) : Vars :=
  {| tracker := tracker v; last_sample := t; sample_count := n;
     counts := counts v; cats := cats v; has_face := has_face v;
     sent := sent v |}.
Definition set_sample_count (n : nat) (v : Vars) : Vars :=
  set_sample n (last_sample v) v.
Definition log (m : osc_message) (v : Vars) : Vars :=
  {| tracker := tracker v; last_sample := last_sample v;
     sample_count := sample_count v; counts := counts v; cats := cats v;
     has_face := has_face v; sent := sent v ++ [m] |}.

(** [osc_client.send_message]: the call is recorded, then it returns or
    raises. *)
Definition send_message (w : World) (m : osc_message) : Exec unit :=
  modify (log m) ;;; if send_raises w m then raise else ret tt.

(** The boxes kept from [detector.detect_faces(frame)]. *)
Definition detect (w : World) : list Box :=
  flat_map (fun f =>
    let '(x, y, wd, ht) := f in
    let x1 := Z.max 0 x in
    let y1 := Z.max 0 y in
    let x2 := x1 + wd in
    let y2 := y1 + ht in
    if (x1 <? x2) && (y1 <? y2) then [mkBox x1 y1 x2 y2] else [])
    (faces w).

Definition face_message (tid : nat) (bb : Box) (idx : Z) : osc_message :=
  let wd := bx2 bb - bx1 bb in
  let ht := by2 bb - by1 bb in
  let cx := bx1 bb + wd / 2 in
  let cy := by1 bb + ht / 2 in
  {| address := "/face";
     args := [OInt (Z.of_nat tid);
              OFloat (inject_Z cx / inject_Z TARGET_W)%Q;
              OFloat (inject_Z cy / inject_Z TARGET_H)%Q;
              OFloat (inject_Z wd / inject_Z TARGET_W)%Q;
              OFloat (inject_Z ht / inject_Z TARGET_H)%Q;
              OInt idx] |}.

Definition no_face_message : osc_message := {| address := "/no_face"; args := [] |}.

(** The body of [for tid, bb in tracks]; the drawing calls that follow
    [has_face = True] inside the [try] change no variable. *)
Definition report_face (w : World) (t : nat * Box) : Exec unit :=
  try_except
    (match analyze w (snd t) with
     | None => raise
     | Some emo =>
         let idx := emotion_to_index emo in
         match emotion_to_category emo with
         | Some cat => modify (fun v => set_cats (cats v ++ [cat]) v)
         | None => ret tt
         end ;;;
         send_message w (face_message (fst t) (snd t) idx) ;;;
         modify (set_has_face true)
     end)
    (ret tt).

Definition send_ai_query (w : World) (stat : category * Counts) : string :=
  match post w stat with
  | None => ""
  | Some (status_code, content) =>
      if negb (status_code =? 200) then ""
      else match content with
           | Some text => text
           | None => ""
           end
  end.

Definition agent_emotion_message (c : category) (cs : Counts) : osc_message :=
  {| address := "/agent_emotion";
     args := [OStr (category_name c); OInt (category_to_index c);
              OInt (Z.of_nat (n_active cs)); OInt (Z.of_nat (n_calm cs));
              OInt (Z.of_nat (n_hesitant cs)); OInt (Z.of_nat (n_anxious cs))] |}.

(** The block under [if sample_count>=SAMPLES_PER_SUMMARY]. *)
Definition summary (w : World) : Exec unit :=
  v <- get ;;
  match total_cat (rand w) (counts v) with
  | None => raise
  | Some c =>
      send_message w (agent_emotion_message c (counts v)) ;;;
      let word := send_ai_query w (c, counts v) in
      send_message w {| address := "/agent_word"; args := [OStr word] |} ;;;
      modify (fun v => set_sample_count 0 (set_counts zero_counts v))
  end.

(** The block from [now = time.time()] on. *)
Definition sample (w : World) : Exec unit :=
  v <- get ;;
  if Qle_bool SAMPLE_INTERVAL (now w - last_sample v) then
    modify (fun v => set_counts (fold_left incr (cats v) (counts v)) v) ;;;
    modify (fun v => set_sample (S (sample_count v)) (now w) v) ;;;
    v' <- get ;;
    if Nat.leb SAMPLES_PER_SUMMARY (sample_count v') then summary w else ret tt
  else ret tt.

(** Reporting the faces of a frame: from [cats = []] to the [/no_face]
    line. *)
Definition report_faces (w : World) (trks : list (nat * Box)) : Exec unit :=
  modify (fun v => set_has_face false (set_cats [] v)) ;;;
  for_each trks (report_face w) ;;;
  v <- get ;;
  if negb (has_face v) then send_message w no_face_message else ret tt.

(** One round of [while True] on a frame that was read. *)
Definition frame_step (w : World) : Exec unit :=
  v <- get ;;
  let '(trks, t') := update (detect w) (tracker v) in
  modify (set_tracker t') ;;;
  report_faces w trks ;;;
  sample w.

End RingScreen.

(** ** SideScreen *)
Module SideScreen.

(** *** SideScreen/modules/models/tracker.py *)
Module tracker.

(** [update] receives three parallel lists [detections], [class_ids],
    [confs], always built element by element together by
    [detect_with_model]; a detection is one entry of each. *)
Record Detection : Type := mkDetection {
  d_bbox : Box;
  d_class_id : Z;
  d_conf : Q
}.

Record Track : Type := mkTrack {
  bbox : Box;
  missed_count : nat;
  class_id : Z;
  conf : Q
}.

Record HistoryEntry : Type := mkHistoryEntry {
  h_bbox : Box;
  h_time : Q;
  h_class_id : Z;
  h_conf : Q
}.

(** The 7-tuple [(x1,y1,x2,y2,track_id,class_id,conf)] of the result. *)
Record Resolved : Type := mkResolved {
  r_bbox : Box;
  r_track_id : nat;
  r_class_id : Z;
  r_conf : Q
}.

Record IoUTracker : Type := mkTracker {
  iou_threshold : Q;
  max_missed_frames : nat;
  next_id : nat;
  tracks : list (nat * Track);
  track_history : gmap nat (list HistoryEntry)
}.

Definition init (thr : Q) (max_missed : nat) : IoUTracker :=
  {| iou_threshold := thr; max_missed_frames := max_missed; next_id := 1;
     tracks := []; track_history := ∅ |}.

Definition _calculate_iou (box1 box2 : Box) : Q :=
  let x1_i := Z.max (bx1 box1) (bx1 box2) in
  let y1_i := Z.max (by1 box1) (by1 box2) in
  let x2_i := Z.min (bx2 box1) (bx2 box2) in
  let y2_i := Z.min (by2 box1) (by2 box2) in
  if (x2_i <? x1_i) || (y2_i <? y1_i) then 0%Q
  else
    let intersection := (x2_i - x1_i) * (y2_i - y1_i) in
    let box1_area := (bx2 box1 - bx1 box1) * (by2 box1 - by1 box1) in
    let box2_area := (bx2 box2 - bx1 box2) * (by2 box2 - by1 box2) in
    let union := box1_area + box2_area - intersection in
    if 0 <? union then int_div intersection union else 0%Q.

(** [iou_matrix[d_idx, t_idx]], filled before any track is touched. *)
Definition iou_matrix (detections : list Detection) (trk : list (nat * Track))
  : list (list Q) :=
  map (fun d => map (fun e => _calculate_iou (d_bbox d) (bbox (snd e))) trk)
    detections.

(** [missed_count += 1] and the deletion that follows it. *)
Definition age_or_drop (max : nat) (track_id : nat) (trk : list (nat * Track))
  : list (nat * Track) :=
  let trk' :=
    dict_alter (fun t => {| bbox := bbox t; missed_count := S (missed_count t);
                            class_id := class_id t; conf := conf t |})
      track_id trk in
  match dict_get track_id trk' with
  | Some t => if Nat.ltb max (missed_count t) then dict_del track_id trk' else trk'
  | None => trk'
  end.

(** The inner loop over [enumerate(track_ids)] for one detection:
    [max_track_idx] is [None] for the source's [-1]. *)
Fixpoint best_track (row : list (nat * Q)) (tracked_tracks : gset nat)
    (max_iou : Q) (max_track_idx : option nat) : option nat :=
  match row with
  | [] => max_track_idx
  | (t_idx, v) :: row' =>
      if bool_decide (t_idx ∈ tracked_tracks)
      then best_track row' tracked_tracks max_iou max_track_idx
      else if Qlt_bool max_iou v
           then best_track row' tracked_tracks v (Some t_idx)
           else best_track row' tracked_tracks max_iou max_track_idx
  end.

Record Matching : Type := mkMatching {
  m_tracks : list (nat * Track);
  m_history : gmap nat (list HistoryEntry);
  result : list Resolved;
  tracked_dets : gset nat;
  tracked_tracks : gset nat
}.

Definition history_entry (now : Q) (d : Detection) : HistoryEntry :=
  {| h_bbox := d_bbox d; h_time := now; h_class_id := d_class_id d;
     h_conf := d_conf d |}.

Definition resolved (track_id : nat) (d : Detection) : Resolved :=
  {| r_bbox := d_bbox d; r_track_id := track_id; r_class_id := d_class_id d;
     r_conf := d_conf d |}.

(** Append to the history of a track and keep its last 100 entries. *)
Definition append_history (track_id : nat) (e : HistoryEntry)
    (h : gmap nat (list HistoryEntry)) : gmap nat (list HistoryEntry) :=
  let l := default [] (h !! track_id) ++ [e] in
  <[track_id := if Nat.ltb 100 (length l) then skipn (length l - 100) l else l]> h.

(** One round of [for d_idx in range(len(detections))]; [clock d_idx] is
    the reading of [time.time()] for that detection. *)
Definition match_detection (clock : nat -> Q) (track_ids : list nat)
    (m : list (list Q)) (thr : Q) (st : Matching) (e : nat * Detection)
  : Matching :=
  let d_idx := fst e in
  let d := snd e in
  match best_track (enumerate (default [] (m !! d_idx))) (tracked_tracks st) thr None with
  | None => st
  | Some max_track_idx =>
      match track_ids !! max_track_idx with
      | None => st
      | Some track_id =>
          {| m_tracks :=
               dict_alter (fun _ => {| bbox := d_bbox d; missed_count := 0;
                                       class_id := d_class_id d; conf := d_conf d |})
                 track_id (m_tracks st);
             m_history :=
               append_history track_id (history_entry (clock d_idx) d) (m_history st);
             result := result st ++ [resolved track_id d];
             tracked_dets := {[d_idx]} ∪ tracked_dets st;
             tracked_tracks := {[max_track_idx]} ∪ tracked_tracks st |}
      end
  end.

(** One round of the loop that creates tracks for unmatched detections. *)
Definition spawn (clock : nat -> Q) (used : gset nat)
    (st : nat * list (nat * Track) * gmap nat (list HistoryEntry) * list Resolved)
    (e : nat * Detection)
  : nat * list (nat * Track) * gmap nat (list HistoryEntry) * list Resolved :=
  let '(nid, trk, hist, res) := st in
  let d_idx := fst e in
  let d := snd e in
  if bool_decide (d_idx ∈ used) then st
  else (S nid,
        dict_set nid {| bbox := d_bbox d; missed_count := 0;
                        class_id := d_class_id d; conf := d_conf d |} trk,
        <[nid := [history_entry (clock d_idx) d]]> hist,
        res ++ [resolved nid d]).

Definition update (clock : nat -> Q) (detections : list Detection) (s : IoUTracker)
  : list Resolved * IoUTracker :=
  match detections with
  | [] =>
      ([], {| iou_threshold := iou_threshold s;
              max_missed_frames := max_missed_frames s;
              next_id := next_id s;
              tracks := fold_left (fun t track_id =>
                                     age_or_drop (max_missed_frames s) track_id t)
                          (dict_keys (tracks s)) (tracks s);
              track_history := track_history s |})
  | _ :: _ =>
      let m := iou_matrix detections (tracks s) in
      let track_ids := dict_keys (tracks s) in
      let st0 := {| m_tracks := tracks s; m_history := track_history s;
                    result := []; tracked_dets := ∅; tracked_tracks := ∅ |} in
      let st1 :=
        if Nat.ltb 0 (length (tracks s))
        then fold_left (match_detection clock track_ids m (iou_threshold s))
               (enumerate detections) st0
        else st0 in
      let '(nid, trk2, hist2, res) :=
        fold_left (spawn clock (tracked_dets st1)) (enumerate detections)
          (next_id s, m_tracks st1, m_history st1, result st1) in
      let trk3 :=
        fold_left (fun t e =>
                     if bool_decide (fst e ∈ tracked_tracks st1) then t
                     else age_or_drop (max_missed_frames s) (snd e) t)
          (enumerate track_ids) trk2 in
      (res, {| iou_threshold := iou_threshold s;
               max_missed_frames := max_missed_frames s;
               next_id := nid; tracks := trk3; track_history := hist2 |})
  end.

(** The values of the dict returned by [get_active_tracks]. *)
Record ActiveTrack : Type := mkActiveTrack {
  a_bbox : Box;
  a_class_id : Z;
  a_conf : Q
}.

(** [get_active_tracks]: the dict comprehension over [self.tracks.items()],
    in the order of [self.tracks]. *)
Definition get_active_tracks (s : IoUTracker) : list (nat * ActiveTrack) :=
  map (fun e => (fst e, {| a_bbox := bbox (snd e); a_class_id := class_id (snd e);
                           a_conf := conf (snd e) |}))
    (List.filter (fun e => Nat.eqb (missed_count (snd e)) 0) (tracks s)).

End tracker.

(** *** SideScreen/main.py: the report gate *)
Module main.

(** The constants imported from [modules.config] and the frame size
    returned by [setup_camera]. *)
Record Config : Type := mkConfig {
  frame_width : positive;
  frame_height : positive;
  STABLE_CONF_THRESHOLD : Q;
  STABLE_TIME_THRESHOLD : Q;
  RESEND_COOLDOWN : Q;
  SEND_ONLY_STABLE : bool;
  SEND_ONLY_CHANGES : bool
}.

(** The values of [modules/config.py]; the literal [0.35] is the float
    nearest to 35/100, the other two literals are floats as written. *)
Definition config_py (w h : positive) : Config :=
  {| frame_width := w; frame_height := h;
     STABLE_CONF_THRESHOLD := fl (35 # 100); STABLE_TIME_THRESHOLD := 1 # 2;
     RESEND_COOLDOWN := 5; SEND_ONLY_STABLE := true; SEND_ONLY_CHANGES := true |}.

Definition OSC_ADDRESS : string := "/camera/detect".

(** [current_state = (class_id, norm_x, norm_y, norm_w, norm_h)]. *)
Record State : Type := mkState {
  s_class : Z; norm_x : Q; norm_y : Q; norm_w : Q; norm_h : Q
}.

Record Gate : Type := mkGate {
  first_detection_time : gmap nat Q;
  last_sent_time : gmap nat Q;
  last_sent_state : gmap nat State;
  sent : list osc_message
}.

Definition gate_init : Gate :=
  {| first_detection_time := ∅; last_sent_time := ∅; last_sent_state := ∅;
     sent := [] |}.

(** The state of an object.  The centre [x1 + w / 2] is a multiple of
    one half: for coordinates below 2^51 it is a float as it stands, and
    so are the ints converted for the divisions.  Each quotient is
    rounded, and so is the difference [1.0 - cy / frame_height]. *)
Definition current_state (cfg : Config) (obj : tracker.Resolved) : State :=
  let b := tracker.r_bbox obj in
  let w := bx2 b - bx1 b in
  let h := by2 b - by1 b in
  let cx := (inject_Z (bx1 b) + inject_Z w / 2)%Q in
  let cy := (inject_Z (by1 b) + inject_Z h / 2)%Q in
  {| s_class := tracker.r_class_id obj;
     norm_x := fl (cx / inject_Z (Zpos (frame_width cfg)));
     norm_y := fl (1 - fl (cy / inject_Z (Zpos (frame_height cfg))));
     norm_w := fl (inject_Z w / inject_Z (Zpos (frame_width cfg)));
     norm_h := fl (inject_Z h / inject_Z (Zpos (frame_height cfg))) |}.

Definition stable (cfg : Config) (current_time first : Q) (conf : Q) : bool :=
  Qle_bool (STABLE_TIME_THRESHOLD cfg) (fl (current_time - first))
  && Qle_bool (STABLE_CONF_THRESHOLD cfg) conf.

Definition is_first_detection (g : Gate) (track_id : nat) : bool :=
  bool_decide (last_sent_time g !! track_id = None).

Definition cooldown_passed (cfg : Config) (current_time : Q) (g : Gate)
    (track_id : nat) : bool :=
  match last_sent_time g !! track_id with
  | Some t0 => Qle_bool (RESEND_COOLDOWN cfg) (fl (current_time - t0))
  | None => true
  end.

(** [abs(a - b) > 0.01] on floats: the difference is rounded, and the
    literal is the float nearest to 1/100. *)
Definition differs (a b : Q) : bool := Qlt_bool (fl (1 # 100)) (Qabs (fl (a - b))).

Definition state_changed (g : Gate) (track_id : nat) (cur : State) : bool :=
  match last_sent_state g !! track_id with
  | Some last =>
      negb (s_class last =? s_class cur)
      || differs (norm_x last) (norm_x cur)
      || differs (norm_y last) (norm_y cur)
      || differs (norm_w last) (norm_w cur)
      || differs (norm_h last) (norm_h cur)
  | None => true
  end.

Definition report (cur : State) : osc_message :=
  {| address := OSC_ADDRESS;
     args := [OInt (s_class cur); OFloat (norm_x cur); OFloat (norm_y cur);
              OFloat (norm_w cur); OFloat (norm_h cur)] |}.

(** The body of [for obj in tracked_objects]. *)
Definition gate_object (cfg : Config) (current_time : Q) (g : Gate)
    (obj : tracker.Resolved) : Gate :=
  let track_id := tracker.r_track_id obj in
  let cur := current_state cfg obj in
  let fdt :=
    match first_detection_time g !! track_id with
    | Some _ => first_detection_time g
    | None => <[track_id := current_time]> (first_detection_time g)
    end in
  let g1 := {| first_detection_time := fdt; last_sent_time := last_sent_time g;
               last_sent_state := last_sent_state g; sent := sent g |} in
  let first := default current_time (fdt !! track_id) in
  if SEND_ONLY_STABLE cfg
     && negb (stable cfg current_time first (tracker.r_conf obj))
  then g1
  else if is_first_detection g1 track_id
          || (cooldown_passed cfg current_time g1 track_id
              && (negb (SEND_ONLY_CHANGES cfg) || state_changed g1 track_id cur))
  then {| first_detection_time := fdt;
          last_sent_time := <[track_id := current_time]> (last_sent_time g);
          last_sent_state := <[track_id := cur]> (last_sent_state g);
          sent := sent g ++ [report cur] |}
  else g1.

Definition send_letter_detection_results (cfg : Config) (current_time : Q)
    (tracked_objects : list tracker.Resolved) (g : Gate) : Gate :=
  fold_left (gate_object cfg current_time) tracked_objects g.

Definition PERSON_OSC_ADDRESS : string := "/person".

(** [conf = person_confs[i] if person_confs and i < len(person_confs)
    else 1.0]; [None] and the empty list are both falsy. *)
Definition person_conf (person_confs : option (list Q)) (i : nat) : Q :=
  match person_confs with
  | Some confs => default 1%Q (confs !! i)
  | None => 1%Q
  end.

(** The message for one person: the same four numbers as for a letter,
    rounded as in [current_state]. *)
Definition person_message (cfg : Config) (b : Box) (conf : Q) : osc_message :=
  let w := bx2 b - bx1 b in
  let h := by2 b - by1 b in
  let cx := (inject_Z (bx1 b) + inject_Z w / 2)%Q in
  let cy := (inject_Z (by1 b) + inject_Z h / 2)%Q in
  {| address := PERSON_OSC_ADDRESS;
     args := [OFloat (fl (cx / inject_Z (Zpos (frame_width cfg))));
              OFloat (fl (1 - fl (cy / inject_Z (Zpos (frame_height cfg)))));
              OFloat (fl (inject_Z w / inject_Z (Zpos (frame_width cfg))));
              OFloat (fl (inject_Z h / inject_Z (Zpos (frame_height cfg))));
              OFloat conf] |}.

(** [send_person_detection_results]; [wire] holds the messages handed to
    the person client so far. *)
Definition send_person_detection_results (cfg : Config) (person_detections : list Box)
    (person_confs : option (list Q)) (wire : list osc_message) : list osc_message :=
  fold_left (fun out e =>
               out ++ [person_message cfg (snd e) (person_conf person_confs (fst e))])
    (enumerate person_detections) wire.

End main.

(** *** SideScreen/modules/vision_api/worker.py: the annotation list *)
Module worker.

(** An element [(box, text, timestamp)] of [self.boxes]. *)
Record Entry : Type := mkEntry { e_box : Box; e_text : string; e_time : Q }.

Definition Entry_eqb (a b : Entry) : bool :=
  Box_eqb (e_box a) (e_box b) && String.eqb (e_text a) (e_text b)
  && Qeq_bool (e_time a) (e_time b).

Section Limits.
Variable VISION_API_BOX_DURATION : Q.
Variable VISION_API_MAX_ONSCREEN : nat.

Definition active (now : Q) (e : Entry) : bool :=
  Qle_bool (now - e_time e) VISION_API_BOX_DURATION.

(** The scan of [min]: [best] is the first entry of least timestamp
    among those seen so far. *)
Fixpoint oldest_from (best : Entry) (boxes : list Entry) : Entry :=
  match boxes with
  | [] => best
  | e :: boxes' =>
      if Qlt_bool (e_time e) (e_time best) then oldest_from e boxes'
      else oldest_from best boxes'
  end.

(** [min(boxes, key=lambda x: x[2])]: the first entry of least
    timestamp; [None] is the error Python raises on an empty list. *)
Definition oldest (boxes : list Entry) : option Entry :=
  match boxes with
  | [] => None
  | e :: boxes' => Some (oldest_from e boxes')
  end.

(** [boxes.remove(x)]: drops the first entry equal to [x]. *)
Fixpoint remove (x : Entry) (boxes : list Entry) : list Entry :=
  match boxes with
  | [] => []
  | e :: boxes' => if Entry_eqb e x then boxes' else e :: remove x boxes'
  end.

(** How a [while] loop over [self.boxes] ends. *)
Inductive loop_end : Type :=
| Done (boxes : list Entry)
| ValueError (boxes : list Entry)
| OutOfFuel.

(** [while over(len(boxes)): boxes.remove(min(boxes, ...))].  Each
    round shortens the list, so [S (length boxes)] rounds of fuel are
    never used up. *)
Fixpoint evict (fuel : nat) (over : nat -> bool) (boxes : list Entry) : loop_end :=
  match fuel with
  | O => OutOfFuel
  | S fuel' =>
      if over (length boxes) then
        match oldest boxes with
        | None => ValueError boxes
        | Some o => evict fuel' over (remove o boxes)
        end
      else Done boxes
  end.

(** [get_current_boxes]: the new [self.boxes]; the value returned is a
    deep copy of it. *)
Definition get_current_boxes (now : Q) (boxes : list Entry) : loop_end :=
  let active_boxes := List.filter (active now) boxes in
  evict (S (length active_boxes))
    (fun n => Nat.ltb VISION_API_MAX_ONSCREEN n) active_boxes.

(** The critical section of [api_call_thread] that stores a result at
    [current_time].  The [ValueError] of [min] on an empty list is caught
    by the thread's [except Exception]: the entry is then not added. *)
Definition store_result (current_time : Q) (box_coords : Box) (response_text : string)
    (boxes : list Entry) : loop_end :=
  let kept := List.filter (active current_time) boxes in
  match evict (S (length kept))
          (fun n => Nat.leb VISION_API_MAX_ONSCREEN n) kept with
  | Done boxes' =>
      Done (boxes' ++ [{| e_box := box_coords; e_text := response_text;
                          e_time := current_time |}])
  | other => other
  end.
(** The check at the head of [process_frame_with_llm]: [true] when the
    method returns without generating a box.  With the limit reached and
    no live box (a limit of 0) generation goes on. *)
Definition skip_generation (now : Q) (boxes : list Entry) : bool :=
  let current_boxes_with_time := List.filter (active now) boxes in
  if Nat.leb VISION_API_MAX_ONSCREEN (length current_boxes_with_time) then
    match oldest current_boxes_with_time with
    | Some o =>
        let oldest_box_time := e_time o in
        let time_since_oldest := (now - oldest_box_time)%Q in
        Qlt_bool time_since_oldest (VISION_API_BOX_DURATION / 2)%Q
    | None => false
    end
  else false.
End Limits.

(** [calculate_iou]. *)
Definition calculate_iou (box1 box2 : Box) : Q :=
  let x_inter1 := Z.max (bx1 box1) (bx1 box2) in
  let y_inter1 := Z.max (by1 box1) (by1 box2) in
  let x_inter2 := Z.min (bx2 box1) (bx2 box2) in
  let y_inter2 := Z.min (by2 box1) (by2 box2) in
  let width_inter := Z.max 0 (x_inter2 - x_inter1) in
  let height_inter := Z.max 0 (y_inter2 - y_inter1) in
  let area_inter := width_inter * height_inter in
  let area_1 := (bx2 box1 - bx1 box1) * (by2 box1 - by1 box1) in
  let area_2 := (bx2 box2 - bx1 box2) * (by2 box2 - by1 box2) in
  let area_union := area_1 + area_2 - area_inter in
  if area_union <=? 0 then 0%Q else int_div area_inter area_union.

(** The four values [random.randint] returns in one attempt of
    [generate_random_box]. *)
Record Draw : Type := mkDraw { cx : Z; cy : Z; box_w : Z; box_h : Z }.

(** [new_box] of one attempt on a frame of [w] by [h] pixels. *)
Definition new_box (w h : Z) (d : Draw) : Box :=
  let x1 := Z.max 0 (cx d - box_w d / 2) in
  let y1 := Z.max 0 (cy d - box_h d / 2) in
  let x2 := Z.min w (x1 + box_w d) in
  let y2 := Z.min h (y1 + box_h d) in
  mkBox x1 y1 x2 y2.

(** The inner loop over [existing_boxes]. *)
Definition overlap (existing_boxes : list Box) (b : Box) : bool :=
  existsb (fun box => Qlt_bool (1 # 10) (calculate_iou b box)) existing_boxes.

(** [for attempt in range(...)], from attempt number [attempt] with
    [more] attempts left after it; when the last attempt overlaps too,
    its box is returned. *)
Fixpoint attempts (w h : Z) (existing_boxes : list Box) (draws : nat -> Draw)
    (more attempt : nat) : Box :=
  let b := new_box w h (draws attempt) in
  if overlap existing_boxes b then
    match more with
    | O => b
    | S more' => attempts w h existing_boxes draws more' (S attempt)
    end
  else b.

(** [generate_random_box] on a frame of [w] by [h] pixels: ten attempts;
    [boxes] is [self.boxes] and [draws k] the values drawn in attempt
    [k]. *)
Definition generate_random_box (w h : Z) (boxes : list Entry) (draws : nat -> Draw)
  : Box :=
  attempts w h (map e_box boxes) draws 9 0.

End worker.

(** *** SideScreen/modules/utils/osc_utils.py *)
Module osc_utils.

(** What [client.send] is handed: one message or a bundle. *)
Inductive packet : Type :=
| Message (m : osc_message)
| Bundle (messages : list osc_message).

Definition OPENAI_OSC_ADDRESS : string := "/anything".

Definition build_osc_message (address : string) (args : list osc_arg) : osc_message :=
  {| address := address; args := args |}.

Definition build_osc_bundle (messages : list osc_message) : packet := Bundle messages.

(** [send_osc_messages]: the value returned ([None] when [client.send]
    raises) and the packets handed to [client.send] so far; [send_raises]
    tells whether [client.send] raises on a packet. *)
Definition send_osc_messages (send_raises : packet -> bool) (address : string)
    (args_list : list (list osc_arg)) (bundle : bool) (wire : list packet)
  : option nat * list packet :=
  match args_list with
  | [] => (Some 0%nat, wire)
  | args0 :: _ =>
      let p :=
        if Nat.eqb (length args_list) 1 && negb bundle
        then Message (build_osc_message address args0)
        else build_osc_bundle (map (build_osc_message address) args_list) in
      if send_raises p then (None, wire ++ [p])
      else (Some (length args_list), wire ++ [p])
  end.

(** [tuple(box)]. *)
Definition box_tuple (box : Box) : Z * Z * Z * Z := (bx1 box, by1 box, bx2 box, by2 box).

Definition anything_args (frame_width frame_height : positive) (box : Box)
    (text : string) : list osc_arg :=
  let cx := (inject_Z (bx1 box + bx2 box) / 2)%Q in
  let cy := (inject_Z (by1 box + by2 box) / 2)%Q in
  let w := bx2 box - bx1 box in
  let h := by2 box - by1 box in
  [OFloat (cx / inject_Z (Zpos frame_width))%Q;
   OFloat (1 - cy / inject_Z (Zpos frame_height))%Q;
   OFloat (inject_Z w / inject_Z (Zpos frame_width))%Q;
   OFloat (inject_Z h / inject_Z (Zpos frame_height))%Q;
   OStr text].

(** One round of [for box, text, _ in boxes]. *)
Definition collect (frame_width frame_height : positive)
    (st : list (list osc_arg) * gset (Z * Z * Z * Z)) (e : worker.Entry)
  : list (list osc_arg) * gset (Z * Z * Z * Z) :=
  let '(message_args_list, sent_anything_boxes) := st in
  if bool_decide (box_tuple (worker.e_box e) ∈ sent_anything_boxes) then st
  else (message_args_list
          ++ [anything_args frame_width frame_height (worker.e_box e) (worker.e_text e)],
        {[box_tuple (worker.e_box e)]} ∪ sent_anything_boxes).

(** [send_vision_api_osc]: the value returned, the packets handed to the
    client, and the set [sent_anything_boxes] after the call. *)
Definition send_vision_api_osc (send_raises : packet -> bool) (boxes : list worker.Entry)
    (frame_width frame_height : positive) (sent_anything_boxes : gset (Z * Z * Z * Z))
    (wire : list packet)
  : option nat * list packet * gset (Z * Z * Z * Z) :=
  let '(message_args_list, sent') :=
    fold_left (collect frame_width frame_height) boxes ([], sent_anything_boxes) in
  (send_osc_messages send_raises OPENAI_OSC_ADDRESS message_args_list true wire, sent').

End osc_utils.

(** *** SideScreen/modules/utils/data_utils.py *)
Module data_utils.

Definition DATA_CLEANUP_INTERVAL : Q := 30.
Definition DATA_MAX_AGE : Q := 60.
Definition MAX_BOXES_BEFORE_CLEANUP : nat := 1000.

(** ["last_time" in data and current_time - data["last_time"] >
    max_age_seconds], for a record [data] of float fields. *)
Definition expired (current_time max_age_seconds : Q) (data : gmap string Q) : bool :=
  match data !! "last_time" with
  | Some last_time => Qlt_bool max_age_seconds (current_time - last_time)
  | None => false
  end.

Definition positions_to_remove (current_time max_age_seconds : Q)
    (target_positions : gmap nat (gmap string Q)) : list nat :=
  map fst (List.filter (fun e => expired current_time max_age_seconds (snd e))
             (map_to_list target_positions)).

(** [cleanup_historical_data]: the two containers after the call and the
    pair returned. *)
Definition cleanup_historical_data (current_time max_age_seconds : Q)
    (target_positions : gmap nat (gmap string Q))
    (sent_anything_boxes : gset (Z * Z * Z * Z))
  : gmap nat (gmap string Q) * gset (Z * Z * Z * Z) * (nat * nat) :=
  let to_remove := positions_to_remove current_time max_age_seconds target_positions in
  let target_positions' :=
    fold_left (fun m track_id => delete track_id m) to_remove target_positions in
  let boxes_count := size sent_anything_boxes in
  let over := Nat.ltb MAX_BOXES_BEFORE_CLEANUP boxes_count in
  (target_positions',
   if over then ∅ else sent_anything_boxes,
   (length to_remove, if over then boxes_count else 0%nat)).

(** [should_run_cleanup]: the value returned and the global
    [LAST_DATA_CLEANUP_TIME] after the call. *)
Definition should_run_cleanup (interval_seconds current_time : Q)
    (LAST_DATA_CLEANUP_TIME : Q) : bool * Q :=
  if Qlt_bool interval_seconds (current_time - LAST_DATA_CLEANUP_TIME)
  then (true, current_time)
  else (false, LAST_DATA_CLEANUP_TIME).

End data_utils.

(** *** SideScreen/modules/models/detection.py *)
Module detection.

(** One element of [result.boxes]: the floats of [box.cls], [box.xyxy]
    and [box.conf]. *)
Record Prediction : Type := mkPrediction {
  p_cls : Q;
  p_xyxy : Q * Q * Q * Q;
  p_conf : Q
}.

(** [class_filter is not None and cls_id not in class_filter]. *)
Definition filtered_out (class_filter : option (list Z)) (cls_id : Z) : bool :=
  match class_filter with
  | Some l => negb (existsb (Z.eqb cls_id) l)
  | None => false
  end.

(** [detect_with_model]; [predicted] is [result.boxes] for the frame
    ([[]] when the result has none), or [None] when anything inside the
    [try] raises. *)
Definition detect_with_model (predicted : option (list Prediction))
    (class_filter : option (list Z)) : list Box * list Z * list Q :=
  match predicted with
  | None => ([], [], [])
  | Some result_boxes =>
      fold_left (fun acc box =>
                   let '(boxes, class_ids, confidences) := acc in
                   let cls_id := py_int (p_cls box) in
                   if filtered_out class_filter cls_id then acc
                   else
                     let '(x1, y1, x2, y2) := p_xyxy box in
                     (boxes ++ [mkBox (py_int x1) (py_int y1) (py_int x2) (py_int y2)],
                      class_ids ++ [cls_id],
                      confidences ++ [p_conf box]))
        result_boxes ([], [], [])
  end.

(** The loop of [filter_detections_by_class]; [None] is the IndexError
    of [detections[i]] or [confs[i]]. *)
Fixpoint filter_loop (detections : list Box) (confs : list Q) (target : list Z)
    (l : list (nat * Z)) (acc : list Box * list Z * list Q)
  : option (list Box * list Z * list Q) :=
  match l with
  | [] => Some acc
  | (i, class_id) :: l' =>
      if existsb (Z.eqb class_id) target then
        match detections !! i, confs !! i with
        | Some d, Some c =>
            let '(filtered_detections, filtered_class_ids, filtered_confs) := acc in
            filter_loop detections confs target l'
              (filtered_detections ++ [d], filtered_class_ids ++ [class_id],
               filtered_confs ++ [c])
        | _, _ => None
        end
      else filter_loop detections confs target l' acc
  end.

(** [filter_detections_by_class]; [target_class_ids] is [Some l] for a
    list, tuple or set of elements [l], and [None] for anything else. *)
Definition filter_detections_by_class (detections : list Box) (class_ids : list Z)
    (confs : list Q) (target_class_ids : option (list Z))
  : option (list Box * list Z * list Q) :=
  match target_class_ids with
  | None | Some [] => Some (detections, class_ids, confs)
  | Some target =>
      filter_loop detections confs target (enumerate class_ids) ([], [], [])
  end.

End detection.

(** *** SideScreen/modules/vision_api/api.py *)
Module api.

(** [s.split(",", 1)[1]]: what follows the first comma; [None] is the
    IndexError when there is none. *)
Fixpoint after_first_comma (s : string) : option string :=
  match s with
  | EmptyString => None
  | String c s' => if Ascii.eqb c ","%char then Some s' else after_first_comma s'
  end.

(** The [url] of the image part [send_image_query] builds for a
    non-empty [image_base64]; [None] when building it raises. *)
Definition image_url (image_base64 : string) : option string :=
  if String.prefix "data:image" image_base64 then
    match after_first_comma image_base64 with
    | Some rest => Some ("data:image/png;base64," ++ rest)%string
    | None => None
    end
  else Some ("data:image/png;base64," ++ image_base64)%string.

End api.

(** *** SideScreen/main.py: the letters of a frame *)
Module GAFDetectionSystem.

(** [list(CLASS_NAME_MAP.values())]. *)
Definition CLASS_NAME_MAP_values : list Z := [0; 1; 2].

(** The three parallel lists [detect_with_model] returns, as the
    detections [IoUTracker.update] indexes them by. *)
Definition parallel (r : list Box * list Z * list Q) : list tracker.Detection :=
  let '(boxes, class_ids, confs) := r in
  map (fun e => tracker.mkDetection (fst (fst e)) (snd (fst e)) (snd e))
    (combine (combine boxes class_ids) confs).

(** The part of [process_frame] that handles letters: detection, the
    update of the tracker, and the reports; [clock] holds the readings
    of [time.time()] inside [update], [current_time] the one of
    [send_letter_detection_results]. *)
Definition process_frame_letters (cfg : main.Config)
    (predicted : option (list detection.Prediction)) (clock : nat -> Q)
    (current_time : Q) (st : tracker.IoUTracker * main.Gate)
  : list tracker.Resolved * (tracker.IoUTracker * main.Gate) :=
  let letters := detection.detect_with_model predicted (Some CLASS_NAME_MAP_values) in
  let '(tracked_objects, tracker') := tracker.update clock (parallel letters) (fst st) in
  let gate' :=
    match tracked_objects with
    | [] => snd st
    | _ :: _ => main.send_letter_detection_results cfg current_time tracked_objects (snd st)
    end in
  (tracked_objects, (tracker', gate')).

End GAFDetectionSystem.

End SideScreen.

(** * Vocabulary of the properties

    The notions the statements below are phrased in, and the concrete
    frames, trackers and worlds the examples run on. *)

(** ** The main loop of RingScreen *)
Section MainLoopDefs.
Import RingScreen.

Definition is_addr (a : string) (m : osc_message) : bool := String.eqb (address m) a.

(** Number of messages of one address among [l]. *)
Definition count_addr (a : string) (l : list osc_message) : nat :=
  length (List.filter (is_addr a) l).

(** A [/face] message whose [send_message] call returned. *)
Definition face_delivered (w : World) (m : osc_message) : bool :=
  is_addr "/face" m && negb (send_raises w m).

(** The messages the main loop sends outside its [try] block. *)
Definition unguarded (m : osc_message) : Prop :=
  address m = "/no_face"%string \/ address m = "/agent_emotion"%string
  \/ address m = "/agent_word"%string.

(** The variables a face report leaves alone. *)
Definition same_window (v v' : Vars) : Prop :=
  tracker v' = tracker v /\ last_sample v' = last_sample v
  /\ sample_count v' = sample_count v /\ counts v' = counts v.

Definition agent_word_message (word : string) : osc_message :=
  {| address := "/agent_word"; args := [OStr word] |}.

(** The counters as they stand when the window is summarised. *)
Definition window_counts (v : Vars) : Counts := fold_left incr (cats v) (counts v).

End MainLoopDefs.

(** A round in which DeepFace is unreachable and the AI endpoint fails. *)
Definition quiet_world : RingScreen.World :=
  {| RingScreen.faces := [(0, 0, 10, 10)];
     RingScreen.analyze := fun _ => None;
     RingScreen.send_raises := fun _ => false;
     RingScreen.post := fun _ => None;
     RingScreen.rand := 0;
     RingScreen.now := 36 |}.

(** A round in which the sink raises on every [/face] message and on no
    other. *)
Definition face_deaf_world : RingScreen.World :=
  {| RingScreen.faces := [(0, 0, 10, 10)];
     RingScreen.analyze := fun _ => Some "happy"%string;
     RingScreen.send_raises := fun m => is_addr "/face" m;
     RingScreen.post := fun _ => None;
     RingScreen.rand := 0;
     RingScreen.now := 36 |}.

(** The same round with a sink that raises on [/agent_emotion]. *)
Definition broken_sink_world : RingScreen.World :=
  {| RingScreen.faces := [(0, 0, 10, 10)];
     RingScreen.analyze := fun _ => Some "happy"%string;
     RingScreen.send_raises := fun m => is_addr "/agent_emotion" m;
     RingScreen.post := fun _ => None;
     RingScreen.rand := 0;
     RingScreen.now := 36 |}.

(** A round with one face, whose analysis answers [emo], and a sink
    that raises on the messages of address [a] and on no other. *)
Definition deaf_world (a : string) (emo : option string) : RingScreen.World :=
  {| RingScreen.faces := [(0, 0, 10, 10)];
     RingScreen.analyze := fun _ => emo;
     RingScreen.send_raises := fun m => is_addr a m;
     RingScreen.post := fun _ => None;
     RingScreen.rand := 0;
     RingScreen.now := 36 |}.

(** The script's variables one tick before the end of a window. *)
Definition last_tick : RingScreen.Vars :=
  {| RingScreen.tracker := RingScreen.init (3 # 10) 20;
     RingScreen.last_sample := 33;
     RingScreen.sample_count := 11;
     RingScreen.counts := RingScreen.mkCounts 4 2 0 1;
     RingScreen.cats := [];
     RingScreen.has_face := false;
     RingScreen.sent := [] |}.

(** ** The report gate of SideScreen *)
Section GateRuleDefs.
Import SideScreen.tracker SideScreen.main.

(** The moment the track was first seen by the gate, this call included. *)
Definition first_seen (current_time : Q) (g : Gate) (track_id : nat) : Q :=
  default current_time (first_detection_time g !! track_id).

(** The track passes the stability filter; the time since its first
    sight is a difference of floats. *)
Definition passes_stability (cfg : Config) (current_time : Q) (g : Gate)
    (obj : Resolved) : Prop :=
  SEND_ONLY_STABLE cfg = false
  \/ ((STABLE_TIME_THRESHOLD cfg
        <= fl (current_time - first_seen current_time g (r_track_id obj)))%Q
      /\ (STABLE_CONF_THRESHOLD cfg <= r_conf obj)%Q).






(** Every track with a last-sent time has a last-sent snapshot: the two
    dicts are always assigned together. *)
Definition consistent (g : Gate) : Prop :=
  forall track_id, is_Some (last_sent_time g !! track_id) ->
                   is_Some (last_sent_state g !! track_id).

End GateRuleDefs.

(** A letter seen at confidence 0.9, one second after its first sight. *)
Definition seen_letter : SideScreen.tracker.Resolved :=
  {| SideScreen.tracker.r_bbox := mkBox 100 100 200 260;
     SideScreen.tracker.r_track_id := 1;
     SideScreen.tracker.r_class_id := 2;
     SideScreen.tracker.r_conf := 9 # 10 |}.

Definition gate_after_first_sight : SideScreen.main.Gate :=
  {| SideScreen.main.first_detection_time := {[ 1%nat := 0%Q ]};
     SideScreen.main.last_sent_time := ∅;
     SideScreen.main.last_sent_state := ∅;
     SideScreen.main.sent := [] |}.



(** ** The annotation list of the vision worker *)
Section AnnotationCacheDefs.
Import SideScreen.worker.
Variable DURATION : Q.
Variable MAX : nat.

(** One round of a capacity loop: the oldest entry leaves. *)
Definition drop_oldest (boxes : list Entry) : list Entry :=
  match oldest boxes with
  | Some o => remove o boxes
  | None => boxes
  end.

Fixpoint drop_oldest_n (k : nat) (boxes : list Entry) : list Entry :=
  match k with
  | O => boxes
  | S k' => drop_oldest_n k' (drop_oldest boxes)
  end.


End AnnotationCacheDefs.

(** ** The SideScreen tracker *)
Section SideTrackerDefs.
Import SideScreen.tracker.

(** The track ids of a result list. *)
Definition ids (res : list Resolved) : list nat := map r_track_id res.

(** What one update without a match does to a track: one more missed
    frame, and removal once the count exceeds [max]. *)
Definition miss (max : nat) (o : option Track) : option Track :=
  match o with
  | Some t =>
      if Nat.ltb max (S (missed_count t)) then None
      else Some {| bbox := bbox t; missed_count := S (missed_count t);
                   class_id := class_id t; conf := conf t |}
  | None => None
  end.

(** Ageing the tracks of a list of ids. *)
Definition age_all (max : nat) (l : list nat) (trk : list (nat * Track))
  : list (nat * Track) :=
  fold_left (fun t track_id => age_or_drop max track_id t) l trk.

(** The ids whose index is not in [T]. *)
Definition unmatched_ids (T : gset nat) (track_ids : list nat) : list nat :=
  map snd (List.filter (fun e => negb (bool_decide (fst e ∈ T))) (enumerate track_ids)).

(** What the matching loop maintains, relative to the state [s] the call
    started from. *)
Definition match_inv (s : IoUTracker) (st : Matching) : Prop :=
  dict_keys (m_tracks st) = dict_keys (tracks s)
  /\ (forall tid, ~ In tid (ids (result st)) ->
      dict_get tid (m_tracks st) = dict_get tid (tracks s)
      /\ m_history st !! tid = track_history s !! tid)
  /\ (forall j, j ∈ tracked_tracks st ->
      exists tid, dict_keys (tracks s) !! j = Some tid /\ In tid (ids (result st)))
  /\ (forall tid, In tid (ids (result st)) ->
      (exists j, j ∈ tracked_tracks st /\ dict_keys (tracks s) !! j = Some tid)
      /\ (exists t, dict_get tid (m_tracks st) = Some t /\ missed_count t = 0%nat)
      /\ (exists h, m_history st !! tid = Some h /\ h <> [])).

(** The invariant of the tracker: the keys of [self.tracks] are distinct
    and below [next_id], and every live track has a history. *)
Definition wf (s : IoUTracker) : Prop :=
  List.NoDup (dict_keys (tracks s))
  /\ (forall k, In k (dict_keys (tracks s)) -> (k < next_id s)%nat)
  /\ (forall k, In k (dict_keys (tracks s)) ->
      exists h, track_history s !! k = Some h /\ h <> []).

(** What one call of [update] does, seen from outside. *)
Definition update_facts (s : IoUTracker) (res : list Resolved) (s' : IoUTracker)
  : Prop :=
  iou_threshold s' = iou_threshold s
  /\ max_missed_frames s' = max_missed_frames s
  /\ (next_id s <= next_id s')%nat
  /\ wf s'
  /\ (forall tid, In tid (dict_keys (tracks s)) -> ~ In tid (ids res) ->
      dict_get tid (tracks s') = miss (max_missed_frames s) (dict_get tid (tracks s))
      /\ track_history s' !! tid = track_history s !! tid)
  /\ (forall tid, In tid (ids res) ->
      (In tid (dict_keys (tracks s)) \/ (next_id s <= tid < next_id s')%nat)
      /\ exists t, dict_get tid (tracks s') = Some t /\ missed_count t = 0%nat)
  /\ (forall tid, In tid (dict_keys (tracks s')) ->
      In tid (dict_keys (tracks s)) \/ (next_id s <= tid < next_id s')%nat).

(** A frame: the clock readings of the call and its detections. *)
Definition step (s : IoUTracker) (f : (nat -> Q) * list Detection) : IoUTracker :=
  snd (update (fst f) (snd f) s).

(** The tracker after a sequence of calls of [update]. *)
Definition run (frames : list ((nat -> Q) * list Detection)) (s : IoUTracker)
  : IoUTracker :=
  fold_left step frames s.

End SideTrackerDefs.

(** A letter detection at confidence 0.5. *)
Definition letter (x1 y1 x2 y2 : Z) : SideScreen.tracker.Detection :=
  SideScreen.tracker.mkDetection (mkBox x1 y1 x2 y2) 0 (1 # 2).

(** A clock that stands still. *)
Definition noon : nat -> Q := fun _ => 0%Q.

(** The letter tracker after its first frame, for a limit of one missed
    frame. *)
Definition one_letter : SideScreen.tracker.IoUTracker :=
  snd (SideScreen.tracker.update noon [letter 0 0 10 10]
         (SideScreen.tracker.init (3 # 10) 1)).

(** The face tracker after its first frame, for the same limit. *)
Definition one_face : RingScreen.IoUTracker :=
  snd (RingScreen.update [mkBox 0 0 10 10] (RingScreen.init (3 # 10) 1)).

(** ** The RingScreen tracker *)
Section RingTrackerDefs.
Import RingScreen.

Definition ring_miss (max : nat) (o : option Track) : option Track :=
  match o with
  | Some t =>
      if Nat.ltb max (S (missed t)) then None
      else Some {| bbox := bbox t; missed := S (missed t) |}
  | None => None
  end.

(** What the acceptance loop maintains. *)
Definition accept_inv (tids : list nat) (c : Claimed) : Prop :=
  (forall tid, tid ∈ used_t c <-> In tid (map fst (results c)))
  /\ (forall tid, In tid (map fst (results c)) -> In tid tids).

(** What the last loop leaves of a track. *)
Definition swept (max : nat) (o : option Track) : option Track :=
  match o with
  | Some t => if Nat.ltb max (missed t) then None else Some t
  | None => None
  end.

Definition sweep_step (max : nat) (t : list (nat * Track)) (tid : nat)
  : list (nat * Track) :=
  match dict_get tid t with
  | Some tr => if Nat.ltb max (missed tr) then dict_del tid t else t
  | None => t
  end.

(** The invariant of the tracker: distinct keys, all below [next_id]. *)
Definition ring_wf (s : IoUTracker) : Prop :=
  List.NoDup (dict_keys (tracks s))
  /\ (forall k, In k (dict_keys (tracks s)) -> (k < next_id s)%nat).

(** What one call of [update] does, seen from outside. *)
Definition ring_update_facts (s : IoUTracker) (res : list (nat * Box))
    (s' : IoUTracker) : Prop :=
  iou_threshold s' = iou_threshold s
  /\ max_missed s' = max_missed s
  /\ (next_id s <= next_id s')%nat
  /\ ring_wf s'
  /\ (forall tid, In tid (dict_keys (tracks s)) -> ~ In tid (map fst res) ->
      dict_get tid (tracks s') = ring_miss (max_missed s) (dict_get tid (tracks s)))
  /\ (forall tid, In tid (map fst res) ->
      (In tid (dict_keys (tracks s)) \/ (next_id s <= tid < next_id s')%nat)
      /\ exists t, dict_get tid (tracks s') = Some t /\ missed t = 0%nat)
  /\ (forall tid, In tid (dict_keys (tracks s')) ->
      In tid (dict_keys (tracks s)) \/ (next_id s <= tid < next_id s')%nat).

Definition ring_run (frames : list (list Box)) (s : IoUTracker) : IoUTracker :=
  fold_left (fun s dets => snd (update dets s)) frames s.

End RingTrackerDefs.

(** ** Continuity of a track over two frames *)
Section ContinuityDefs.
Import SideScreen.tracker.

(** The track a detection [d] is written into. *)
Definition track_of (d : Detection) : Track :=
  {| bbox := d_bbox d; missed_count := 0; class_id := d_class_id d; conf := d_conf d |}.

(** The row of the IoU matrix for the only detection of a call. *)
Definition row_of (d : Detection) (trk : list (nat * Track)) : list Q :=
  map (fun e => _calculate_iou (d_bbox d) (bbox (snd e))) trk.

(** The candidate pairs of one row, whose columns are numbered from [a]. *)
Definition row_pairs (thr : Q) (a : nat) (row : list Q) : list (Q * nat * nat) :=
  flat_map (fun jv => if Qle_bool thr (snd jv) then [(snd jv, 0%nat, fst jv)] else [])
    (combine (seq a (length row)) row).
Import RingScreen.

Definition ring_row (d : Box) (trk : list (nat * Track)) : list Q :=
  map (fun e => iou (bbox (snd e)) d) trk.

End ContinuityDefs.

(** Two boxes of IoU 80/100: the second is the first moved by one pixel. *)
Definition box_a : Box := mkBox 0 0 9 10.

Definition box_b : Box := mkBox 1 0 10 10.

(** ** The matching policy *)
Section CanonicalDefs.
(** The overlap of a track box and a detection box. *)
Variable overlap : Box -> Box -> Q.

(** All (detection, track) pairs whose IoU qualifies against the
    threshold, each with its IoU: detections by their index, tracks by
    their id. *)
Definition qualifying (thr : Q) (dets : list Box) (trk : list (nat * Box))
  : list (Q * nat * nat) :=
  flat_map (fun id =>
    flat_map (fun kt =>
      if Qle_bool thr (overlap (snd kt) (snd id))
      then [(overlap (snd kt) (snd id), fst id, fst kt)] else []) trk)
    (enumerate dets).

(** Going down a list of pairs, a pair is accepted if neither its
    detection nor its track has been claimed. *)
Fixpoint greedy (claimed_d claimed_t : list nat) (l : list (Q * nat * nat))
  : list (nat * nat) :=
  match l with
  | [] => []
  | p :: l' =>
      let i := snd (fst p) in
      let tid := snd p in
      if existsb (Nat.eqb tid) claimed_t || existsb (Nat.eqb i) claimed_d
      then greedy claimed_d claimed_t l'
      else (i, tid) :: greedy (i :: claimed_d) (tid :: claimed_t) l'
  end.

Definition by_iou_desc (p q : Q * nat * nat) : Prop := (fst (fst q) <= fst (fst p))%Q.

(** [matched] is an outcome of the policy: the qualifying pairs, in an
    order of descending IoU, accepted greedily. *)
Definition canonical_policy (thr : Q) (dets : list Box) (trk : list (nat * Box))
    (matched : list (nat * nat)) : Prop :=
  exists l, Permutation l (qualifying thr dets trk)
            /\ StronglySorted by_iou_desc l
            /\ matched = greedy [] [] l.

(** The pairs (track id, detection box) a list of matches stands for. *)
Definition resolve (dets : list Box) (matched : list (nat * nat)) : list (nat * Box) :=
  flat_map (fun m => match dets !! fst m with
                     | Some d => [(snd m, d)]
                     | None => []
                     end) matched.

End CanonicalDefs.

Section RingPolicyDefs.
Import RingScreen.

(** A pair of the matrix, its column replaced by the track id there. *)
Definition by_id (tids : list nat) (p : Q * nat * nat) : Q * nat * nat :=
  (fst (fst p), snd (fst p), default 0%nat (tids !! snd p)).

(** The boxes of the live tracks, by id. *)
Definition live_boxes (s : IoUTracker) : list (nat * Box) :=
  map (fun e => (fst e, bbox (snd e))) (tracks s).

(** The results of a call that went to tracks live before it. *)
Definition matched_results (s : IoUTracker) (dets : list Box) : list (nat * Box) :=
  List.filter (fun r => Nat.ltb (fst r) (next_id s)) (fst (update dets s)).

End RingPolicyDefs.

(** Two overlapping faces, each with a track. *)
Definition two_faces : RingScreen.IoUTracker :=
  snd (RingScreen.update [mkBox 0 0 10 10; mkBox 6 0 16 10]
         (RingScreen.init (3 # 10) 20)).

(** The next frame: a box near both tracks, then one close to the first. *)
Definition crossing : list Box := [mkBox 2 0 12 10; mkBox 0 0 10 9].

(** The same two tracks and the same frame for the letter tracker. *)
Definition two_letters : SideScreen.tracker.IoUTracker :=
  snd (SideScreen.tracker.update noon [letter 0 0 10 10; letter 6 0 16 10]
         (SideScreen.tracker.init (3 # 10) 30)).

Definition crossing_letters : list SideScreen.tracker.Detection :=
  [letter 2 0 12 10; letter 0 0 10 9].

Definition side_overlap (track_box det_box : Box) : Q :=
  SideScreen.tracker._calculate_iou det_box track_box.

Definition side_live_boxes (s : SideScreen.tracker.IoUTracker) : list (nat * Box) :=
  map (fun e => (fst e, SideScreen.tracker.bbox (snd e))) (SideScreen.tracker.tracks s).

Definition side_matched_results (clock : nat -> Q) (s : SideScreen.tracker.IoUTracker)
    (dets : list SideScreen.tracker.Detection) : list (nat * Box) :=
  map (fun r => (SideScreen.tracker.r_track_id r, SideScreen.tracker.r_bbox r))
    (List.filter (fun r => Nat.ltb (SideScreen.tracker.r_track_id r)
                             (SideScreen.tracker.next_id s))
       (fst (SideScreen.tracker.update clock dets s))).

(** Six annotations made half a second apart, all alive at time 3.5. *)
Definition six_boxes : list SideScreen.worker.Entry :=
  map (fun n => SideScreen.worker.mkEntry (mkBox (10 * n) 0 (10 * n + 5) 5) "note"
                  (Qmake n 2))
    [3; 1; 2; 4; 5; 6].

(** ** Boxes and overlap *)

(** A box whose corners are in order. *)
Definition proper (b : Box) : Prop := bx1 b <= bx2 b /\ by1 b <= by2 b.

(** The area of a box. *)
Definition area (b : Box) : Z := (bx2 b - bx1 b) * (by2 b - by1 b).

(** ** What the letter tracker returns *)
Section SideResultDefs.
Import SideScreen.tracker.

(** The detection a result entry stands for. *)
Definition detection_of (r : Resolved) : Detection :=
  {| d_bbox := r_bbox r; d_class_id := r_class_id r; d_conf := r_conf r |}.

(** The entry of [get_active_tracks] for a result entry. *)
Definition active_of (r : Resolved) : ActiveTrack :=
  {| a_bbox := r_bbox r; a_class_id := r_class_id r; a_conf := r_conf r |}.

(** The entry continues a track that [s] held, whose box overlapped the
    detection by more than the threshold. *)
Definition continues (s : IoUTracker) (r : Resolved) : Prop :=
  exists t, dict_get (r_track_id r) (tracks s) = Some t
            /\ (iou_threshold s < _calculate_iou (r_bbox r) (bbox t))%Q.

(** The history of the entry's track ends with the entry. *)
Definition recorded (clock : nat -> Q) (hist : gmap nat (list HistoryEntry))
    (r : Resolved) : Prop :=
  exists h i, hist !! r_track_id r = Some h
              /\ last h = Some (history_entry (clock i) (detection_of r)).

(** What the matching loop knows of its result: [M] lists the matched
    detections with their indices, in the order of the result. *)
Definition matches (s : IoUTracker) (clock : nat -> Q) (dets : list Detection)
    (M : list (nat * Detection)) (st : Matching) : Prop :=
  map detection_of (result st) = map snd M
  /\ List.NoDup (map fst M)
  /\ (forall e, In e M -> In e (enumerate dets))
  /\ (forall i, i ∈ tracked_dets st <-> In i (map fst M))
  /\ List.NoDup (ids (result st))
  /\ (forall r, In r (result st) ->
      dict_get (r_track_id r) (m_tracks st) = Some (track_of (detection_of r))
      /\ continues s r /\ recorded clock (m_history st) r).

(** What a call of [update] returns, entry by entry. *)
Definition update_detail (clock : nat -> Q) (dets : list Detection) (s : IoUTracker)
    (res : list Resolved) (s' : IoUTracker) : Prop :=
  Permutation (map detection_of res) dets
  /\ List.NoDup (ids res)
  /\ (forall r, In r res ->
      dict_get (r_track_id r) (tracks s') = Some (track_of (detection_of r))
      /\ recorded clock (track_history s') r
      /\ (continues s r \/ (next_id s <= r_track_id r < next_id s')%nat))
  /\ (forall tid, (next_id s <= tid < next_id s')%nat -> In tid (ids res)).

(** Every stored history holds between 1 and 100 entries. *)
Definition history_bounded (hist : gmap nat (list HistoryEntry)) : Prop :=
  forall tid h, hist !! tid = Some h -> (1 <= length h <= 100)%nat.

End SideResultDefs.

(** ** What the face tracker returns *)
Section RingResultDefs.
Import RingScreen.

(** What the acceptance loop knows of its result: [M] lists the accepted
    detections with their indices, in the order of the result. *)
Definition accepted (dets : list Box) (M : list (nat * Box)) (c : Claimed) : Prop :=
  map snd (results c) = map snd M
  /\ List.NoDup (map fst M)
  /\ (forall e, In e M -> In e (enumerate dets))
  /\ (forall i, i ∈ used_d c <-> In i (map fst M))
  /\ List.NoDup (map fst (results c)).

(** The track a result entry is written into. *)
Definition ring_track_of (r : nat * Box) : nat * Track :=
  (fst r, {| bbox := snd r; missed := 0 |}).

(** What a call of [update] returns, entry by entry. *)
Definition ring_update_detail (dets : list Box) (s : IoUTracker)
    (res : list (nat * Box)) (s' : IoUTracker) : Prop :=
  Permutation (map snd res) dets
  /\ List.NoDup (map fst res)
  /\ (forall r, In r res ->
      dict_get (fst r) (tracks s') = Some {| bbox := snd r; missed := 0 |})
  /\ (forall tid, (next_id s <= tid < next_id s')%nat -> In tid (map fst res)).

End RingResultDefs.

(** The ids [first], [first + 1], ... paired with the detections of a
    frame, in the order of the frame. *)
Definition numbered {A : Type} (first : nat) (dets : list A) : list (nat * A) :=
  combine (seq first (length dets)) dets.

(** ** The report gate over a frame *)
Section GateFrameDefs.
Import SideScreen.tracker SideScreen.main.

(** The box lies inside a frame of [w] by [h] pixels. *)
Definition in_frame (w h : Z) (b : Box) : Prop :=
  0 <= bx1 b /\ bx1 b <= bx2 b /\ bx2 b <= w
  /\ 0 <= by1 b /\ by1 b <= by2 b /\ by2 b <= h.

(** A number between 0 and 1. *)
Definition unit_range (q : Q) : Prop := (0 <= q <= 1)%Q.

(** The gate has seen the track before. *)
Definition known (g : Gate) (track_id : nat) : bool :=
  bool_decide (is_Some (first_detection_time g !! track_id)).

(** The tracker and the gate fit together: the tracker is well formed,
    the gate is consistent, and the gate has only seen ids the tracker
    has handed out. *)
Definition letters_ok (st : IoUTracker * Gate) : Prop :=
  wf (fst st) /\ consistent (snd st)
  /\ forall track_id, known (snd st) track_id = true -> (track_id < next_id (fst st))%nat.

End GateFrameDefs.

(** ** Detections as parallel lists *)
Section DetectionDefs.
Import SideScreen.detection.

(** The box, class and confidence [detect_with_model] reads off a
    prediction. *)
Definition reading (p : Prediction) : Box * Z * Q :=
  let '(x1, y1, x2, y2) := p_xyxy p in
  (mkBox (py_int x1) (py_int y1) (py_int x2) (py_int y2), py_int (p_cls p), p_conf p).

(** Three parallel lists as one list of triples, and back. *)
Definition triples (r : list Box * list Z * list Q) : list (Box * Z * Q) :=
  combine (combine (fst (fst r)) (snd (fst r))) (snd r).

Definition untriples (t : list (Box * Z * Q)) : list Box * list Z * list Q :=
  (map (fun e => fst (fst e)) t, map (fun e => snd (fst e)) t, map snd t).

(** The three lists have one length. *)
Definition parallel_lists (r : list Box * list Z * list Q) : Prop :=
  length (fst (fst r)) = length (snd (fst r))
  /\ length (snd (fst r)) = length (snd r).

(** The class of a triple is one of [target]. *)
Definition of_class (target : list Z) (e : Box * Z * Q) : bool :=
  existsb (Z.eqb (snd (fst e))) target.

(** Appending three lists to three lists. *)
Definition append3 (a b : list Box * list Z * list Q) : list Box * list Z * list Q :=
  (fst (fst a) ++ fst (fst b), snd (fst a) ++ snd (fst b), snd a ++ snd b).

End DetectionDefs.

(** ** The vision worker *)
Section WorkerDefs.
Import SideScreen.worker.

(** What [random.randint] guarantees of the values of one attempt on a
    frame of [w] by [h] pixels: the centre is [min_size] away from the
    borders, and the sizes are not negative (their lower bounds
    [int(w * 0.05)] and [int(h * 0.1)] are not). *)
Definition drawn (w h : Z) (d : Draw) : Prop :=
  let min_size := Z.min w h / 10 in
  min_size <= cx d <= w - min_size
  /\ min_size <= cy d <= h - min_size
  /\ 0 <= box_w d /\ 0 <= box_h d.

(** The box overlaps none of the annotations by more than 0.1. *)
Definition clear_of (boxes : list Entry) (b : Box) : Prop :=
  forall e, In e boxes -> (calculate_iou b (e_box e) <= 1 # 10)%Q.

End WorkerDefs.

(** ** Announcing annotations, and the periodic cleanup *)
Section AnnounceDefs.
Import SideScreen.worker SideScreen.osc_utils SideScreen.data_utils.

(** The box tuples of a list of annotations. *)
Definition box_tuples (boxes : list Entry) : list (Z * Z * Z * Z) :=
  map (fun e => box_tuple (e_box e)) boxes.

(** The readings of the clock at which [should_run_cleanup] returned
    [True], for the calls made at the readings [clock], in order. *)
Fixpoint cleanup_times (interval_seconds LAST_DATA_CLEANUP_TIME : Q) (clock : list Q)
  : list Q :=
  match clock with
  | [] => []
  | current_time :: clock' =>
      let r := should_run_cleanup interval_seconds current_time LAST_DATA_CLEANUP_TIME in
      if fst r then current_time :: cleanup_times interval_seconds (snd r) clock'
      else cleanup_times interval_seconds (snd r) clock'
  end.

End AnnounceDefs.

(** ** The face reports of a frame (RingScreen) *)
Section FaceReportDefs.
Import RingScreen.

(** The [/face] message of a track: none when the analysis of its crop
    raises. *)
Definition face_report (w : World) (t : nat * Box) : list osc_message :=
  match analyze w (snd t) with
  | Some emo => [face_message (fst t) (snd t) (emotion_to_index emo)]
  | None => []
  end.

Definition face_reports (w : World) (trks : list (nat * Box)) : list osc_message :=
  flat_map (face_report w) trks.

(** A detection the main loop keeps: a corner at or after the origin and
    positive width and height. *)
Definition kept_face (b : Box) : Prop :=
  0 <= bx1 b /\ bx1 b < bx2 b /\ 0 <= by1 b /\ by1 b < by2 b.

End FaceReportDefs.

(** * Properties *)

(** ** Floats *)
Section Floats.

Lemma round_half_even_nonneg (n d : Z) :
  0 <= n -> 0 < d -> 0 <= round_half_even n d.
Proof.
  intros Hn Hd. unfold round_half_even.
  pose proof (Z.div_pos n d Hn Hd) as Hq.
  destruct (2 * (n mod d) ?= d); [destruct (Z.even (n / d))| |]; lia.
Qed.

(** Rounding does not step over an integer. *)
Lemma round_half_even_le (n d k : Z) :
  0 < d -> n <= k * d -> round_half_even n d <= k.
Proof.
  intros Hd Hn. unfold round_half_even.
  pose proof (Z.div_mod n d ltac:(lia)) as Hdm.
  pose proof (Z.mod_pos_bound n d Hd) as Hr.
  assert (n / d < k \/ (n / d = k /\ n mod d = 0)) as [Hlt|[Heq H0]] by nia.
  - destruct (2 * (n mod d) ?= d); [destruct (Z.even (n / d))| |]; lia.
  - rewrite H0. change (2 * 0) with 0.
    destruct (Z.compare_spec 0 d); lia.
Qed.

(** The rounded quotient is within one half of the quotient. *)
Lemma round_half_even_nearest (n d : Z) :
  0 < d -> 2 * Z.abs (round_half_even n d * d - n) <= d.
Proof.
  intros Hd. unfold round_half_even.
  pose proof (Z.div_mod n d ltac:(lia)) as Hdm.
  pose proof (Z.mod_pos_bound n d Hd) as Hr.
  destruct (Z.compare_spec (2 * (n mod d)) d) as [H|H|H];
    [destruct (Z.even (n / d))| |]; nia.
Qed.

(** [2 ^ ilog2 n d <= n / d < 2 ^ (ilog2 n d + 1)], written without
    negative powers. *)
Lemma ilog2_spec (n d : positive) :
  Zpos d * 2 ^ Z.max 0 (ilog2 n d) <= Zpos n * 2 ^ Z.max 0 (- ilog2 n d)
  /\ Zpos n * 2 ^ Z.max 0 (- (ilog2 n d + 1)) < Zpos d * 2 ^ Z.max 0 (ilog2 n d + 1).
Proof.
  unfold ilog2.
  pose proof (Z.log2_spec (Zpos n) ltac:(lia)) as [Hn1 Hn2].
  pose proof (Z.log2_spec (Zpos d) ltac:(lia)) as [Hd1 Hd2].
  pose proof (Z.log2_nonneg (Zpos n)) as Ln. pose proof (Z.log2_nonneg (Zpos d)) as Ld.
  set (a := Z.log2 (Zpos n)) in *. set (b := Z.log2 (Zpos d)) in *.
  rewrite Z.pow_succ_r in Hn2, Hd2 by lia.
  assert (0 < 2 ^ a) as Pa by (apply Z.pow_pos_nonneg; lia).
  assert (0 < 2 ^ b) as Pb by (apply Z.pow_pos_nonneg; lia).
  destruct (Z.leb_spec (Zpos d * 2 ^ Z.max 0 (a - b)) (Zpos n * 2 ^ Z.max 0 (- (a - b)))) as [H|H].
  - split; [exact H|].
    destruct (Z.le_gt_cases 0 (a - b + 1)) as [Hk|Hk].
    + rewrite (Z.max_l 0 (- (a - b + 1))), (Z.max_r 0 (a - b + 1)) by lia.
      change (2 ^ 0) with 1. rewrite Z.mul_1_r.
      assert (2 ^ (a + 1) = 2 ^ b * 2 ^ (a - b + 1)) as E
        by (rewrite <- Z.pow_add_r by lia; f_equal; lia).
      rewrite Z.pow_add_r in E by lia. change (2 ^ 1) with 2 in E.
      assert (0 < 2 ^ (a - b + 1)) by (apply Z.pow_pos_nonneg; lia). nia.
    + rewrite (Z.max_r 0 (- (a - b + 1))), (Z.max_l 0 (a - b + 1)) by lia.
      change (2 ^ 0) with 1. rewrite Z.mul_1_r.
      assert (2 ^ b = 2 ^ (a + 1) * 2 ^ (- (a - b + 1))) as E
        by (rewrite <- Z.pow_add_r by lia; f_equal; lia).
      rewrite Z.pow_add_r in E by lia. change (2 ^ 1) with 2 in E.
      assert (0 < 2 ^ (- (a - b + 1))) by (apply Z.pow_pos_nonneg; lia). nia.
  - replace (a - b - 1 + 1) with (a - b) by lia. split; [|exact H].
    destruct (Z.le_gt_cases 0 (a - b - 1)) as [Hk|Hk].
    + rewrite (Z.max_r 0 (a - b - 1)), (Z.max_l 0 (- (a - b - 1))) by lia.
      change (2 ^ 0) with 1. rewrite Z.mul_1_r.
      assert (2 ^ a = 2 ^ b * 2 ^ (a - b - 1) * 2) as E.
      { replace a with (b + (a - b - 1) + 1) at 1 by lia.
        rewrite !Z.pow_add_r by lia. reflexivity. }
      assert (0 < 2 ^ (a - b - 1)) by (apply Z.pow_pos_nonneg; lia). nia.
    + rewrite (Z.max_l 0 (a - b - 1)), (Z.max_r 0 (- (a - b - 1))) by lia.
      change (2 ^ 0) with 1. rewrite Z.mul_1_r.
      assert (2 ^ b * 2 = 2 ^ a * 2 ^ (- (a - b - 1))) as E.
      { replace (2 ^ b * 2) with (2 ^ (b + 1)) by (rewrite Z.pow_add_r by lia; reflexivity).
        rewrite <- Z.pow_add_r by lia. f_equal. lia. }
      assert (0 < 2 ^ (- (a - b - 1))) by (apply Z.pow_pos_nonneg; lia). nia.
Qed.

Lemma ilog2_le_0 (n d : positive) : (n <= d)%positive -> ilog2 n d <= 0.
Proof.
  intros Hle. unfold ilog2.
  assert (Z.log2 (Zpos n) <= Z.log2 (Zpos d)) by (apply Z.log2_le_mono; lia).
  destruct (_ <=? _); lia.
Qed.

Lemma fl_pos_nonneg (n d : positive) : (0 <= fl_pos n d)%Q.
Proof.
  unfold fl_pos. rewrite Qred_correct. unfold Qle. cbn [Qnum Qden].
  rewrite Z.mul_0_l, Z.mul_1_r.
  apply Z.mul_nonneg_nonneg; [|apply Z.pow_nonneg; lia].
  apply round_half_even_nonneg.
  - apply Z.mul_nonneg_nonneg; [lia|apply Z.pow_nonneg; lia].
  - apply Z.mul_pos_pos; [lia|apply Z.pow_pos_nonneg; lia].
Qed.

Lemma fl_pos_le_1 (n d : positive) : (n <= d)%positive -> (fl_pos n d <= 1)%Q.
Proof.
  intros Hle. unfold fl_pos. rewrite Qred_correct.
  pose proof (ilog2_le_0 n d Hle) as Hl.
  set (e := Z.max (ilog2 n d - 52) (-1074)).
  assert (e <= 0) as He by (subst e; lia).
  rewrite (Z.max_l 0 e) by lia. rewrite (Z.max_r 0 (- e)) by lia.
  change (2 ^ 0) with 1. rewrite !Z.mul_1_r.
  assert (0 < 2 ^ (- e)) as Hp by (apply Z.pow_pos_nonneg; lia).
  unfold Qle. cbn [Qnum Qden]. rewrite Z.mul_1_r, Z.mul_1_l, Z2Pos.id by exact Hp.
  apply round_half_even_le; [lia|]. nia.
Qed.

(** A float minus itself is 0. *)
Lemma fl_minus_self (q : Q) : fl (q - q) = 0%Q.
Proof.
  assert (Qnum (q - q) = 0) as H by (destruct q; cbn; lia).
  unfold fl. rewrite H. reflexivity.
Qed.

Lemma fl_nonneg (q : Q) : (0 <= q)%Q -> (0 <= fl q)%Q.
Proof.
  destruct q as [[|n|n] d]; unfold fl; cbn [Qnum Qden]; intros H.
  - apply Qle_refl.
  - apply fl_pos_nonneg.
  - exfalso. unfold Qle in H. cbn in H. lia.
Qed.

Lemma fl_le_1 (q : Q) : (q <= 1)%Q -> (fl q <= 1)%Q.
Proof.
  destruct q as [[|n|n] d]; unfold fl; cbn [Qnum Qden]; intros H.
  - unfold Qle. cbn. lia.
  - apply fl_pos_le_1. unfold Qle in H. cbn in H. lia.
  - apply Qle_trans with 0%Q; [|unfold Qle; cbn; lia].
    apply (Qopp_le_compat 0). apply fl_pos_nonneg.
Qed.

(** The float literals of the gate, and the case of a box that moves by
    8 of 800 pixels: the quotients 100/800 and 108/800 differ by 0.01,
    their floats by more than the float 0.01. *)
Lemma fl_literals :
  fl (1 # 100) = 5764607523034235 # 576460752303423488
  /\ fl (35 # 100) = 3152519739159347 # 9007199254740992
  /\ fl (100 # 800) = 1 # 8
  /\ fl (108 # 800) = 607985949695017 # 4503599627370496
  /\ fl (fl (100 # 800) - fl (108 # 800)) = -45035996273705 # 4503599627370496
  /\ Qlt_bool (fl (1 # 100)) (Qabs (fl (fl (100 # 800) - fl (108 # 800)))) = true
  /\ Qlt_bool (1 # 100) (Qabs ((100 # 800) - (108 # 800))) = false.
Proof. vm_compute. repeat split; reflexivity. Qed.

(** Ties go to the even mantissa, and small numbers to the subnormal
    grid of step 2^-1074. *)
Lemma fl_ties :
  fl (inject_Z (2 ^ 53 + 1)) = inject_Z (2 ^ 53)
  /\ fl (inject_Z (2 ^ 53 + 3)) = inject_Z (2 ^ 53 + 4)
  /\ fl (1 # 3) = 6004799503160661 # 18014398509481984
  /\ fl (- (1 # 10)) = -3602879701896397 # 36028797018963968
  /\ fl (1 # Z.to_pos (2 ^ 1075)) = 0%Q
  /\ (fl (3 # Z.to_pos (2 ^ 1075)) == 1 # Z.to_pos (2 ^ 1073))%Q.
Proof. vm_compute. repeat split; reflexivity. Qed.

End Floats.

(** ** The summary of a window (RingScreen) *)
Section Summary.
Import RingScreen.

Lemma max_value_ge (v : list (category * nat)) (e : category * nat) :
  In e v -> (snd e <= max_value v)%nat.
Proof.
  unfold max_value. induction v as [|x v IH]; [simpl; tauto|].
  cbn [map fold_right In].
  intros [->|Hin]; [apply Nat.le_max_l|].
  specialize (IH Hin). etransitivity; [exact IH|apply Nat.le_max_r].
Qed.

Lemma max_value_attained (v : list (category * nat)) :
  v <> [] -> exists e, In e v /\ snd e = max_value v.
Proof.
  unfold max_value. induction v as [|x v IH]; [congruence|]. intros _.
  destruct v as [|y v].
  - exists x. split; [left; reflexivity|].
    cbn [map fold_right]. symmetry. apply Nat.max_l. lia.
  - destruct IH as [e [Hin He]]; [congruence|].
    destruct (Nat.le_ge_cases (snd x) (fold_right Nat.max 0%nat (map snd (y :: v)))) as [Hle|Hge].
    + exists e. split; [right; exact Hin|].
      change (map snd (x :: y :: v)) with (snd x :: map snd (y :: v)).
      cbn [fold_right]. rewrite He. symmetry. apply Nat.max_r. exact Hle.
    + exists x. split; [left; reflexivity|].
      change (map snd (x :: y :: v)) with (snd x :: map snd (y :: v)).
      cbn [fold_right]. symmetry. apply Nat.max_l. exact Hge.
Qed.

Lemma in_max_categories (v : list (category * nat)) (c : category) :
  In c (max_categories v) <-> exists n, In (c, n) v /\ n = max_value v.
Proof.
  unfold max_categories. rewrite in_map_iff. split.
  - intros [[c' n] [Hc Hin]]. simpl in Hc. subst c'.
    apply filter_In in Hin as [Hin Heq]. simpl in Heq.
    apply Nat.eqb_eq in Heq. eauto.
  - intros [n [Hin Hn]]. exists (c, n). split; [reflexivity|].
    apply filter_In. split; [exact Hin|]. simpl. apply Nat.eqb_eq. exact Hn.
Qed.

Lemma max_categories_nonempty (v : list (category * nat)) :
  v <> [] -> max_categories v <> [].
Proof.
  intros Hv. destruct (max_value_attained v Hv) as [[c n] [Hin Hn]].
  assert (In c (max_categories v)) as Hc
    by (apply in_max_categories; exists n; auto).
  intros Heq. rewrite Heq in Hc. exact Hc.
Qed.

Lemma vals_count (cs : Counts) (c : category) (n : nat) :
  In (c, n) (vals cs) <-> n = count_of c cs.
Proof.
  unfold vals. simpl. split.
  - intros [H|[H|[H|[H|[]]]]]; inversion H; reflexivity.
  - intros ->. destruct c; simpl; tauto.
Qed.

Lemma random_choice_in {A : Type} (r : nat) (l : list A) :
  l <> [] -> exists x, random_choice r l = Some x /\ In x l.
Proof.
  intros Hl. unfold random_choice.
  assert (r mod length l < length l)%nat as Hlt.
  { apply Nat.mod_upper_bound. destruct l; simpl; [congruence|lia]. }
  destruct (lookup_lt_is_Some_2 l _ Hlt) as [x Hx].
  exists x. split; [exact Hx|].
  apply list_elem_of_In. eapply list_elem_of_lookup_2. exact Hx.
Qed.

Lemma total_cat_in (r : nat) (cs : Counts) :
  exists c, total_cat r cs = Some c /\ In c (max_categories (vals cs)).
Proof.
  unfold total_cat.
  assert (max_categories (vals cs) <> []) as Hne
    by (apply max_categories_nonempty; discriminate).
  destruct (Nat.ltb 1 (length (max_categories (vals cs)))).
  - apply random_choice_in. exact Hne.
  - destruct (max_categories (vals cs)) as [|c l]; [congruence|].
    exists c. split; [reflexivity|left; reflexivity].
Qed.

(** C7. Whenever a window is summarised, the category chosen by
    [total_cat] is one of the categories whose count is the maximum of
    the four counts, whatever [random.choice] draws; for the counters
    active 5, calm 5, hesitant 1, anxious 1 it is [active] or [calm]. *)
Theorem C7_majority_tie_membership :
  (forall (r : nat) (cs : Counts),
      exists c, total_cat r cs = Some c
                /\ In c (max_categories (vals cs))
                /\ count_of c cs = max_value (vals cs)
                /\ forall c', (count_of c' cs <= count_of c cs)%nat)
  /\ (forall r : nat,
        total_cat r (mkCounts 5 5 1 1) = Some active
        \/ total_cat r (mkCounts 5 5 1 1) = Some calm).
Proof.
  split.
  - intros r cs. destruct (total_cat_in r cs) as [c [Hc Hin]].
    exists c. split; [exact Hc|]. split; [exact Hin|].
    apply in_max_categories in Hin as [n [Hin Hn]].
    apply vals_count in Hin. subst n. split; [exact Hn|].
    intros c'. rewrite Hn.
    apply (max_value_ge (vals cs) (c', count_of c' cs)).
    apply vals_count. reflexivity.
  - intros r. destruct (total_cat_in r (mkCounts 5 5 1 1)) as [c [Hc Hin]].
    rewrite Hc. simpl in Hin. destruct Hin as [<-|[<-|[]]]; auto.
Qed.

End Summary.

(** ** The main loop of RingScreen: face reports, sampling, reset *)
Section MainLoop.
Import RingScreen.

Lemma same_window_refl (v : Vars) : same_window v v.
Proof. unfold same_window. tauto. Qed.

Lemma same_window_trans (a b c : Vars) :
  same_window a b -> same_window b c -> same_window a c.
Proof. unfold same_window. intros (?&?&?&?) (?&?&?&?). repeat split; congruence. Qed.

Lemma count_addr_app (a : string) (l1 l2 : list osc_message) :
  count_addr a (l1 ++ l2) = (count_addr a l1 + count_addr a l2)%nat.
Proof. unfold count_addr. rewrite List.filter_app, length_app. reflexivity. Qed.

Lemma count_addr_other (a : string) (l : list osc_message) :
  Forall (fun m => is_addr a m = false) l -> count_addr a l = 0%nat.
Proof.
  unfold count_addr. induction 1 as [|m l Hm _ IH]; [reflexivity|].
  simpl. rewrite Hm. exact IH.
Qed.

Lemma face_delivered_none (w : World) (l : list osc_message) :
  Forall (fun m => is_addr "/face" m = false) l ->
  existsb (face_delivered w) l = false.
Proof.
  induction 1 as [|m l Hm _ IH]; [reflexivity|].
  simpl. unfold face_delivered at 1. rewrite Hm. exact IH.
Qed.

(** One face: the report never raises, sends at most one [/face]
    message, and sets [has_face] exactly when that call returned. *)
Lemma report_face_spec (w : World) (t : nat * Box) (v : Vars) :
  exists new v',
    report_face w t v = (Ret tt, v')
    /\ sent v' = sent v ++ new
    /\ Forall (fun m => is_addr "/face" m = true) new
    /\ has_face v' = has_face v || existsb (face_delivered w) new
    /\ same_window v v'.
Proof.
  unfold report_face, try_except.
  destruct (analyze w (snd t)) as [emo|].
  - set (m := face_message (fst t) (snd t) (emotion_to_index emo)).
    assert (is_addr "/face" m = true) as Hm by reflexivity.
    destruct (emotion_to_category emo) as [cat|];
      unfold send_message, bind, modify, raise, ret; simpl;
      destruct (send_raises w m) eqn:Hr; simpl;
      (exists [m]; eexists; split; [reflexivity|]; simpl;
       split; [reflexivity|]; split; [repeat constructor; exact Hm|];
       split; [unfold face_delivered; rewrite Hm, Hr; simpl;
               rewrite ?orb_true_r, ?orb_false_r; reflexivity
              |unfold same_window; simpl; tauto]).
  - exists [], v. unfold raise, ret. simpl.
    rewrite app_nil_r, orb_false_r.
    repeat split; auto.
Qed.

Lemma report_loop_spec (w : World) (trks : list (nat * Box)) (v : Vars) :
  exists new v',
    for_each trks (report_face w) v = (Ret tt, v')
    /\ sent v' = sent v ++ new
    /\ Forall (fun m => is_addr "/face" m = true) new
    /\ has_face v' = has_face v || existsb (face_delivered w) new
    /\ same_window v v'.
Proof.
  revert v. induction trks as [|t trks IH]; intros v.
  - exists [], v. simpl. unfold ret. rewrite app_nil_r, orb_false_r.
    repeat split; auto.
  - destruct (report_face_spec w t v) as (n1 & v1 & E1 & S1 & F1 & H1 & W1).
    destruct (IH v1) as (n2 & v2 & E2 & S2 & F2 & H2 & W2).
    exists (n1 ++ n2), v2. simpl. unfold bind. rewrite E1, E2.
    split; [reflexivity|]. split; [rewrite S2, S1, app_assoc; reflexivity|].
    split; [apply Forall_app; auto|].
    split; [rewrite H2, H1, existsb_app, orb_assoc; reflexivity|].
    eapply same_window_trans; eauto.
Qed.

(** The face reports of a frame, up to the [/no_face] line. *)
Lemma report_faces_spec (w : World) (trks : list (nat * Box)) (v : Vars) :
  exists new o v',
    report_faces w trks v = (o, v')
    /\ sent v' = sent v ++ new
    /\ count_addr "/no_face" new
       = (if existsb (face_delivered w) new then 0 else 1)%nat
    /\ (trks = [] -> new = [no_face_message])
    /\ same_window v v'
    /\ (o = Raise -> send_raises w no_face_message = true).
Proof.
  unfold report_faces.
  set (v0 := set_has_face false (set_cats [] v)).
  destruct (report_loop_spec w trks v0) as (n & v1 & E & S & F & H & W).
  assert (same_window v v0) as W0 by (unfold same_window; simpl; tauto).
  assert (count_addr "/no_face" n = 0%nat) as Hn.
  { apply count_addr_other. eapply List.Forall_impl; [|exact F].
    intros m Hm. unfold is_addr in *. apply String.eqb_eq in Hm.
    rewrite Hm. reflexivity. }
  assert (trks = [] -> n = []) as Hnil.
  { intros ->. simpl in E. unfold ret in E. inversion E; subst v1.
    rewrite <- (app_nil_r (sent v0)) in S at 1.
    apply app_inv_head in S. symmetry. exact S. }
  unfold bind at 1. unfold modify at 1. fold v0.
  unfold bind at 1. rewrite E. unfold bind at 1. unfold get at 1.
  simpl in H. rewrite H.
  destruct (existsb (face_delivered w) n) eqn:Hd; simpl.
  - exists n, (Ret tt), v1. unfold ret. split; [reflexivity|].
    split; [exact S|]. rewrite Hd. split; [exact Hn|].
    split; [intros Ht; rewrite (Hnil Ht) in Hd; discriminate|].
    split; [eapply same_window_trans; eauto|discriminate].
  - exists (n ++ [no_face_message]).
    unfold send_message, bind, modify, raise, ret. simpl.
    destruct (send_raises w no_face_message) eqn:Hr;
      eexists; eexists; (split; [reflexivity|]); simpl;
      (split; [rewrite S, app_assoc; reflexivity|]);
      (split; [rewrite count_addr_app, Hn, existsb_app, Hd; reflexivity|]);
      (split; [intros Ht; rewrite (Hnil Ht); reflexivity|]);
      (split; [eapply same_window_trans; [exact W0|];
               eapply same_window_trans; [exact W|];
               unfold same_window; simpl; tauto|]);
      congruence.
Qed.
Local Arguments Nat.leb : simpl never.
Local Arguments Qle_bool : simpl never.
Local Arguments total_cat : simpl never.
Local Arguments send_ai_query : simpl never.

(** Sampling sends neither [/face] nor [/no_face] and keeps the tracker. *)
Lemma sample_trace (w : World) (v : Vars) :
  exists new o v',
    sample w v = (o, v')
    /\ sent v' = sent v ++ new
    /\ Forall (fun m => is_addr "/face" m = false) new
    /\ Forall (fun m => is_addr "/no_face" m = false) new
    /\ tracker v' = tracker v.
Proof.
  unfold sample, bind, get, modify, ret. simpl.
  destruct (Qle_bool SAMPLE_INTERVAL (now w - last_sample v)).
  2:{ exists [], (Ret tt), v. rewrite app_nil_r. repeat split; auto. }
  simpl. destruct (Nat.leb SAMPLES_PER_SUMMARY (S (sample_count v))).
  2:{ exists []. eexists. eexists. split; [reflexivity|]. simpl.
      rewrite app_nil_r. repeat split; auto. }
  unfold summary, bind, get. simpl.
  destruct (total_cat (rand w) (fold_left incr (cats v) (counts v))) as [c|].
  2:{ exists []. eexists. eexists. unfold raise. split; [reflexivity|]. simpl.
      rewrite app_nil_r. repeat split; auto. }
  unfold send_message, bind, modify, raise, ret. simpl.
  destruct (send_raises w (agent_emotion_message c _)).
  { eexists [_]. eexists. eexists. split; [reflexivity|]. simpl.
    repeat split; auto. }
  simpl. destruct (send_raises w _).
  { eexists [_; _]. eexists. eexists. split; [reflexivity|]. simpl.
    rewrite <- app_assoc. repeat split; auto. }
  eexists [_; _]. eexists. eexists. split; [reflexivity|]. simpl.
  rewrite <- app_assoc. repeat split; auto.
Qed.

(** When the window completes and the sink accepts the two summary
    messages, the summary goes out once and the window is reset. *)
Lemma sample_resets (w : World) (v : Vars) :
  Qle_bool SAMPLE_INTERVAL (now w - last_sample v) = true ->
  (SAMPLES_PER_SUMMARY <= S (sample_count v))%nat ->
  (forall m, unguarded m -> send_raises w m = false) ->
  exists c v',
    total_cat (rand w) (window_counts v) = Some c
    /\ sample w v = (Ret tt, v')
    /\ counts v' = zero_counts /\ sample_count v' = 0%nat
    /\ last_sample v' = now w
    /\ tracker v' = tracker v
    /\ sent v' = sent v ++ [agent_emotion_message c (window_counts v);
                            agent_word_message
                              (send_ai_query w (c, window_counts v))].
Proof.
  intros Hint Hfull Hsend.
  destruct (total_cat_in (rand w) (window_counts v)) as [c [Hc _]].
  exists c. unfold sample, bind, get, modify, ret. simpl. rewrite Hint. simpl.
  apply Nat.leb_le in Hfull. rewrite Hfull.
  unfold summary, bind, get. simpl. fold (window_counts v). rewrite Hc.
  unfold send_message, bind, modify, raise, ret. simpl.
  rewrite !Hsend by (unfold unguarded; simpl; auto).
  simpl. eexists. split; [reflexivity|].
  split; [reflexivity|]. simpl. rewrite <- app_assoc.
  repeat split; reflexivity.
Qed.

(** C8 (as amended). When a window completes (the sampling interval has
    elapsed and the tick counter reaches [SAMPLES_PER_SUMMARY]) and the
    sends made outside the [try] block ([/no_face], [/agent_emotion] and
    [/agent_word]) return, the round ends normally with the four
    counters and the tick counter at zero, and one [/agent_emotion] and
    one [/agent_word] message were sent: whatever [requests.post] does,
    failure included, since [send_ai_query] then answers the empty
    string, and whether or not the [/face] sends of the round raise,
    since they are inside the [try] block. *)
Theorem C8_window_reset (w : World) (v : Vars) :
  Qle_bool SAMPLE_INTERVAL (now w - last_sample v) = true ->
  (SAMPLES_PER_SUMMARY <= S (sample_count v))%nat ->
  (forall m, unguarded m -> send_raises w m = false) ->
  exists new v',
    frame_step w v = (Ret tt, v')
    /\ counts v' = zero_counts /\ sample_count v' = 0%nat
    /\ last_sample v' = now w
    /\ sent v' = sent v ++ new
    /\ count_addr "/agent_emotion" new = 1%nat
    /\ count_addr "/agent_word" new = 1%nat.
Proof.
  intros Hint Hfull Hsend.
  unfold frame_step. unfold bind at 1. unfold get at 1.
  destruct (update (detect w) (tracker v)) as [trks t'].
  unfold bind at 1. unfold modify at 1.
  set (v0 := set_tracker t' v).
  destruct (report_faces_spec w trks v0)
    as (n1 & o & v1 & E1 & S1 & _ & _ & (_ & W1 & W2 & W3) & Ho).
  assert (o = Ret tt) as ->.
  { destruct o as [[]|]; [reflexivity|].
    specialize (Ho eq_refl). rewrite Hsend in Ho by (left; reflexivity).
    discriminate. }
  unfold bind at 1. rewrite E1.
  destruct (sample_resets w v1) as (c & v2 & _ & E2 & C2 & N2 & L2 & _ & S2).
  { rewrite W1. exact Hint. }
  { rewrite W2. exact Hfull. }
  { exact Hsend. }
  rewrite E2. eexists. exists v2. split; [reflexivity|].
  split; [exact C2|]. split; [exact N2|]. split; [exact L2|].
  split; [rewrite S2, S1; simpl; rewrite <- app_assoc; reflexivity|].
  assert (Forall (fun m => is_addr "/face" m = true \/ is_addr "/no_face" m = true) n1)
    as Hn1.
  { clear - E1 S1. unfold report_faces in E1.
    destruct (report_loop_spec w trks (set_has_face false (set_cats [] v0)))
      as (n & v3 & E & S & F & _ & _).
    unfold bind at 1 in E1. unfold modify at 1 in E1.
    unfold bind at 1 in E1. rewrite E in E1. unfold bind, get in E1.
    assert (Forall (fun m => is_addr "/face" m = true \/ is_addr "/no_face" m = true) n)
      as Hn by (eapply List.Forall_impl; [|exact F]; intros; auto).
    destruct (negb (has_face v3)).
    - unfold send_message, bind, modify, raise, ret in E1. simpl in E1.
      destruct (send_raises w no_face_message); inversion E1; subst v1;
        simpl in S1; rewrite S, <- app_assoc in S1; simpl in S1;
        apply app_inv_head in S1; subst n1; apply Forall_app; split; auto.
    - unfold ret in E1. inversion E1; subst v1.
      rewrite S in S1. simpl in S1. apply app_inv_head in S1. subst n1. exact Hn. }
  rewrite !count_addr_app.
  rewrite !(count_addr_other _ n1).
  - split; reflexivity.
  - eapply List.Forall_impl; [|exact Hn1]. intros m [Hm|Hm];
      unfold is_addr in *; apply String.eqb_eq in Hm; rewrite Hm; reflexivity.
  - eapply List.Forall_impl; [|exact Hn1]. intros m [Hm|Hm];
      unfold is_addr in *; apply String.eqb_eq in Hm; rewrite Hm; reflexivity.
Qed.

(** C9 (as amended). In every round, [/no_face] is sent exactly once if
    no [/face] message of the round was delivered (the call returned),
    and not at all otherwise; a frame without resolved tracks always
    gets its one [/no_face]. *)
Theorem C9_no_face_rule :
  forall (w : World) (v : Vars),
  exists new,
    sent (snd (frame_step w v)) = sent v ++ new
    /\ count_addr "/no_face" new
       = (if existsb (face_delivered w) new then 0 else 1)%nat
    /\ (fst (update (detect w) (tracker v)) = [] ->
        count_addr "/no_face" new = 1%nat).
Proof.
  intros w v. unfold frame_step. unfold bind at 1. unfold get at 1.
  destruct (update (detect w) (tracker v)) as [trks t'].
  unfold bind at 1. unfold modify at 1.
  set (v0 := set_tracker t' v).
  destruct (report_faces_spec w trks v0)
    as (n1 & o & v1 & E1 & S1 & C1 & T1 & _ & _).
  unfold bind at 1. rewrite E1.
  destruct o as [[]|].
  - destruct (sample_trace w v1) as (n2 & o2 & v2 & E2 & S2 & F2 & N2 & _).
    rewrite E2. exists (n1 ++ n2). simpl.
    split; [rewrite S2, S1; simpl; rewrite app_assoc; reflexivity|].
    rewrite count_addr_app, existsb_app.
    rewrite (count_addr_other _ n2 N2), (face_delivered_none w n2 F2).
    rewrite Nat.add_0_r, orb_false_r. split; [exact C1|].
    intros ->. rewrite (T1 eq_refl). reflexivity.
  - exists n1. simpl. split; [rewrite S1; reflexivity|].
    split; [exact C1|]. intros ->. rewrite (T1 eq_refl). reflexivity.
Qed.

End MainLoop.

Lemma C8_window_reset_witness :
  exists new v',
    RingScreen.frame_step face_deaf_world last_tick = (RingScreen.Ret tt, v')
    /\ RingScreen.counts v' = RingScreen.zero_counts
    /\ RingScreen.sample_count v' = 0%nat
    /\ RingScreen.last_sample v' = RingScreen.now face_deaf_world
    /\ RingScreen.sent v' = RingScreen.sent last_tick ++ new
    /\ count_addr "/agent_emotion" new = 1%nat
    /\ count_addr "/agent_word" new = 1%nat.
Proof.
  apply (C8_window_reset face_deaf_world last_tick).
  - reflexivity.
  - vm_compute. lia.
  - intros m [H|[H|H]]; simpl; unfold is_addr; rewrite H; reflexivity.
Defined.

(** C8 fails as stated: the window completes, the sink raises on the
    summary message, and the round ends in that exception with the
    counters and the tick counter not reset. *)
Lemma C8_counterexample :
  Qle_bool RingScreen.SAMPLE_INTERVAL
    (RingScreen.now broken_sink_world - RingScreen.last_sample last_tick) = true
  /\ (RingScreen.SAMPLES_PER_SUMMARY <= S (RingScreen.sample_count last_tick))%nat
  /\ fst (RingScreen.frame_step broken_sink_world last_tick) = RingScreen.Raise
  /\ RingScreen.counts (snd (RingScreen.frame_step broken_sink_world last_tick))
     = RingScreen.mkCounts 5 2 0 1
  /\ RingScreen.sample_count (snd (RingScreen.frame_step broken_sink_world last_tick))
     = 12%nat.
Proof.
  split; [reflexivity|]. split; [vm_compute; lia|].
  split; [reflexivity|]. split; reflexivity.
Qed.

(** Each of the three sends outside the [try] block ends the round when
    it raises, before the window is reset. *)
Lemma unguarded_sends_end_the_round :
  Forall (fun w =>
            fst (RingScreen.frame_step w last_tick) = RingScreen.Raise
            /\ RingScreen.sample_count (snd (RingScreen.frame_step w last_tick))
               <> 0%nat)
    [deaf_world "/no_face" None; deaf_world "/agent_emotion" (Some "happy"%string);
     deaf_world "/agent_word" (Some "happy"%string)].
Proof. repeat constructor; vm_compute; discriminate. Qed.

(** C9 fails as stated: the frame has a resolved track, its emotion
    analysis raises, and [/no_face] is sent all the same. *)
Lemma C9_counterexample :
  fst (RingScreen.update (RingScreen.detect quiet_world)
         (RingScreen.tracker last_tick))
  = [(1%nat, mkBox 0 0 10 10)]
  /\ count_addr "/no_face"
       (RingScreen.sent (snd (RingScreen.frame_step quiet_world last_tick))) = 1%nat.
Proof. vm_compute. split; reflexivity. Qed.

(** ** The report gate of SideScreen *)
Section GateRule.
Import SideScreen.tracker SideScreen.main.

Lemma Qlt_bool_iff (x y : Q) : Qlt_bool x y = true <-> (x < y)%Q.
Proof.
  unfold Qlt_bool. rewrite negb_true_iff. split.
  - intros H. apply Qnot_le_lt. intros Hle.
    apply Qle_bool_iff in Hle. congruence.
  - intros H. destruct (Qle_bool y x) eqn:E; [|reflexivity].
    apply Qle_bool_iff in E. exfalso. exact (Qlt_not_le _ _ H E).
Qed.

Lemma stable_filter_iff (cfg : Config) (current_time : Q) (g : Gate) (obj : Resolved) :
  let fdt := match first_detection_time g !! r_track_id obj with
             | Some _ => first_detection_time g
             | None => <[r_track_id obj := current_time]> (first_detection_time g)
             end in
  SEND_ONLY_STABLE cfg
  && negb (stable cfg current_time (default current_time (fdt !! r_track_id obj))
             (r_conf obj)) = false
  <-> passes_stability cfg current_time g obj.
Proof.
  intros fdt. unfold passes_stability, first_seen, stable.
  assert (default current_time (fdt !! r_track_id obj)
          = default current_time (first_detection_time g !! r_track_id obj)) as ->.
  { subst fdt. destruct (first_detection_time g !! r_track_id obj) eqn:E.
    - rewrite E. reflexivity.
    - rewrite lookup_insert_eq. reflexivity. }
  rewrite andb_false_iff, negb_false_iff, andb_true_iff, !Qle_bool_iff.
  tauto.
Qed.



(** The gate keeps its dicts consistent. *)
Lemma gate_object_consistent (cfg : Config) (current_time : Q) (g : Gate)
    (obj : Resolved) :
  consistent g -> consistent (gate_object cfg current_time g obj).
Proof.
  intros Hcons. unfold gate_object.
  repeat match goal with |- context [if ?b then _ else _] => destruct b end;
    try exact Hcons.
  all: intros tid; simpl; destruct (decide (tid = r_track_id obj)) as [->|Hne];
    [rewrite !lookup_insert_eq; eauto
    |rewrite !lookup_insert_ne by congruence; apply Hcons].
Qed.

Lemma gate_init_consistent : consistent gate_init.
Proof.
  intros track_id [t Ht]. unfold gate_init in Ht. simpl in Ht.
  rewrite lookup_empty in Ht. discriminate.
Qed.

(** A whole call of [send_letter_detection_results] keeps them consistent,
    so every gate state reached from [gate_init] is. *)
Lemma send_letter_detection_results_consistent (cfg : Config) (current_time : Q)
    (tracked_objects : list Resolved) (g : Gate) :
  consistent g ->
  consistent (send_letter_detection_results cfg current_time tracked_objects g).
Proof.
  unfold send_letter_detection_results. revert g.
  induction tracked_objects as [|obj objs IH]; intros g H; [exact H|].
  simpl. apply IH. apply gate_object_consistent. exact H.
Qed.

(** A gate evaluation sends nothing or one report; a report stamps the
    last-sent time of the track. *)
Lemma gate_object_sent (cfg : Config) (current_time : Q) (g : Gate) (obj : Resolved) :
  let g' := gate_object cfg current_time g obj in
  (sent g' = sent g /\ last_sent_time g' = last_sent_time g)
  \/ (sent g' = sent g ++ [report (current_state cfg obj)]
      /\ last_sent_time g' !! r_track_id obj = Some current_time).
Proof.
  unfold gate_object.
  repeat match goal with |- context [if ?b then _ else _] => destruct b end;
    simpl; auto.
  all: right; split; [reflexivity|apply lookup_insert_eq].
Qed.


(** What one evaluation does to the three dicts of the gate. *)
Lemma gate_object_dicts (cfg : Config) (current_time : Q) (g : Gate) (obj : Resolved) :
  let g' := gate_object cfg current_time g obj in
  first_detection_time g'
  = match first_detection_time g !! r_track_id obj with
    | Some _ => first_detection_time g
    | None => <[r_track_id obj := current_time]> (first_detection_time g)
    end
  /\ ((last_sent_time g' = last_sent_time g /\ last_sent_state g' = last_sent_state g
       /\ sent g' = sent g)
      \/ (last_sent_time g' = <[r_track_id obj := current_time]> (last_sent_time g)
          /\ last_sent_state g'
             = <[r_track_id obj := current_state cfg obj]> (last_sent_state g)
          /\ sent g' = sent g ++ [report (current_state cfg obj)])).
Proof.
  unfold gate_object.
  repeat match goal with |- context [if ?b then _ else _] => destruct b end;
    cbn [first_detection_time last_sent_time last_sent_state sent]; auto 10.
Qed.

(** An evaluation does not move the moment a track was first seen. *)
Lemma gate_object_first_seen (cfg : Config) (current_time : Q) (g : Gate)
    (obj : Resolved) (track_id : nat) :
  first_seen current_time (gate_object cfg current_time g obj) track_id
  = first_seen current_time g track_id.
Proof.
  unfold first_seen. destruct (gate_object_dicts cfg current_time g obj) as [-> _].
  destruct (first_detection_time g !! r_track_id obj) eqn:E; [reflexivity|].
  destruct (decide (r_track_id obj = track_id)) as [<-|Hne].
  - rewrite lookup_insert_eq, E. reflexivity.
  - rewrite lookup_insert_ne by exact Hne. reflexivity.
Qed.

(** An object that does not pass the stability filter is skipped. *)
Lemma gate_object_unstable (cfg : Config) (current_time : Q) (g : Gate) (obj : Resolved) :
  ~ passes_stability cfg current_time g obj ->
  sent (gate_object cfg current_time g obj) = sent g
  /\ last_sent_time (gate_object cfg current_time g obj) = last_sent_time g
  /\ last_sent_state (gate_object cfg current_time g obj) = last_sent_state g.
Proof.
  intros Hn. unfold gate_object.
  destruct (SEND_ONLY_STABLE cfg && negb _) eqn:E; [auto|].
  exfalso. apply Hn. apply stable_filter_iff. exact E.
Qed.

Lemma sublist_In {A : Type} (l1 l2 : list A) (x : A) :
  sublist l1 l2 -> In x l1 -> In x l2.
Proof.
  intros Hs Hin. apply list_elem_of_In. eapply elem_of_sublist; [|exact Hs].
  apply list_elem_of_In. exact Hin.
Qed.





End GateRule.


(** ** The annotation list of the vision worker *)
Section AnnotationCache.
Import SideScreen.worker.
Variable DURATION : Q.
Variable MAX : nat.

Lemma Entry_eqb_refl (e : Entry) : Entry_eqb e e = true.
Proof.
  unfold Entry_eqb, Box_eqb.
  rewrite !Z.eqb_refl, String.eqb_refl, Qeq_bool_refl. reflexivity.
Qed.

Lemma oldest_from_spec (boxes : list Entry) (best : Entry) :
  In (oldest_from best boxes) (best :: boxes)
  /\ forall e, In e (best :: boxes) -> (e_time (oldest_from best boxes) <= e_time e)%Q.
Proof.
  revert best. induction boxes as [|x boxes IH]; intros best.
  - simpl. split; [tauto|]. intros e [<-|[]]. apply Qle_refl.
  - cbn [oldest_from]. destruct (Qlt_bool (e_time x) (e_time best)) eqn:E.
    + apply Qlt_bool_iff in E. destruct (IH x) as [Hin Hmin].
      split; [right; exact Hin|].
      intros e [<-|He]; [|apply Hmin; exact He].
      apply Qle_trans with (e_time x); [apply Hmin; left; reflexivity|].
      apply Qlt_le_weak. exact E.
    + destruct (IH best) as [Hin Hmin].
      split; [destruct Hin as [<-|Hin]; [left; reflexivity|right; right; exact Hin]|].
      intros e [<-|[<-|He]].
      * apply Hmin. left. reflexivity.
      * apply Qle_trans with (e_time best); [apply Hmin; left; reflexivity|].
        apply Qnot_lt_le. intros Hlt. apply Qlt_bool_iff in Hlt. congruence.
      * apply Hmin. right. exact He.
Qed.

(** [min] yields an entry of the list whose timestamp no other undercuts. *)
Lemma oldest_spec (boxes : list Entry) (o : Entry) :
  oldest boxes = Some o ->
  In o boxes /\ forall e, In e boxes -> (e_time o <= e_time e)%Q.
Proof.
  destruct boxes as [|x boxes]; [discriminate|].
  intros H. inversion H. apply oldest_from_spec.
Qed.

Lemma oldest_some (boxes : list Entry) :
  boxes <> [] -> exists o, oldest boxes = Some o.
Proof. destruct boxes; [congruence|]. intros _. eexists. reflexivity. Qed.

Lemma length_remove (x : Entry) (boxes : list Entry) :
  In x boxes -> length (remove x boxes) = pred (length boxes).
Proof.
  induction boxes as [|e boxes IH]; [intros []|].
  intros Hin. cbn [remove]. destruct (Entry_eqb e x) eqn:E; [reflexivity|].
  destruct Hin as [->|Hin]; [rewrite Entry_eqb_refl in E; discriminate|].
  cbn [length]. rewrite (IH Hin). destruct boxes; [destruct Hin|reflexivity].
Qed.

Lemma length_drop_oldest (boxes : list Entry) :
  length (drop_oldest boxes) = pred (length boxes).
Proof.
  unfold drop_oldest. destruct (oldest boxes) as [o|] eqn:E.
  - apply length_remove. apply (oldest_spec _ _ E).
  - destruct boxes; [reflexivity|discriminate].
Qed.

Lemma length_drop_oldest_n (k : nat) (boxes : list Entry) :
  length (drop_oldest_n k boxes) = (length boxes - k)%nat.
Proof.
  revert boxes. induction k as [|k IH]; intros boxes; simpl; [lia|].
  rewrite IH, length_drop_oldest. lia.
Qed.

(** The loop of [get_current_boxes] ends, having dropped the oldest entry
    once per entry above the limit. *)
Lemma evict_above (fuel : nat) (boxes : list Entry) :
  (length boxes < fuel)%nat ->
  evict fuel (fun n => Nat.ltb MAX n) boxes
  = Done (drop_oldest_n (length boxes - MAX) boxes).
Proof.
  revert boxes. induction fuel as [|fuel IH]; intros boxes Hf; [lia|].
  cbn [evict]. destruct (Nat.ltb_spec MAX (length boxes)) as [Hlt|Hge].
  - destruct (oldest_some boxes) as [o Ho]; [destruct boxes; simpl in *; [lia|congruence]|].
    rewrite Ho. assert (remove o boxes = drop_oldest boxes) as ->
      by (unfold drop_oldest; rewrite Ho; reflexivity).
    rewrite IH by (rewrite length_drop_oldest; lia).
    rewrite length_drop_oldest.
    replace (length boxes - MAX)%nat with (S (pred (length boxes) - MAX)) by lia.
    reflexivity.
  - replace (length boxes - MAX)%nat with 0%nat by lia. reflexivity.
Qed.

(** The loop of the insertion ends: with room for the new entry, or, for a
    limit of zero, in the ValueError of [min] on the emptied list. *)
Lemma evict_full (fuel : nat) (boxes : list Entry) :
  (length boxes < fuel)%nat ->
  evict fuel (fun n => Nat.leb MAX n) boxes
  = if Nat.eqb MAX 0 then ValueError []
    else Done (drop_oldest_n (S (length boxes) - MAX) boxes).
Proof.
  revert boxes. induction fuel as [|fuel IH]; intros boxes Hf; [lia|].
  cbn [evict]. destruct (Nat.leb_spec MAX (length boxes)) as [Hle|Hgt].
  - destruct boxes as [|x boxes].
    + simpl in Hle. assert (MAX = 0%nat) as -> by lia. reflexivity.
    + destruct (oldest_some (x :: boxes)) as [o Ho]; [congruence|].
      rewrite Ho. assert (remove o (x :: boxes) = drop_oldest (x :: boxes)) as ->
        by (unfold drop_oldest; rewrite Ho; reflexivity).
      rewrite IH by (rewrite length_drop_oldest; simpl in *; lia).
      rewrite length_drop_oldest.
      destruct (Nat.eqb MAX 0); [reflexivity|].
      replace (S (length (x :: boxes)) - MAX)%nat
        with (S (S (pred (length (x :: boxes))) - MAX)) by (simpl in *; lia).
      reflexivity.
  - destruct (Nat.eqb_spec MAX 0) as [->|_]; [lia|].
    replace (S (length boxes) - MAX)%nat with 0%nat by lia. reflexivity.
Qed.

Lemma filter_all {A : Type} (f : A -> bool) (l : list A) :
  Forall (fun x => f x = true) l -> List.filter f l = l.
Proof.
  induction 1 as [|x l Hx _ IH]; [reflexivity|].
  simpl. rewrite Hx, IH. reflexivity.
Qed.

Lemma in_remove (x e : Entry) (boxes : list Entry) :
  In e (remove x boxes) -> In e boxes.
Proof.
  induction boxes as [|y boxes IH]; [intros []|]. cbn [remove].
  destruct (Entry_eqb y x); [intros H; right; exact H|].
  intros [<-|H]; [left; reflexivity|right; apply IH; exact H].
Qed.


End AnnotationCache.

(** ** Facts about dicts *)
Section DictFacts.
Context {V : Type}.
Implicit Types (d : list (nat * V)) (k : nat).

Lemma dict_get_set k k' (v : V) d :
  dict_get k (dict_set k' v d) = if Nat.eqb k k' then Some v else dict_get k d.
Proof.
  induction d as [|[k0 v0] d IH]; simpl.
  - destruct (Nat.eqb k k'); reflexivity.
  - destruct (Nat.eqb_spec k' k0) as [->|Hne]; simpl.
    + destruct (Nat.eqb k k0); reflexivity.
    + rewrite IH. destruct (Nat.eqb_spec k k0) as [->|]; [|reflexivity].
      destruct (Nat.eqb_spec k0 k'); [congruence|reflexivity].
Qed.

Lemma dict_get_alter (f : V -> V) k k' d :
  dict_get k (dict_alter f k' d)
  = if Nat.eqb k k' then option_map f (dict_get k d) else dict_get k d.
Proof.
  induction d as [|[k0 v0] d IH]; simpl.
  - destruct (Nat.eqb k k'); reflexivity.
  - destruct (Nat.eqb_spec k' k0) as [->|Hne]; simpl.
    + destruct (Nat.eqb k k0); reflexivity.
    + rewrite IH. destruct (Nat.eqb_spec k k0) as [->|]; [|reflexivity].
      destruct (Nat.eqb_spec k0 k'); [congruence|reflexivity].
Qed.

Lemma dict_get_del k k' d :
  dict_get k (dict_del k' d) = if Nat.eqb k k' then None else dict_get k d.
Proof.
  unfold dict_del. induction d as [|[k0 v0] d IH]; simpl.
  - destruct (Nat.eqb k k'); reflexivity.
  - destruct (Nat.eqb_spec k' k0) as [->|Hne]; simpl.
    + rewrite IH. destruct (Nat.eqb k k0); reflexivity.
    + rewrite IH. destruct (Nat.eqb_spec k k0) as [->|]; [|reflexivity].
      destruct (Nat.eqb_spec k0 k'); [congruence|reflexivity].
Qed.

Lemma dict_keys_alter (f : V -> V) k d :
  dict_keys (dict_alter f k d) = dict_keys d.
Proof.
  unfold dict_keys. induction d as [|[k0 v0] d IH]; simpl; [reflexivity|].
  destruct (Nat.eqb k k0); simpl; [reflexivity|]. rewrite IH. reflexivity.
Qed.

Lemma dict_keys_del k d :
  dict_keys (dict_del k d) = List.filter (fun x => negb (Nat.eqb k x)) (dict_keys d).
Proof.
  unfold dict_keys, dict_del. induction d as [|[k0 v0] d IH]; simpl; [reflexivity|].
  destruct (Nat.eqb k k0); simpl; rewrite IH; reflexivity.
Qed.

Lemma dict_get_in_keys k d : is_Some (dict_get k d) <-> In k (dict_keys d).
Proof.
  unfold dict_keys. induction d as [|[k0 v0] d IH]; simpl.
  - split; [intros [x Hx]; discriminate|tauto].
  - destruct (Nat.eqb_spec k k0) as [->|Hne].
    + split; eauto.
    + rewrite IH. split; [tauto|]. intros [E|H]; [congruence|exact H].
Qed.

Lemma dict_get_not_in_keys k d : dict_get k d = None <-> ~ In k (dict_keys d).
Proof.
  rewrite <- dict_get_in_keys. destruct (dict_get k d).
  - split; [discriminate|]. intros H. exfalso. apply H. eauto.
  - split; [|reflexivity]. intros _ [x Hx]. discriminate.
Qed.

Lemma dict_keys_set_new k (v : V) d :
  ~ In k (dict_keys d) -> dict_keys (dict_set k v d) = dict_keys d ++ [k].
Proof.
  unfold dict_keys. induction d as [|[k0 v0] d IH]; simpl; [reflexivity|].
  intros Hn. destruct (Nat.eqb_spec k k0) as [->|Hne]; [tauto|].
  simpl. rewrite IH by tauto. reflexivity.
Qed.

Lemma NoDup_keys_del k d :
  List.NoDup (dict_keys d) -> List.NoDup (dict_keys (dict_del k d)).
Proof. rewrite dict_keys_del. apply List.NoDup_filter. Qed.

Lemma in_keys_del k k' d :
  In k (dict_keys (dict_del k' d)) -> In k (dict_keys d).
Proof. rewrite dict_keys_del. intros H. apply filter_In in H. tauto. Qed.

End DictFacts.

(** ** Facts about loops over lists *)
Section LoopFacts.

(** A loop that skips the entries selected by [c] is the loop over the
    others. *)
Lemma fold_left_skip {A K S : Type} (c : K * A -> bool) (f : A -> S -> S)
    (l : list (K * A)) (s : S) :
  fold_left (fun t e => if c e then t else f (snd e) t) l s
  = fold_left (fun t k => f k t) (map snd (List.filter (fun e => negb (c e)) l)) s.
Proof.
  revert s. induction l as [|e l IH]; intros s; [reflexivity|].
  simpl. destruct (c e); simpl; apply IH.
Qed.

Lemma NoDup_map_snd_filter {K A : Type} (g : K * A -> bool) (l : list (K * A)) :
  List.NoDup (map snd l) -> List.NoDup (map snd (List.filter g l)).
Proof.
  induction l as [|e l IH]; simpl; [auto|].
  intros H. apply List.NoDup_cons_iff in H as [Hn Hd].
  destruct (g e); simpl; [|auto].
  apply List.NoDup_cons_iff. split; [|auto].
  intros Hin. apply Hn. apply in_map_iff in Hin as [x [Hx Hin]].
  apply filter_In in Hin as [Hin _]. apply in_map_iff. eauto.
Qed.

Lemma map_snd_combine_seq {A : Type} (a : nat) (l : list A) :
  map snd (combine (seq a (length l)) l) = l.
Proof.
  revert a. induction l as [|x l IH]; intros a; simpl; [reflexivity|].
  rewrite IH. reflexivity.
Qed.

Lemma in_combine_seq {A : Type} (a j : nat) (x : A) (l : list A) :
  In (j, x) (combine (seq a (length l)) l)
  <-> (a <= j)%nat /\ l !! (j - a)%nat = Some x.
Proof.
  revert a. induction l as [|y l IH]; intros a; simpl.
  - split; [tauto|]. intros [_ H]. discriminate.
  - rewrite IH. split.
    + intros [H|[Hle H]].
      * inversion H; subst. split; [lia|]. rewrite Nat.sub_diag. reflexivity.
      * split; [lia|]. replace (j - a)%nat with (S (j - S a)) by lia. exact H.
    + intros [Hle H]. destruct (Nat.eq_dec j a) as [->|Hne].
      * rewrite Nat.sub_diag in H. inversion H. left. reflexivity.
      * right. split; [lia|].
        replace (j - a)%nat with (S (j - S a)) in H by lia. exact H.
Qed.

Lemma in_enumerate {A : Type} (j : nat) (x : A) (l : list A) :
  In (j, x) (enumerate l) <-> l !! j = Some x.
Proof.
  unfold enumerate. rewrite in_combine_seq, Nat.sub_0_r.
  split; [tauto|]. intros H. split; [lia|exact H].
Qed.

Lemma NoDup_lookup_eq {A : Type} (l : list A) (i j : nat) (x : A) :
  List.NoDup l -> l !! i = Some x -> l !! j = Some x -> i = j.
Proof.
  intros Hd Hi Hj. apply NoDup_ListNoDup in Hd.
  eapply NoDup_lookup; eauto.
Qed.

Lemma lookup_In {A : Type} (l : list A) (i : nat) (x : A) :
  l !! i = Some x -> In x l.
Proof. intros H. apply list_elem_of_In. eapply list_elem_of_lookup_2. exact H. Qed.

Lemma In_lookup {A : Type} (l : list A) (x : A) :
  In x l -> exists i, l !! i = Some x.
Proof. intros H. apply list_elem_of_In in H. apply list_elem_of_lookup_1. exact H. Qed.

End LoopFacts.

(** ** The SideScreen tracker: what one call of [update] does *)
Section SideTracker.
Import SideScreen.tracker.

Lemma age_or_drop_get (max k : nat) (trk : list (nat * Track)) (tid : nat) :
  dict_get tid (age_or_drop max k trk)
  = if Nat.eqb tid k then miss max (dict_get tid trk) else dict_get tid trk.
Proof.
  unfold age_or_drop.
  set (f := fun t : Track => {| bbox := bbox t; missed_count := S (missed_count t);
                               class_id := class_id t; conf := conf t |}).
  pose proof (dict_get_alter f k k trk) as Hk. rewrite Nat.eqb_refl in Hk.
  rewrite Hk. destruct (dict_get k trk) as [t|] eqn:E; simpl.
  - destruct (Nat.ltb max (S (missed_count t))) eqn:El.
    + rewrite dict_get_del, dict_get_alter.
      destruct (Nat.eqb_spec tid k) as [->|]; [|reflexivity].
      rewrite E. simpl. rewrite El. reflexivity.
    + rewrite dict_get_alter.
      destruct (Nat.eqb_spec tid k) as [->|]; [|reflexivity].
      rewrite E. simpl. rewrite El. reflexivity.
  - rewrite dict_get_alter.
    destruct (Nat.eqb_spec tid k) as [->|]; [|reflexivity].
    rewrite E. reflexivity.
Qed.

Lemma age_or_drop_keys (max k : nat) (trk : list (nat * Track)) :
  (forall x, In x (dict_keys (age_or_drop max k trk)) -> In x (dict_keys trk))
  /\ (List.NoDup (dict_keys trk) -> List.NoDup (dict_keys (age_or_drop max k trk))).
Proof.
  unfold age_or_drop.
  match goal with |- context [dict_alter ?f k trk] => set (trk' := dict_alter f k trk) end.
  assert (dict_keys trk' = dict_keys trk) as Hk by apply dict_keys_alter.
  destruct (dict_get k trk') as [t|]; [destruct (Nat.ltb max (missed_count t))|].
  - split.
    + intros x Hx. apply in_keys_del in Hx. rewrite <- Hk. exact Hx.
    + intros Hd. apply NoDup_keys_del. rewrite Hk. exact Hd.
  - rewrite Hk. split; auto.
  - rewrite Hk. split; auto.
Qed.

Lemma age_all_other (max : nat) (l : list nat) (trk : list (nat * Track)) (tid : nat) :
  ~ In tid l -> dict_get tid (age_all max l trk) = dict_get tid trk.
Proof.
  revert trk. induction l as [|k l IH]; intros trk Hn; [reflexivity|].
  simpl. rewrite IH by (simpl in Hn; tauto). rewrite age_or_drop_get.
  destruct (Nat.eqb_spec tid k) as [->|]; [simpl in Hn; tauto|reflexivity].
Qed.

Lemma age_all_member (max : nat) (l : list nat) (trk : list (nat * Track)) (tid : nat) :
  List.NoDup l -> In tid l ->
  dict_get tid (age_all max l trk) = miss max (dict_get tid trk).
Proof.
  revert trk. induction l as [|k l IH]; intros trk Hd Hin; [destruct Hin|].
  apply List.NoDup_cons_iff in Hd as [Hk Hd]. simpl.
  destruct Hin as [->|Hin].
  - rewrite age_all_other by exact Hk. rewrite age_or_drop_get, Nat.eqb_refl.
    reflexivity.
  - rewrite IH by assumption. rewrite age_or_drop_get.
    destruct (Nat.eqb_spec tid k) as [->|]; [tauto|reflexivity].
Qed.

Lemma age_all_keys (max : nat) (l : list nat) (trk : list (nat * Track)) :
  (forall x, In x (dict_keys (age_all max l trk)) -> In x (dict_keys trk))
  /\ (List.NoDup (dict_keys trk) -> List.NoDup (dict_keys (age_all max l trk))).
Proof.
  revert trk. induction l as [|k l IH]; intros trk; [simpl; auto|].
  simpl. destruct (IH (age_or_drop max k trk)) as [H1 H2].
  destruct (age_or_drop_keys max k trk) as [H3 H4]. split; auto.
Qed.

Lemma in_unmatched_ids (T : gset nat) (track_ids : list nat) (tid : nat) :
  In tid (unmatched_ids T track_ids)
  <-> exists j, track_ids !! j = Some tid /\ j ∉ T.
Proof.
  unfold unmatched_ids. rewrite in_map_iff. split.
  - intros [[j x] [Hx Hin]]. simpl in Hx. subst x.
    apply filter_In in Hin as [Hin Hc]. apply in_enumerate in Hin.
    simpl in Hc. apply negb_true_iff, bool_decide_eq_false in Hc. eauto.
  - intros [j [Hj Hn]]. exists (j, tid). split; [reflexivity|].
    apply filter_In. split; [apply in_enumerate; exact Hj|].
    simpl. apply negb_true_iff, bool_decide_eq_false. exact Hn.
Qed.

Lemma NoDup_unmatched_ids (T : gset nat) (track_ids : list nat) :
  List.NoDup track_ids -> List.NoDup (unmatched_ids T track_ids).
Proof.
  intros Hd. unfold unmatched_ids. apply NoDup_map_snd_filter.
  unfold enumerate. rewrite map_snd_combine_seq. exact Hd.
Qed.

Lemma age_loop_eq (max : nat) (T : gset nat) (track_ids : list nat)
    (trk : list (nat * Track)) :
  fold_left (fun t e => if bool_decide (fst e ∈ T) then t
                        else age_or_drop max (snd e) t) (enumerate track_ids) trk
  = age_all max (unmatched_ids T track_ids) trk.
Proof.
  unfold age_all, unmatched_ids.
  apply (fold_left_skip (fun e => bool_decide (fst e ∈ T))
           (fun k t => age_or_drop max k t)).
Qed.

Lemma append_history_nonempty (track_id : nat) (e : HistoryEntry)
    (h : gmap nat (list HistoryEntry)) :
  exists l, append_history track_id e h !! track_id = Some l /\ l <> [].
Proof.
  unfold append_history. rewrite lookup_insert_eq.
  set (l := default [] (h !! track_id) ++ [e]).
  assert (l <> []) as Hl by (subst l; intros H; apply app_eq_nil in H as [_ H]; discriminate).
  eexists. split; [reflexivity|].
  destruct (Nat.ltb_spec 100 (length l)) as [Hlt|_]; [|exact Hl].
  intros H. apply (f_equal (@length _)) in H. rewrite length_skipn in H.
  simpl in H. lia.
Qed.

Lemma append_history_other (track_id tid : nat) (e : HistoryEntry)
    (h : gmap nat (list HistoryEntry)) :
  tid <> track_id -> append_history track_id e h !! tid = h !! tid.
Proof. intros Hne. unfold append_history. apply lookup_insert_ne. congruence. Qed.

Lemma ids_app (r1 r2 : list Resolved) : ids (r1 ++ r2) = ids r1 ++ ids r2.
Proof. unfold ids. apply map_app. Qed.

Lemma match_detection_inv (clock : nat -> Q) (m : list (list Q)) (thr : Q)
    (s : IoUTracker) (st : Matching) (e : nat * Detection) :
  match_inv s st ->
  match_inv s (match_detection clock (dict_keys (tracks s)) m thr st e).
Proof.
  intros Hinv. pose proof Hinv as (HK & HU & HT & HR). unfold match_detection.
  destruct (best_track _ _ _ _) as [idx|]; [|exact Hinv].
  destruct (dict_keys (tracks s) !! idx) as [track_id|] eqn:Eid; [|exact Hinv].
  clear Hinv.
  assert (is_Some (dict_get track_id (m_tracks st))) as [t0 Ht0].
  { apply dict_get_in_keys. rewrite HK. eapply lookup_In. exact Eid. }
  unfold match_inv. cbn [m_tracks m_history result tracked_dets tracked_tracks].
  rewrite ids_app. cbn [ids map r_track_id resolved].
  split; [rewrite dict_keys_alter; exact HK|]. split; [|split].
  - intros tid Hn. rewrite in_app_iff in Hn. simpl in Hn.
    assert (tid <> track_id) as Hne by (intros ->; tauto).
    rewrite dict_get_alter. destruct (Nat.eqb_spec tid track_id); [tauto|].
    rewrite append_history_other by exact Hne. apply HU. tauto.
  - intros j Hj. apply elem_of_union in Hj as [Hj|Hj].
    + apply elem_of_singleton in Hj. subst j. exists track_id.
      split; [exact Eid|]. apply in_app_iff. right. left. reflexivity.
    + destruct (HT j Hj) as [tid [H1 H2]]. exists tid. split; [exact H1|].
      apply in_app_iff. left. exact H2.
  - intros tid Hin. destruct (Nat.eq_dec tid track_id) as [->|Hne].
    + split; [exists idx; split;
              [apply elem_of_union_l, elem_of_singleton; reflexivity|exact Eid]|].
      split.
      * rewrite dict_get_alter, Nat.eqb_refl, Ht0. simpl. eexists.
        split; reflexivity.
      * apply append_history_nonempty.
    + apply in_app_iff in Hin as [Hin|[Hin|[]]]; [|congruence].
      destruct (HR tid Hin) as ((j & Hj1 & Hj2) & Ht & Hh).
      split; [exists j; split; [apply elem_of_union_r; exact Hj1|exact Hj2]|].
      split.
      * rewrite dict_get_alter. destruct (Nat.eqb_spec tid track_id); [tauto|].
        exact Ht.
      * rewrite append_history_other by exact Hne. exact Hh.
Qed.

Lemma match_loop_inv (clock : nat -> Q) (m : list (list Q)) (thr : Q)
    (s : IoUTracker) (l : list (nat * Detection)) (st : Matching) :
  match_inv s st ->
  match_inv s (fold_left (match_detection clock (dict_keys (tracks s)) m thr) l st).
Proof.
  revert st. induction l as [|e l IH]; intros st H; [exact H|].
  simpl. apply IH. apply match_detection_inv. exact H.
Qed.

Lemma match_inv_start (s : IoUTracker) :
  match_inv s {| m_tracks := tracks s; m_history := track_history s;
                 result := []; tracked_dets := ∅; tracked_tracks := ∅ |}.
Proof.
  unfold match_inv. simpl. split; [reflexivity|]. split; [auto|].
  split; [intros j Hj; apply not_elem_of_empty in Hj; destruct Hj|intros tid []].
Qed.

(** The loop that creates tracks: the ids it hands out are the next ones,
    and what lies below them is left alone. *)
Lemma spawn_loop (clock : nat -> Q) (used : gset nat) (l : list (nat * Detection))
    (nid : nat) (trk : list (nat * Track)) (hist : gmap nat (list HistoryEntry))
    (res : list Resolved) nid' trk' hist' res' :
  fold_left (spawn clock used) l (nid, trk, hist, res) = (nid', trk', hist', res') ->
  (nid <= nid')%nat
  /\ (forall tid, (tid < nid)%nat ->
      dict_get tid trk' = dict_get tid trk /\ hist' !! tid = hist !! tid)
  /\ (exists new, res' = res ++ new
                  /\ forall tid, In tid (ids new) -> (nid <= tid < nid')%nat)
  /\ (forall tid, (nid <= tid < nid')%nat ->
      (exists t, dict_get tid trk' = Some t /\ missed_count t = 0%nat)
      /\ (exists h, hist' !! tid = Some h /\ h <> []))
  /\ ((forall k, In k (dict_keys trk) -> (k < nid)%nat) ->
      dict_keys trk' = dict_keys trk ++ seq nid (nid' - nid)).
Proof.
  revert nid trk hist res. induction l as [|e l IH]; intros nid trk hist res.
  - simpl. intros H. inversion H; subst. split; [lia|]. split; [auto|].
    split; [exists []; rewrite app_nil_r; split; [reflexivity|intros tid []]|].
    split; [intros tid Ht; lia|].
    intros _. rewrite Nat.sub_diag. simpl. rewrite app_nil_r. reflexivity.
  - cbn [fold_left]. unfold spawn at 2.
    destruct (bool_decide (fst e ∈ used)); [apply IH|].
    intros H. apply IH in H as (H1 & H2 & (new & H3 & H3') & H4 & H5).
    split; [lia|]. split; [|split; [|split]].
    + intros tid Ht. destruct (H2 tid) as [Ha Hb]; [lia|].
      rewrite Ha, Hb, dict_get_set, lookup_insert_ne by lia.
      destruct (Nat.eqb_spec tid nid); [lia|auto].
    + exists (resolved nid (snd e) :: new). rewrite H3, <- app_assoc.
      split; [reflexivity|]. intros tid [<-|Hin]; [simpl; lia|].
      specialize (H3' tid Hin). lia.
    + intros tid Ht. destruct (Nat.eq_dec tid nid) as [->|Hne].
      * destruct (H2 nid) as [Ha Hb]; [lia|].
        rewrite Ha, Hb, dict_get_set, Nat.eqb_refl, lookup_insert_eq.
        split; eexists; split; try reflexivity. discriminate.
      * apply H4. lia.
    + intros Hb. rewrite H5.
      * rewrite dict_keys_set_new
          by (intros Hin; specialize (Hb nid Hin); lia).
        rewrite <- app_assoc. f_equal.
        replace (nid' - nid)%nat with (S (nid' - S nid)) by lia. reflexivity.
      * intros k Hk. rewrite dict_keys_set_new in Hk
          by (intros Hin; specialize (Hb nid Hin); lia).
        apply in_app_iff in Hk as [Hk|[<-|[]]]; [specialize (Hb k Hk)|]; lia.
Qed.

Lemma wf_init (thr : Q) (max : nat) : wf (init thr max).
Proof.
  unfold wf, init. simpl. split; [constructor|]. split; intros k [].
Qed.

Lemma update_empty_facts (clock : nat -> Q) (s : IoUTracker) :
  wf s -> update_facts s (fst (update clock [] s)) (snd (update clock [] s)).
Proof.
  intros (Hd & Hb & Hh). unfold update. cbn [fst snd].
  fold (age_all (max_missed_frames s) (dict_keys (tracks s)) (tracks s)).
  destruct (age_all_keys (max_missed_frames s) (dict_keys (tracks s)) (tracks s))
    as [Hsub Hnd].
  unfold update_facts, wf. cbn [iou_threshold max_missed_frames next_id tracks track_history].
  split; [reflexivity|]. split; [reflexivity|]. split; [lia|].
  split; [split; [auto|split; auto]|]. split; [|split].
  - intros tid Hin _. split; [|reflexivity]. apply age_all_member; assumption.
  - intros tid [].
  - intros tid Hin. left. auto.
Qed.

Lemma update_nonempty_facts (clock : nat -> Q) (d : Detection) (ds : list Detection)
    (s : IoUTracker) :
  wf s ->
  update_facts s (fst (update clock (d :: ds) s)) (snd (update clock (d :: ds) s)).
Proof.
  intros (Hd & Hb & Hh). unfold update.
  set (track_ids := dict_keys (tracks s)).
  set (st0 := {| m_tracks := tracks s; m_history := track_history s;
                 result := []; tracked_dets := ∅; tracked_tracks := ∅ |}).
  match goal with |- context [if ?c then ?a else st0] => set (st1 := if c then a else st0) end.
  assert (match_inv s st1) as (HK & HU & HT & HR).
  { subst st1. destruct (Nat.ltb 0 (length (tracks s)));
      [apply match_loop_inv|]; apply match_inv_start. }
  destruct (fold_left (spawn clock (tracked_dets st1)) (enumerate (d :: ds))
              (next_id s, m_tracks st1, m_history st1, result st1))
    as [[[nid trk2] hist2] res] eqn:Esp.
  apply spawn_loop in Esp as (Hn & Hlow & (new & Hres & Hnew) & Hfresh & Hkeys).
  rewrite age_loop_eq. cbn [fst snd].
  set (L := unmatched_ids (tracked_tracks st1) track_ids).
  specialize (Hkeys ltac:(rewrite HK; exact Hb)). rewrite HK in Hkeys.
  assert (List.NoDup (dict_keys trk2)) as Hd2.
  { rewrite Hkeys. apply List.NoDup_app; [exact Hd|apply seq_NoDup|].
    intros a Ha Hs. apply in_seq in Hs. specialize (Hb a Ha). lia. }
  destruct (age_all_keys (max_missed_frames s) L trk2) as [Hsub Hnd].
  assert (forall tid, In tid (dict_keys (age_all (max_missed_frames s) L trk2)) ->
          In tid track_ids \/ (next_id s <= tid < nid)%nat) as Hwhere.
  { intros tid Hin. apply Hsub in Hin. rewrite Hkeys in Hin.
    apply in_app_iff in Hin as [Hin|Hin]; [left; exact Hin|].
    apply in_seq in Hin. right. lia. }
  assert (forall tid, In tid (ids (result st1)) -> ~ In tid L) as Hkeep.
  { intros tid Hin HL. apply in_unmatched_ids in HL as (j' & Hj' & Hn').
    destruct (HR tid Hin) as ((j & Hj1 & Hj2) & _).
    assert (j' = j) by exact (NoDup_lookup_eq track_ids j' j tid Hd Hj' Hj2).
    subst j'. tauto. }
  assert (forall tid, In tid L -> In tid track_ids) as HLsub.
  { intros tid HL. apply in_unmatched_ids in HL as (j & Hj & _).
    eapply lookup_In. exact Hj. }
  unfold update_facts, wf.
  cbn [iou_threshold max_missed_frames next_id tracks track_history].
  rewrite Hres, ids_app.
  split; [reflexivity|]. split; [reflexivity|]. split; [exact Hn|].
  split; [|split; [|split]].
  - split; [auto|]. split.
    + intros k Hk. destruct (Hwhere k Hk) as [Hk'|Hk']; [specialize (Hb k Hk')|]; lia.
    + intros k Hk. destruct (Hwhere k Hk) as [Hk'|Hk'].
      * destruct (Hlow k (Hb k Hk')) as [_ ->].
        destruct (in_dec Nat.eq_dec k (ids (result st1))) as [Hin|Hnin].
        -- apply (HR k Hin).
        -- destruct (HU k Hnin) as [_ ->]. apply Hh. exact Hk'.
      * apply (Hfresh k). lia.
  - intros tid Hin Hnot. rewrite in_app_iff in Hnot.
    destruct (Hlow tid (Hb tid Hin)) as [Hg ->].
    destruct (HU tid ltac:(tauto)) as [Hg' ->]. split; [|reflexivity].
    rewrite <- Hg', <- Hg. apply age_all_member.
    + apply NoDup_unmatched_ids. exact Hd.
    + apply in_unmatched_ids. destruct (In_lookup _ _ Hin) as [j Hj].
      exists j. split; [exact Hj|]. intros Hjt.
      destruct (HT j Hjt) as (tid' & H1 & H2).
      unfold track_ids in *. rewrite Hj in H1. inversion H1; subst tid'. tauto.
  - intros tid Hin. apply in_app_iff in Hin as [Hin|Hin].
    + destruct (HR tid Hin) as ((j & Hj1 & Hj2) & (t & Ht & Hm) & _).
      assert (In tid track_ids) as Hk by (eapply lookup_In; exact Hj2).
      split; [left; exact Hk|]. exists t. split; [|exact Hm].
      rewrite age_all_other by (apply Hkeep; exact Hin).
      destruct (Hlow tid (Hb tid Hk)) as [-> _]. exact Ht.
    + specialize (Hnew tid Hin). split; [right; exact Hnew|].
      destruct (Hfresh tid Hnew) as ((t & Ht & Hm) & _).
      exists t. split; [|exact Hm]. rewrite age_all_other; [exact Ht|].
      intros HL. apply HLsub in HL. specialize (Hb tid HL). lia.
  - exact Hwhere.
Qed.

Lemma update_has_facts (clock : nat -> Q) (dets : list Detection) (s : IoUTracker) :
  wf s -> update_facts s (fst (update clock dets s)) (snd (update clock dets s)).
Proof.
  destruct dets; [apply update_empty_facts|apply update_nonempty_facts].
Qed.

Lemma run_snoc frames f s : run (frames ++ [f]) s = step (run frames s) f.
Proof. unfold run. rewrite fold_left_app. reflexivity. Qed.

Lemma run_take_S frames k f s :
  frames !! k = Some f ->
  run (firstn (S k) frames) s = step (run (firstn k frames) s) f.
Proof.
  intros Hk. change (@firstn) with (@take). rewrite (take_S_r _ _ _ Hk).
  apply run_snoc.
Qed.

Lemma run_wf frames s : wf s -> wf (run frames s).
Proof.
  revert s. induction frames as [|f frames IH]; intros s H; [exact H|].
  change (run (f :: frames) s) with (run frames (step s f)).
  apply IH. apply (update_has_facts (fst f) (snd f) s H).
Qed.

Lemma run_next_id frames s : wf s -> (next_id s <= next_id (run frames s))%nat.
Proof.
  revert s. induction frames as [|f frames IH]; intros s H; [simpl; lia|].
  change (run (f :: frames) s) with (run frames (step s f)).
  destruct (update_has_facts (fst f) (snd f) s H) as (_ & _ & Hn & Hw & _).
  specialize (IH _ Hw). unfold step. lia.
Qed.

(** An id that was handed out and is not live is never live again. *)
Lemma run_never_back frames s tid :
  wf s -> (tid < next_id s)%nat -> ~ In tid (dict_keys (tracks s)) ->
  ~ In tid (dict_keys (tracks (run frames s))).
Proof.
  revert s. induction frames as [|f frames IH]; intros s H Hlt Hn; [exact Hn|].
  change (run (f :: frames) s) with (run frames (step s f)).
  destruct (update_has_facts (fst f) (snd f) s H)
    as (_ & _ & Hmono & Hw & _ & _ & Hkeys).
  apply IH; [exact Hw|unfold step; lia|].
  intros Hin. apply Hkeys in Hin as [Hin|Hin]; [tauto|lia].
Qed.

(** A track that goes [k] updates without a match, [k] at most one above
    the number of misses it may still take. *)
Lemma unmatched_run (s : IoUTracker) (tid : nat) (t : Track)
    (frames : list ((nat -> Q) * list Detection)) :
  wf s ->
  dict_get tid (tracks s) = Some t ->
  (missed_count t <= max_missed_frames s)%nat ->
  (forall k f, frames !! k = Some f ->
     ~ In tid (ids (fst (update (fst f) (snd f) (run (firstn k frames) s))))) ->
  forall k, (k <= length frames)%nat ->
    (missed_count t + k <= S (max_missed_frames s))%nat ->
    max_missed_frames (run (firstn k frames) s) = max_missed_frames s
    /\ dict_get tid (tracks (run (firstn k frames) s))
       = if Nat.ltb (max_missed_frames s) (missed_count t + k) then None
         else Some {| bbox := bbox t; missed_count := missed_count t + k;
                      class_id := class_id t; conf := conf t |}.
Proof.
  intros Hwf Hget Hle Hun. induction k as [|k IH]; intros Hk Hm.
  - simpl. split; [reflexivity|]. rewrite Nat.add_0_r.
    replace (Nat.ltb (max_missed_frames s) (missed_count t)) with false
      by (symmetry; apply Nat.ltb_ge; lia).
    rewrite Hget. destruct t; reflexivity.
  - destruct (lookup_lt_is_Some_2 frames k ltac:(lia)) as [f Hf].
    rewrite (run_take_S _ _ _ _ Hf).
    destruct IH as [IHmax IHget]; [lia|lia|].
    set (sk := run (firstn k frames) s) in *.
    assert (wf sk) as Hwk by (apply run_wf; exact Hwf).
    replace (Nat.ltb (max_missed_frames s) (missed_count t + k)) with false in IHget
      by (symmetry; apply Nat.ltb_ge; lia).
    destruct (update_has_facts (fst f) (snd f) sk Hwk)
      as (_ & Hmax & _ & _ & Hmiss & _).
    unfold step. split; [rewrite Hmax; exact IHmax|].
    destruct (Hmiss tid) as [-> _].
    + apply dict_get_in_keys. rewrite IHget. eauto.
    + apply Hun. exact Hf.
    + rewrite IHget, IHmax. cbn [miss missed_count bbox class_id conf].
      replace (missed_count t + S k)%nat with (S (missed_count t + k)) by lia.
      reflexivity.
Qed.

(** Eviction timing of the letter tracker. *)
Lemma side_eviction_timing (s : IoUTracker) (tid : nat) (t : Track)
    (frames : list ((nat -> Q) * list Detection)) :
  wf s ->
  dict_get tid (tracks s) = Some t ->
  missed_count t = 0%nat ->
  length frames = S (max_missed_frames s) ->
  (forall k f, frames !! k = Some f ->
     ~ In tid (ids (fst (update (fst f) (snd f) (run (firstn k frames) s))))) ->
  (forall k, (1 <= k <= max_missed_frames s)%nat ->
     exists t', dict_get tid (tracks (run (firstn k frames) s)) = Some t'
                /\ missed_count t' = k)
  /\ dict_get tid (tracks (run frames s)) = None.
Proof.
  intros Hwf Hget Hzero Hlen Hun.
  pose proof (unmatched_run s tid t frames Hwf Hget ltac:(lia) Hun) as H.
  rewrite Hzero in H. split.
  - intros k Hk. destruct (H k) as [_ Hg]; [lia|simpl; lia|].
    simpl in Hg. rewrite Hg.
    replace (Nat.ltb (max_missed_frames s) k) with false
      by (symmetry; apply Nat.ltb_ge; lia).
    eexists. split; reflexivity.
  - destruct (H (length frames)) as [_ Hg]; [lia|simpl; lia|].
    rewrite firstn_all in Hg. rewrite Hg. simpl.
    replace (Nat.ltb (max_missed_frames s) (length frames)) with true
      by (symmetry; apply Nat.ltb_lt; lia).
    reflexivity.
Qed.

(** C10 (as amended). When an update deletes a track, the history stored
    under its id is left as it was, and it is not empty. *)
Theorem C10_history_retained (clock : nat -> Q) (dets : list Detection)
    (s : IoUTracker) (tid : nat) :
  wf s ->
  In tid (dict_keys (tracks s)) ->
  ~ In tid (dict_keys (tracks (snd (update clock dets s)))) ->
  track_history (snd (update clock dets s)) !! tid = track_history s !! tid
  /\ exists h, track_history (snd (update clock dets s)) !! tid = Some h /\ h <> [].
Proof.
  intros Hwf Hin Hgone.
  destruct (update_has_facts clock dets s Hwf) as (_ & _ & _ & _ & Hmiss & Hhit & _).
  assert (~ In tid (ids (fst (update clock dets s)))) as Hn.
  { intros Hr. destruct (Hhit tid Hr) as (_ & t & Ht & _).
    apply Hgone. apply dict_get_in_keys. rewrite Ht. eauto. }
  destruct (Hmiss tid Hin Hn) as [_ Hh]. split; [exact Hh|].
  rewrite Hh. destruct Hwf as (_ & _ & Hhist). apply Hhist. exact Hin.
Qed.

End SideTracker.

Lemma wf_one_letter : wf one_letter.
Proof. apply (update_has_facts noon [letter 0 0 10 10]). apply wf_init. Qed.



Lemma C10_history_retained_witness :
  SideScreen.tracker.track_history
    (snd (SideScreen.tracker.update noon []
            (snd (SideScreen.tracker.update noon [] one_letter)))) !! 1%nat
  = SideScreen.tracker.track_history
      (snd (SideScreen.tracker.update noon [] one_letter)) !! 1%nat
  /\ exists h,
      SideScreen.tracker.track_history
        (snd (SideScreen.tracker.update noon []
                (snd (SideScreen.tracker.update noon [] one_letter)))) !! 1%nat
      = Some h /\ h <> [].
Proof.
  apply (C10_history_retained noon []
           (snd (SideScreen.tracker.update noon [] one_letter)) 1).
  - apply (update_has_facts noon []). exact wf_one_letter.
  - vm_compute. left. reflexivity.
  - vm_compute. tauto.
Defined.

(** C10 fails as stated: the second of two empty frames deletes track 1,
    and its history still holds the entry of its creation. *)
Lemma C10_counterexample :
  let s1 := snd (SideScreen.tracker.update noon [] one_letter) in
  let s2 := snd (SideScreen.tracker.update noon [] s1) in
  dict_keys (SideScreen.tracker.tracks s1) = [1%nat]
  /\ dict_keys (SideScreen.tracker.tracks s2) = []
  /\ SideScreen.tracker.track_history s2 !! 1%nat
     = Some [SideScreen.tracker.mkHistoryEntry (mkBox 0 0 10 10) 0 0 (1 # 2)].
Proof. vm_compute. repeat split; reflexivity. Qed.

(** ** The RingScreen tracker: what one call of [update] does *)
Section RingTracker.
Import RingScreen.

Lemma accept_pair_inv (tids : list nat) (dets : list Box) (c : Claimed)
    (p : Q * nat * nat) :
  accept_inv tids c -> accept_inv tids (accept_pair tids dets c p).
Proof.
  intros Hinv. pose proof Hinv as [Hu Hin]. unfold accept_pair.
  destruct (tids !! snd p) as [tid|] eqn:Et; [|exact Hinv].
  destruct (dets !! snd (fst p)) as [d|]; [|exact Hinv].
  destruct (bool_decide (tid ∈ used_t c) || bool_decide (snd (fst p) ∈ used_d c));
    [exact Hinv|].
  unfold accept_inv. cbn [used_t results]. split.
  - intros x. rewrite map_app, in_app_iff, elem_of_union, elem_of_singleton, Hu.
    simpl. split; [intros [->|H]; auto|intros [H|[<-|[]]]; auto].
  - intros x Hx. rewrite map_app, in_app_iff in Hx. destruct Hx as [Hx|[<-|[]]].
    + apply Hin. exact Hx.
    + eapply lookup_In. exact Et.
Qed.

Lemma accept_pairs_inv (tids : list nat) (dets : list Box) (pairs : list (Q * nat * nat)) :
  accept_inv tids (accept_pairs tids dets pairs).
Proof.
  unfold accept_pairs.
  assert (accept_inv tids {| used_t := ∅; used_d := ∅; results := [] |}) as H0.
  { split; simpl; [|tauto]. intros tid. split; [|tauto].
    intros H. apply not_elem_of_empty in H. destruct H. }
  revert H0. generalize {| used_t := ∅; used_d := ∅; results := [] |}.
  induction pairs as [|p pairs IH]; intros c Hc; [exact Hc|].
  simpl. apply IH. apply accept_pair_inv. exact Hc.
Qed.

Lemma refresh_keys (trk : list (nat * Track)) (res : list (nat * Box)) :
  dict_keys (refresh trk res) = dict_keys trk.
Proof.
  unfold refresh. revert trk. induction res as [|r res IH]; intros trk; [reflexivity|].
  simpl. rewrite IH. apply dict_keys_alter.
Qed.

Lemma refresh_other (trk : list (nat * Track)) (res : list (nat * Box)) (tid : nat) :
  ~ In tid (map fst res) -> dict_get tid (refresh trk res) = dict_get tid trk.
Proof.
  unfold refresh. revert trk. induction res as [|r res IH]; intros trk Hn; [reflexivity|].
  simpl in *. rewrite IH by tauto. rewrite dict_get_alter.
  destruct (Nat.eqb_spec tid (fst r)) as [->|]; [tauto|reflexivity].
Qed.

Lemma refresh_reset (trk : list (nat * Track)) (res : list (nat * Box)) (tid : nat) :
  In tid (map fst res) -> is_Some (dict_get tid trk) ->
  exists t, dict_get tid (refresh trk res) = Some t /\ missed t = 0%nat.
Proof.
  unfold refresh. revert trk. induction res as [|r res IH]; intros trk Hin Hs; [destruct Hin|].
  cbn [fold_left].
  destruct (in_dec Nat.eq_dec tid (map fst res)) as [Hl|Hl].
  - apply IH; [exact Hl|]. rewrite dict_get_alter.
    destruct (Nat.eqb tid (fst r)); [|exact Hs].
    destruct Hs as [t ->]. simpl. eauto.
  - fold (refresh (dict_alter (fun _ => {| bbox := snd r; missed := 0 |}) (fst r) trk) res).
    rewrite refresh_other by exact Hl. destruct Hin as [<-|Hin]; [|tauto].
    rewrite dict_get_alter, Nat.eqb_refl. destruct Hs as [t ->]. simpl.
    eexists. split; reflexivity.
Qed.

Lemma ring_spawn_loop (used : gset nat) (l : list (nat * Box)) (nid : nat)
    (trk : list (nat * Track)) (res : list (nat * Box)) nid' trk' res' :
  fold_left (spawn used) l (nid, trk, res) = (nid', trk', res') ->
  (nid <= nid')%nat
  /\ (forall tid, (tid < nid)%nat -> dict_get tid trk' = dict_get tid trk)
  /\ (exists new, res' = res ++ new
                  /\ forall tid, In tid (map fst new) -> (nid <= tid < nid')%nat)
  /\ (forall tid, (nid <= tid < nid')%nat ->
      exists t, dict_get tid trk' = Some t /\ missed t = 0%nat)
  /\ ((forall k, In k (dict_keys trk) -> (k < nid)%nat) ->
      dict_keys trk' = dict_keys trk ++ seq nid (nid' - nid)).
Proof.
  revert nid trk res. induction l as [|e l IH]; intros nid trk res.
  - simpl. intros H. inversion H; subst. split; [lia|]. split; [auto|].
    split; [exists []; rewrite app_nil_r; split; [reflexivity|intros tid []]|].
    split; [intros tid Ht; lia|].
    intros _. rewrite Nat.sub_diag. simpl. rewrite app_nil_r. reflexivity.
  - cbn [fold_left]. unfold spawn at 2.
    destruct (bool_decide (fst e ∈ used)); [apply IH|].
    intros H. apply IH in H as (H1 & H2 & (new & H3 & H3') & H4 & H5).
    split; [lia|]. split; [|split; [|split]].
    + intros tid Ht. rewrite H2, dict_get_set by lia.
      destruct (Nat.eqb_spec tid nid); [lia|reflexivity].
    + exists ((nid, snd e) :: new). rewrite H3, <- app_assoc.
      split; [reflexivity|]. intros tid [<-|Hin]; [simpl; lia|].
      specialize (H3' tid Hin). lia.
    + intros tid Ht. destruct (Nat.eq_dec tid nid) as [->|Hne].
      * rewrite H2, dict_get_set, Nat.eqb_refl by lia.
        eexists. split; reflexivity.
      * apply H4. lia.
    + intros Hb. rewrite H5.
      * rewrite dict_keys_set_new
          by (intros Hin; specialize (Hb nid Hin); lia).
        rewrite <- app_assoc. f_equal.
        replace (nid' - nid)%nat with (S (nid' - S nid)) by lia. reflexivity.
      * intros k Hk. rewrite dict_keys_set_new in Hk
          by (intros Hin; specialize (Hb nid Hin); lia).
        apply in_app_iff in Hk as [Hk|[<-|[]]]; [specialize (Hb k Hk)|]; lia.
Qed.

Lemma age_keys (used : gset nat) (tids : list nat) (trk : list (nat * Track)) :
  dict_keys (age used tids trk) = dict_keys trk.
Proof.
  unfold age. revert trk. induction tids as [|k tids IH]; intros trk; [reflexivity|].
  simpl. rewrite IH. destruct (bool_decide (k ∈ used)); [reflexivity|].
  apply dict_keys_alter.
Qed.

Lemma age_other (used : gset nat) (tids : list nat) (trk : list (nat * Track)) (tid : nat) :
  ~ In tid tids \/ tid ∈ used -> dict_get tid (age used tids trk) = dict_get tid trk.
Proof.
  unfold age. revert trk. induction tids as [|k tids IH]; intros trk Hn; [reflexivity|].
  simpl. rewrite IH by (simpl in Hn; tauto).
  destruct (bool_decide (k ∈ used)) eqn:E; [reflexivity|].
  apply bool_decide_eq_false in E. rewrite dict_get_alter.
  destruct (Nat.eqb_spec tid k) as [->|]; [|reflexivity].
  simpl in Hn. tauto.
Qed.

Lemma age_member (used : gset nat) (tids : list nat) (trk : list (nat * Track)) (tid : nat) :
  List.NoDup tids -> In tid tids -> tid ∉ used ->
  dict_get tid (age used tids trk)
  = option_map (fun tr => {| bbox := bbox tr; missed := S (missed tr) |})
      (dict_get tid trk).
Proof.
  unfold age. revert trk. induction tids as [|k tids IH]; intros trk Hd Hin Hu; [destruct Hin|].
  apply List.NoDup_cons_iff in Hd as [Hk Hd]. cbn [fold_left].
  destruct Hin as [->|Hin].
  - rewrite bool_decide_eq_false_2 by exact Hu.
    match goal with |- context [dict_alter ?f tid trk] =>
      change (dict_get tid (age used tids (dict_alter f tid trk)) = option_map f (dict_get tid trk)) end.
    rewrite age_other by tauto. rewrite dict_get_alter, Nat.eqb_refl. reflexivity.
  - rewrite IH by assumption. destruct (bool_decide (k ∈ used)); [reflexivity|].
    rewrite dict_get_alter. destruct (Nat.eqb_spec tid k) as [->|]; [tauto|reflexivity].
Qed.

Lemma sweep_step_get (max : nat) (trk : list (nat * Track)) (k tid : nat) :
  dict_get tid (sweep_step max trk k)
  = if Nat.eqb tid k then swept max (dict_get tid trk) else dict_get tid trk.
Proof.
  unfold sweep_step. destruct (dict_get k trk) as [tr|] eqn:E.
  - destruct (Nat.ltb max (missed tr)) eqn:El.
    + rewrite dict_get_del. destruct (Nat.eqb_spec tid k) as [->|]; [|reflexivity].
      rewrite E. simpl. rewrite El. reflexivity.
    + destruct (Nat.eqb_spec tid k) as [->|]; [|reflexivity].
      rewrite E. simpl. rewrite El. reflexivity.
  - destruct (Nat.eqb_spec tid k) as [->|]; [|reflexivity].
    rewrite E. reflexivity.
Qed.

Lemma swept_idem (max : nat) (o : option Track) : swept max (swept max o) = swept max o.
Proof.
  destruct o as [t|]; [|reflexivity]. simpl.
  destruct (Nat.ltb max (missed t)) eqn:E; [reflexivity|]. simpl. rewrite E. reflexivity.
Qed.

Lemma sweep_loop_get (max : nat) (l : list nat) (trk : list (nat * Track)) (tid : nat) :
  dict_get tid (fold_left (sweep_step max) l trk)
  = if in_dec Nat.eq_dec tid l then swept max (dict_get tid trk) else dict_get tid trk.
Proof.
  revert trk. induction l as [|k l IH]; intros trk; [reflexivity|].
  cbn [fold_left]. rewrite IH, sweep_step_get.
  destruct (in_dec Nat.eq_dec tid l) as [Hl|Hl];
    destruct (in_dec Nat.eq_dec tid (k :: l)) as [Hkl|Hkl];
    destruct (Nat.eqb_spec tid k) as [->|Hne];
    try reflexivity; try apply swept_idem;
    try (exfalso; apply Hkl; simpl; auto; fail).
  destruct Hkl as [Hk|Hk]; [congruence|tauto].
Qed.

Lemma sweep_get (max : nat) (trk : list (nat * Track)) (tid : nat) :
  dict_get tid (sweep max trk) = swept max (dict_get tid trk).
Proof.
  unfold sweep. fold (sweep_step max). rewrite sweep_loop_get.
  destruct (in_dec Nat.eq_dec tid (dict_keys trk)) as [_|Hn]; [reflexivity|].
  apply dict_get_not_in_keys in Hn. rewrite Hn. reflexivity.
Qed.

Lemma sweep_loop_keys (max : nat) (l : list nat) (trk : list (nat * Track)) :
  (forall x, In x (dict_keys (fold_left (sweep_step max) l trk)) -> In x (dict_keys trk))
  /\ (List.NoDup (dict_keys trk) ->
      List.NoDup (dict_keys (fold_left (sweep_step max) l trk))).
Proof.
  revert trk. induction l as [|k l IH]; intros trk; [simpl; auto|].
  cbn [fold_left]. destruct (IH (sweep_step max trk k)) as [H1 H2].
  assert ((forall x, In x (dict_keys (sweep_step max trk k)) -> In x (dict_keys trk))
          /\ (List.NoDup (dict_keys trk) -> List.NoDup (dict_keys (sweep_step max trk k))))
    as [H3 H4].
  { unfold sweep_step. destruct (dict_get k trk) as [tr|]; [|auto].
    destruct (Nat.ltb max (missed tr)); [|auto].
    split; [intros x; apply in_keys_del|apply NoDup_keys_del]. }
  split; auto.
Qed.

Lemma ring_wf_init (thr : Q) (max : nat) : ring_wf (init thr max).
Proof. unfold ring_wf, init. simpl. split; [constructor|intros k []]. Qed.

Lemma ring_update_has_facts (dets : list Box) (s : IoUTracker) :
  ring_wf s -> ring_update_facts s (fst (update dets s)) (snd (update dets s)).
Proof.
  intros (Hd & Hb). unfold update.
  destruct (dict_keys (tracks s)) as [|k0 ks] eqn:Ekeys.
  - destruct (fold_left (spawn ∅) (enumerate dets) (next_id s, tracks s, []))
      as [[nid trk] res] eqn:Esp.
    apply ring_spawn_loop in Esp as (Hn & Hlow & (new & Hres & Hnew) & Hfresh & Hkeys).
    specialize (Hkeys ltac:(rewrite Ekeys; intros k [])). rewrite Ekeys in Hkeys.
    simpl in Hkeys, Hres. subst res.
    unfold ring_update_facts, ring_wf. cbn [fst snd iou_threshold max_missed next_id tracks].
    rewrite Hkeys, Ekeys.
    split; [reflexivity|]. split; [reflexivity|]. split; [exact Hn|].
    split; [split; [apply seq_NoDup|intros k Hk; apply in_seq in Hk; lia]|].
    split; [intros tid []|]. split.
    + intros tid Hin. specialize (Hnew tid Hin). split; [right; exact Hnew|].
      apply Hfresh. exact Hnew.
    + intros tid Hin. apply in_seq in Hin. right. lia.
  - rewrite <- Ekeys in *. clear Ekeys k0 ks.
    set (tids := dict_keys (tracks s)) in *.
    set (c := accept_pairs tids dets
                (sorted_desc (candidate_pairs (iou_threshold s)
                                (iou_matrix dets (tracks s))))).
    destruct (accept_pairs_inv tids dets
                (sorted_desc (candidate_pairs (iou_threshold s)
                                (iou_matrix dets (tracks s))))) as [Hu Hin].
    fold c in Hu, Hin.
    destruct (fold_left (spawn (used_d c)) (enumerate dets)
                (next_id s, refresh (tracks s) (results c), results c))
      as [[nid trk2] res] eqn:Esp.
    apply ring_spawn_loop in Esp as (Hn & Hlow & (new & Hres & Hnew) & Hfresh & Hkeys).
    rewrite refresh_keys in Hkeys. specialize (Hkeys Hb). fold tids in Hkeys.
    set (trk3 := age (used_t c) tids trk2).
    assert (dict_keys trk3 = tids ++ seq (next_id s) (nid - next_id s)) as Hk3
      by (unfold trk3; rewrite age_keys; exact Hkeys).
    destruct (sweep_loop_keys (max_missed s) (dict_keys trk3) trk3) as [Hsub Hnd].
    fold (sweep_step (max_missed s)) in *.
    assert (forall tid, In tid (dict_keys (sweep (max_missed s) trk3)) ->
            In tid tids \/ (next_id s <= tid < nid)%nat) as Hwhere.
    { intros tid Ht. unfold sweep in Ht. fold (sweep_step (max_missed s)) in Ht.
      apply Hsub in Ht. rewrite Hk3 in Ht.
      apply in_app_iff in Ht as [Ht|Ht]; [left; exact Ht|].
      apply in_seq in Ht. right. lia. }
    unfold ring_update_facts, ring_wf.
    cbn [fst snd iou_threshold max_missed next_id tracks].
    rewrite Hres, map_app.
    split; [reflexivity|]. split; [reflexivity|]. split; [exact Hn|].
    split; [|split; [|split]].
    + split.
      * unfold sweep. fold (sweep_step (max_missed s)). apply Hnd. rewrite Hk3.
        apply List.NoDup_app; [exact Hd|apply seq_NoDup|].
        intros a Ha Hs. apply in_seq in Hs. specialize (Hb a Ha). lia.
      * intros k Hk. destruct (Hwhere k Hk) as [Hk'|Hk']; [specialize (Hb k Hk')|]; lia.
    + intros tid Ht Hnot. rewrite in_app_iff in Hnot.
      rewrite sweep_get. unfold trk3. rewrite age_member.
      * rewrite Hlow by (apply Hb; exact Ht). rewrite refresh_other by tauto.
        destruct (dict_get tid (tracks s)) as [t|]; reflexivity.
      * exact Hd.
      * exact Ht.
      * intros Hused. apply Hu in Hused. tauto.
    + intros tid Ht. apply in_app_iff in Ht as [Ht|Ht].
      * assert (In tid tids) as Hk by (apply Hin; exact Ht).
        split; [left; exact Hk|].
        destruct (refresh_reset (tracks s) (results c) tid Ht) as (t & Hg & Hm);
          [apply dict_get_in_keys; exact Hk|].
        exists t. split; [|exact Hm]. rewrite sweep_get. unfold trk3.
        rewrite age_other by (right; apply Hu; exact Ht).
        rewrite Hlow by (apply Hb; exact Hk). rewrite Hg. simpl. rewrite Hm.
        reflexivity.
      * specialize (Hnew tid Ht). split; [right; exact Hnew|].
        destruct (Hfresh tid Hnew) as (t & Hg & Hm).
        exists t. split; [|exact Hm]. rewrite sweep_get. unfold trk3.
        rewrite age_other; [rewrite Hg; simpl; rewrite Hm; reflexivity|].
        left. intros Hk. specialize (Hb tid Hk). lia.
    + exact Hwhere.
Qed.

Lemma ring_run_wf frames s : ring_wf s -> ring_wf (ring_run frames s).
Proof.
  revert s. induction frames as [|f frames IH]; intros s H; [exact H|].
  change (ring_run (f :: frames) s) with (ring_run frames (snd (update f s))).
  apply IH. apply (ring_update_has_facts f s H).
Qed.

Lemma ring_run_never_back frames s tid :
  ring_wf s -> (tid < next_id s)%nat -> ~ In tid (dict_keys (tracks s)) ->
  ~ In tid (dict_keys (tracks (ring_run frames s))).
Proof.
  revert s. induction frames as [|f frames IH]; intros s H Hlt Hn; [exact Hn|].
  change (ring_run (f :: frames) s) with (ring_run frames (snd (update f s))).
  destruct (ring_update_has_facts f s H) as (_ & _ & Hmono & Hw & _ & _ & Hkeys).
  apply IH; [exact Hw|lia|].
  intros Hin. apply Hkeys in Hin as [Hin|Hin]; [tauto|lia].
Qed.

Lemma ring_run_take_S (frames : list (list Box)) (k : nat) (f : list Box) (s : IoUTracker) :
  frames !! k = Some f ->
  ring_run (firstn (S k) frames) s = snd (update f (ring_run (firstn k frames) s)).
Proof.
  intros Hk. change (@firstn) with (@take). rewrite (take_S_r _ _ _ Hk).
  unfold ring_run. rewrite fold_left_app. reflexivity.
Qed.

Lemma ring_unmatched_run (s : IoUTracker) (tid : nat) (t : Track)
    (frames : list (list Box)) :
  ring_wf s ->
  dict_get tid (tracks s) = Some t ->
  (missed t <= max_missed s)%nat ->
  (forall k f, frames !! k = Some f ->
     ~ In tid (map fst (fst (update f (ring_run (firstn k frames) s))))) ->
  forall k, (k <= length frames)%nat ->
    (missed t + k <= S (max_missed s))%nat ->
    max_missed (ring_run (firstn k frames) s) = max_missed s
    /\ dict_get tid (tracks (ring_run (firstn k frames) s))
       = if Nat.ltb (max_missed s) (missed t + k) then None
         else Some {| bbox := bbox t; missed := missed t + k |}.
Proof.
  intros Hwf Hget Hle Hun. induction k as [|k IH]; intros Hk Hm.
  - simpl. split; [reflexivity|]. rewrite Nat.add_0_r.
    replace (Nat.ltb (max_missed s) (missed t)) with false
      by (symmetry; apply Nat.ltb_ge; lia).
    rewrite Hget. destruct t; reflexivity.
  - destruct (lookup_lt_is_Some_2 frames k ltac:(lia)) as [f Hf].
    rewrite (ring_run_take_S _ _ _ _ Hf).
    destruct IH as [IHmax IHget]; [lia|lia|].
    set (sk := ring_run (firstn k frames) s) in *.
    assert (ring_wf sk) as Hwk by (apply ring_run_wf; exact Hwf).
    replace (Nat.ltb (max_missed s) (missed t + k)) with false in IHget
      by (symmetry; apply Nat.ltb_ge; lia).
    destruct (ring_update_has_facts f sk Hwk) as (_ & Hmax & _ & _ & Hmiss & _).
    split; [rewrite Hmax; exact IHmax|].
    rewrite Hmiss.
    + rewrite IHget, IHmax. cbn [ring_miss missed bbox].
      replace (missed t + S k)%nat with (S (missed t + k)) by lia.
      reflexivity.
    + apply dict_get_in_keys. rewrite IHget. eauto.
    + apply Hun. exact Hf.
Qed.

(** Eviction timing of the face tracker. *)
Lemma ring_eviction_timing (s : IoUTracker) (tid : nat) (t : Track)
    (frames : list (list Box)) :
  ring_wf s ->
  dict_get tid (tracks s) = Some t ->
  missed t = 0%nat ->
  length frames = S (max_missed s) ->
  (forall k f, frames !! k = Some f ->
     ~ In tid (map fst (fst (update f (ring_run (firstn k frames) s))))) ->
  (forall k, (1 <= k <= max_missed s)%nat ->
     exists t', dict_get tid (tracks (ring_run (firstn k frames) s)) = Some t'
                /\ missed t' = k)
  /\ dict_get tid (tracks (ring_run frames s)) = None.
Proof.
  intros Hwf Hget Hzero Hlen Hun.
  pose proof (ring_unmatched_run s tid t frames Hwf Hget ltac:(lia) Hun) as H.
  rewrite Hzero in H. split.
  - intros k Hk. destruct (H k) as [_ Hg]; [lia|simpl; lia|].
    simpl in Hg. rewrite Hg.
    replace (Nat.ltb (max_missed s) k) with false
      by (symmetry; apply Nat.ltb_ge; lia).
    eexists. split; reflexivity.
  - destruct (H (length frames)) as [_ Hg]; [lia|simpl; lia|].
    rewrite firstn_all in Hg. rewrite Hg. simpl.
    replace (Nat.ltb (max_missed s) (length frames)) with true
      by (symmetry; apply Nat.ltb_lt; lia).
    reflexivity.
Qed.

End RingTracker.

(** C3. In either tracker, a live track with no missed frame so far that
    goes [max_missed_frames + 1] consecutive updates without a matching
    detection is still live after each of the first [max_missed_frames] of
    them, its missed count being the number of those updates so far, and
    is gone after the last one. *)
Theorem C3_eviction_timing :
  (forall (s : SideScreen.tracker.IoUTracker) (tid : nat)
          (t : SideScreen.tracker.Track)
          (frames : list ((nat -> Q) * list SideScreen.tracker.Detection)),
      wf s ->
      dict_get tid (SideScreen.tracker.tracks s) = Some t ->
      SideScreen.tracker.missed_count t = 0%nat ->
      length frames = S (SideScreen.tracker.max_missed_frames s) ->
      (forall k f, frames !! k = Some f ->
         ~ In tid (ids (fst (SideScreen.tracker.update (fst f) (snd f)
                               (run (firstn k frames) s))))) ->
      (forall k, (1 <= k <= SideScreen.tracker.max_missed_frames s)%nat ->
         exists t', dict_get tid (SideScreen.tracker.tracks (run (firstn k frames) s))
                    = Some t'
                    /\ SideScreen.tracker.missed_count t' = k)
      /\ dict_get tid (SideScreen.tracker.tracks (run frames s)) = None)
  /\ (forall (s : RingScreen.IoUTracker) (tid : nat) (t : RingScreen.Track)
             (frames : list (list Box)),
        ring_wf s ->
        dict_get tid (RingScreen.tracks s) = Some t ->
        RingScreen.missed t = 0%nat ->
        length frames = S (RingScreen.max_missed s) ->
        (forall k f, frames !! k = Some f ->
           ~ In tid (map fst (fst (RingScreen.update f
                                     (ring_run (firstn k frames) s))))) ->
        (forall k, (1 <= k <= RingScreen.max_missed s)%nat ->
           exists t', dict_get tid (RingScreen.tracks (ring_run (firstn k frames) s))
                      = Some t'
                      /\ RingScreen.missed t' = k)
        /\ dict_get tid (RingScreen.tracks (ring_run frames s)) = None).
Proof.
  split.
  - apply side_eviction_timing.
  - apply ring_eviction_timing.
Qed.

Lemma C3_eviction_timing_witness :
  ((forall k, (1 <= k <= 1)%nat ->
      exists t', dict_get 1%nat
                   (SideScreen.tracker.tracks
                      (run (firstn k [(noon, []); (noon, [])]) one_letter)) = Some t'
                 /\ SideScreen.tracker.missed_count t' = k)
   /\ dict_get 1%nat
        (SideScreen.tracker.tracks (run [(noon, []); (noon, [])] one_letter)) = None)
  /\ ((forall k, (1 <= k <= 1)%nat ->
         exists t', dict_get 1%nat
                      (RingScreen.tracks (ring_run (firstn k [[]; []]) one_face))
                    = Some t'
                    /\ RingScreen.missed t' = k)
      /\ dict_get 1%nat (RingScreen.tracks (ring_run [[]; []] one_face)) = None).
Proof.
  split.
  - apply (proj1 C3_eviction_timing one_letter 1%nat
             (SideScreen.tracker.mkTrack (mkBox 0 0 10 10) 0 0 (1 # 2))
             [(noon, []); (noon, [])]).
    + exact wf_one_letter.
    + reflexivity.
    + reflexivity.
    + reflexivity.
    + intros k f Hf. destruct k as [|[|k]]; simpl in Hf; inversion Hf; subst f;
        simpl; tauto.
  - apply (proj2 C3_eviction_timing one_face 1%nat
             (RingScreen.mkTrack (mkBox 0 0 10 10) 0) [[]; []]).
    + apply (ring_update_has_facts [mkBox 0 0 10 10]). apply ring_wf_init.
    + reflexivity.
    + reflexivity.
    + reflexivity.
    + intros k f Hf. destruct k as [|[|k]]; simpl in Hf; inversion Hf; subst f;
        vm_compute; tauto.
Defined.


(** C5. After any sequence of updates from a new tracker, of either
    program, the ids of the live tracks are pairwise distinct, and an id
    that was live at some point and is no longer live later is not live
    after any further updates: a created track gets an id that was never
    used. *)
Theorem C5_ids_unique_never_reused :
  (forall (thr : Q) (max : nat)
          (before between after : list ((nat -> Q) * list SideScreen.tracker.Detection))
          (tid : nat),
      let s1 := run before (SideScreen.tracker.init thr max) in
      let s2 := run between s1 in
      let s3 := run after s2 in
      List.NoDup (dict_keys (SideScreen.tracker.tracks s1))
      /\ (In tid (dict_keys (SideScreen.tracker.tracks s1)) ->
          ~ In tid (dict_keys (SideScreen.tracker.tracks s2)) ->
          ~ In tid (dict_keys (SideScreen.tracker.tracks s3))))
  /\ (forall (thr : Q) (max : nat) (before between after : list (list Box)) (tid : nat),
        let s1 := ring_run before (RingScreen.init thr max) in
        let s2 := ring_run between s1 in
        let s3 := ring_run after s2 in
        List.NoDup (dict_keys (RingScreen.tracks s1))
        /\ (In tid (dict_keys (RingScreen.tracks s1)) ->
            ~ In tid (dict_keys (RingScreen.tracks s2)) ->
            ~ In tid (dict_keys (RingScreen.tracks s3)))).
Proof.
  split.
  - intros thr max before between after tid s1 s2 s3.
    assert (wf s1) as H1 by (apply run_wf, wf_init).
    assert (wf s2) as H2 by (apply run_wf; exact H1).
    split; [apply H1|]. intros Hin Hout.
    apply run_never_back; [exact H2| |exact Hout].
    destruct H1 as (_ & Hb & _). specialize (Hb tid Hin).
    pose proof (run_next_id between s1 ltac:(apply run_wf, wf_init)). fold s2 in H. lia.
  - intros thr max before between after tid s1 s2 s3.
    assert (ring_wf s1) as H1 by (apply ring_run_wf, ring_wf_init).
    assert (ring_wf s2) as H2 by (apply ring_run_wf; exact H1).
    split; [apply H1|]. intros Hin Hout.
    apply ring_run_never_back; [exact H2| |exact Hout].
    destruct H1 as (_ & Hb). specialize (Hb tid Hin).
    assert (forall frames s, ring_wf s ->
              (RingScreen.next_id s <= RingScreen.next_id (ring_run frames s))%nat) as Hmono.
    { clear. intros frames. induction frames as [|f frames IH]; intros s H; [simpl; lia|].
      change (ring_run (f :: frames) s)
        with (ring_run frames (snd (RingScreen.update f s))).
      destruct (ring_update_has_facts f s H) as (_ & _ & Hn & Hw & _).
      specialize (IH _ Hw). lia. }
    specialize (Hmono between s1 ltac:(apply ring_run_wf, ring_wf_init)).
    fold s2 in Hmono. lia.
Qed.

(** ** Continuity of a track over two frames *)
Section Continuity.

Lemma dict_get_lookup {V : Type} (d : list (nat * V)) (j k : nat) (v : V) :
  List.NoDup (dict_keys d) -> d !! j = Some (k, v) -> dict_get k d = Some v.
Proof.
  revert j. induction d as [|[k0 v0] d IH]; intros j Hd Hj; [discriminate|].
  simpl in Hd. apply List.NoDup_cons_iff in Hd as [Hn Hd]. destruct j as [|j]; simpl in *.
  - inversion Hj; subst. rewrite Nat.eqb_refl. reflexivity.
  - destruct (Nat.eqb_spec k k0) as [->|Hne].
    + exfalso. apply Hn. apply lookup_In in Hj.
      change k0 with (fst (k0, v)). apply in_map. exact Hj.
    + eapply IH; eauto.
Qed.

Lemma dict_get_index {V : Type} (d : list (nat * V)) (k : nat) (v : V) :
  dict_get k d = Some v -> exists j, d !! j = Some (k, v).
Proof.
  induction d as [|[k0 v0] d IH]; [discriminate|]. simpl.
  destruct (Nat.eqb_spec k k0) as [->|Hne].
  - intros H. inversion H; subst. exists 0%nat. reflexivity.
  - intros H. destruct (IH H) as [j Hj]. exists (S j). exact Hj.
Qed.

Lemma dict_keys_lookup {V : Type} (d : list (nat * V)) (j k : nat) (v : V) :
  d !! j = Some (k, v) -> dict_keys d !! j = Some k.
Proof. intros H. unfold dict_keys. rewrite list_lookup_fmap, H. reflexivity. Qed.
Import SideScreen.tracker.

(** The scan of one detection's row, nothing claimed yet: a value above
    the running maximum that no other value reaches wins. *)
Lemma best_track_keep (row : list Q) (a : nat) (cur : Q) (idx : option nat) :
  (forall v, In v row -> ~ (cur < v)%Q) ->
  best_track (combine (seq a (length row)) row) ∅ cur idx = idx.
Proof.
  revert a. induction row as [|v row IH]; intros a H; [reflexivity|].
  cbn [length seq combine best_track].
  rewrite bool_decide_eq_false_2 by apply not_elem_of_empty.
  destruct (Qlt_bool cur v) eqn:E.
  - apply Qlt_bool_iff in E. exfalso. apply (H v); [left; reflexivity|exact E].
  - apply IH. intros v' Hv'. apply H. right. exact Hv'.
Qed.

Lemma best_track_max (row : list Q) (a : nat) (cur : Q) (idx : option nat)
    (j : nat) (v : Q) :
  row !! j = Some v ->
  (cur < v)%Q ->
  (forall j' v', j' <> j -> row !! j' = Some v' -> (v' < v)%Q) ->
  best_track (combine (seq a (length row)) row) ∅ cur idx = Some (a + j)%nat.
Proof.
  revert a cur idx j. induction row as [|x row IH]; intros a cur idx j Hj Hc Hmax;
    [discriminate|].
  cbn [length seq combine best_track].
  rewrite bool_decide_eq_false_2 by apply not_elem_of_empty.
  destruct j as [|j].
  - simpl in Hj. inversion Hj; subst x.
    apply Qlt_bool_iff in Hc. rewrite Hc, Nat.add_0_r.
    apply best_track_keep. intros v' Hv' Hlt.
    destruct (In_lookup _ _ Hv') as [j' Hj'].
    specialize (Hmax (S j') v' ltac:(lia) Hj').
    exact (Qlt_irrefl _ (Qlt_trans _ _ _ Hlt Hmax)).
  - simpl in Hj. assert (x < v)%Q as Hx by (apply (Hmax 0%nat); [lia|reflexivity]).
    replace (a + S j)%nat with (S a + j)%nat by lia.
    destruct (Qlt_bool cur x); apply IH; auto;
      intros j' v' Hne Hj'; apply (Hmax (S j')); auto; lia.
Qed.

Lemma best_track_range (row : list Q) (T : gset nat) (a : nat) (cur : Q)
    (idx : option nat) (i : nat) :
  best_track (combine (seq a (length row)) row) T cur idx = Some i ->
  idx = Some i \/ (a <= i < a + length row)%nat.
Proof.
  revert a cur idx. induction row as [|x row IH]; intros a cur idx; [simpl; auto|].
  cbn [length seq combine best_track].
  destruct (bool_decide (a ∈ T)); [|destruct (Qlt_bool cur x)];
    intros H; apply IH in H as [H|H]; auto; try (right; lia).
  inversion H; subst. right. lia.
Qed.

Lemma single_update_new (clock : nat -> Q) (d : Detection) (s : IoUTracker) :
  wf s ->
  tracks s = [] \/ best_track (enumerate (row_of d (tracks s))) ∅ (iou_threshold s) None = None ->
  fst (update clock [d] s) = [resolved (next_id s) d]
  /\ dict_get (next_id s) (tracks (snd (update clock [d] s))) = Some (track_of d).
Proof.
  intros (Hd & Hb & _) Hcase. unfold update.
  cbn [enumerate length seq combine fold_left].
  match goal with |- context [if ?c then ?a else ?b] =>
    assert ((if c then a else b) = b) as -> end.
  { destruct Hcase as [->|Hbest]; [reflexivity|].
    destruct (Nat.ltb 0 (length (tracks s))); [|reflexivity].
    unfold match_detection.
    cbn [fst snd iou_matrix map lookup list_lookup default from_option]. unfold id.
    fold (row_of d (tracks s)). unfold enumerate in Hbest. cbn [tracked_tracks].
    unfold enumerate. rewrite Hbest. reflexivity. }
  unfold spawn. cbn [fst snd tracked_dets m_tracks m_history result].
  rewrite bool_decide_eq_false_2 by apply not_elem_of_empty.
  cbn [fst snd tracks app]. split; [reflexivity|].
  fold (enumerate (dict_keys (tracks s))). rewrite age_loop_eq.
  rewrite age_all_other.
  - rewrite dict_get_set, Nat.eqb_refl. reflexivity.
  - intros Hin. apply in_unmatched_ids in Hin as (j & Hj & _).
    apply lookup_In in Hj. specialize (Hb _ Hj). lia.
Qed.

Lemma single_update_matched (clock : nat -> Q) (d : Detection) (s : IoUTracker)
    (idx track_id : nat) :
  wf s ->
  best_track (enumerate (row_of d (tracks s))) ∅ (iou_threshold s) None = Some idx ->
  dict_keys (tracks s) !! idx = Some track_id ->
  fst (update clock [d] s) = [resolved track_id d]
  /\ dict_get track_id (tracks (snd (update clock [d] s))) = Some (track_of d).
Proof.
  intros (Hd & Hb & _) Hbest Hidx. unfold update.
  cbn [enumerate length seq combine fold_left].
  assert (Nat.ltb 0 (length (tracks s)) = true) as ->.
  { apply Nat.ltb_lt. apply lookup_lt_Some in Hidx.
    unfold dict_keys in Hidx. rewrite length_map in Hidx. lia. }
  unfold match_detection. cbn [fst snd iou_matrix map lookup list_lookup default from_option].
  unfold id.
  fold (row_of d (tracks s)). cbn [tracked_tracks].
  rewrite Hbest, Hidx.
  unfold spawn. cbn [fst snd tracked_dets m_tracks m_history result tracked_tracks].
  rewrite bool_decide_eq_true_2
    by (apply elem_of_union_l, elem_of_singleton; reflexivity).
  cbn [fst snd tracks app]. split; [reflexivity|].
  fold (enumerate (dict_keys (tracks s))). rewrite age_loop_eq.
  rewrite age_all_other.
  - rewrite dict_get_alter, Nat.eqb_refl.
    assert (is_Some (dict_get track_id (tracks s))) as [t0 ->]
      by (apply dict_get_in_keys; eapply lookup_In; exact Hidx).
    reflexivity.
  - intros Hin. apply in_unmatched_ids in Hin as (j & Hj & Hn).
    assert (j = idx) by exact (NoDup_lookup_eq _ j idx track_id Hd Hj Hidx).
    subst j. apply Hn. apply elem_of_union_l, elem_of_singleton. reflexivity.
Qed.

(** A call with one detection resolves it to one track, which then holds
    the detection's box. *)
Lemma single_update (clock : nat -> Q) (d : Detection) (s : IoUTracker) :
  wf s ->
  exists tid,
    fst (update clock [d] s) = [resolved tid d]
    /\ dict_get tid (tracks (snd (update clock [d] s))) = Some (track_of d).
Proof.
  intros Hwf.
  destruct (best_track (enumerate (row_of d (tracks s))) ∅ (iou_threshold s) None)
    as [idx|] eqn:Hbest.
  - pose proof Hbest as Hr. unfold enumerate in Hr.
    apply best_track_range in Hr as [Hr|Hr]; [discriminate|].
    unfold row_of in Hr. rewrite length_map in Hr.
    destruct (lookup_lt_is_Some_2 (dict_keys (tracks s)) idx) as [track_id Hidx].
    { unfold dict_keys. rewrite length_map. lia. }
    exists track_id. eapply single_update_matched; eauto.
  - exists (next_id s). apply single_update_new; auto.
Qed.

(** A next call with one detection goes to the track [tid] when the
    overlap with its box is above the threshold and above the overlap
    with every other live track. *)
Lemma single_update_same (clock : nat -> Q) (d' : Detection) (s : IoUTracker)
    (tid : nat) (t : Track) :
  wf s ->
  dict_get tid (tracks s) = Some t ->
  (iou_threshold s < _calculate_iou (d_bbox d') (bbox t))%Q ->
  (forall k t', dict_get k (tracks s) = Some t' -> k <> tid ->
     (_calculate_iou (d_bbox d') (bbox t') < _calculate_iou (d_bbox d') (bbox t))%Q) ->
  fst (update clock [d'] s) = [resolved tid d'].
Proof.
  intros Hwf Hget Hthr Hmax. pose proof Hwf as (Hd & _).
  destruct (dict_get_index _ _ _ Hget) as [j Hj].
  apply (single_update_matched clock d' s j tid Hwf).
  - unfold enumerate. rewrite (best_track_max _ 0 _ None j (_calculate_iou (d_bbox d') (bbox t))).
    + reflexivity.
    + unfold row_of. rewrite list_lookup_fmap, Hj. reflexivity.
    + exact Hthr.
    + intros j' v' Hne Hj'. unfold row_of in Hj'. rewrite list_lookup_fmap in Hj'.
      destruct (tracks s !! j') as [[k t']|] eqn:E; [|discriminate].
      simpl in Hj'. inversion Hj'; subst v'. apply (Hmax k).
      * eapply dict_get_lookup; eauto.
      * intros ->. apply Hne.
        exact (NoDup_lookup_eq _ j' j tid Hd (dict_keys_lookup _ _ _ _ E)
                 (dict_keys_lookup _ _ _ _ Hj)).
  - eapply dict_keys_lookup. exact Hj.
Qed.

(** *** The same for the RingScreen tracker *)
Lemma in_insert_desc (x y : Q * nat * nat) (l : list (Q * nat * nat)) :
  In y (RingScreen.insert_desc x l) <-> y = x \/ In y l.
Proof.
  induction l as [|z l IH]; simpl; [intuition congruence|].
  destruct (Qlt_bool (fst (fst x)) (fst (fst z))); simpl; [rewrite IH|];
    intuition congruence.
Qed.

Lemma in_sorted_desc (y : Q * nat * nat) (l : list (Q * nat * nat)) :
  In y (RingScreen.sorted_desc l) <-> In y l.
Proof.
  unfold RingScreen.sorted_desc. induction l as [|x l IH]; simpl; [tauto|].
  rewrite in_insert_desc, IH. intuition congruence.
Qed.

(** The pair whose IoU is above all others comes first after sorting. *)
Lemma sorted_desc_head (l1 l2 : list (Q * nat * nat)) (p : Q * nat * nat) :
  (forall y, In y (l1 ++ l2) -> (fst (fst y) < fst (fst p))%Q) ->
  exists rest, RingScreen.sorted_desc (l1 ++ p :: l2) = p :: rest.
Proof.
  induction l1 as [|x l1 IH]; intros H.
  - simpl in *. unfold RingScreen.sorted_desc. cbn [fold_right].
    fold (RingScreen.sorted_desc l2).
    destruct (RingScreen.sorted_desc l2) as [|y rest] eqn:E; [exists []; reflexivity|].
    cbn [RingScreen.insert_desc].
    assert (fst (fst y) < fst (fst p))%Q as Hy
      by (apply H, in_sorted_desc; rewrite E; left; reflexivity).
    destruct (Qlt_bool (fst (fst p)) (fst (fst y))) eqn:El; [|eauto].
    apply Qlt_bool_iff in El. exfalso.
    exact (Qlt_irrefl _ (Qlt_trans _ _ _ El Hy)).
  - destruct IH as [rest Hr]; [intros y Hy; apply H; right; exact Hy|].
    change (RingScreen.sorted_desc ((x :: l1) ++ p :: l2))
      with (RingScreen.insert_desc x (RingScreen.sorted_desc (l1 ++ p :: l2))).
    rewrite Hr. cbn [RingScreen.insert_desc].
    assert (Qlt_bool (fst (fst x)) (fst (fst p)) = true) as ->
      by (apply Qlt_bool_iff, H; left; reflexivity).
    eauto.
Qed.

Lemma row_pairs_app (thr : Q) (a : nat) (r1 r2 : list Q) :
  row_pairs thr a (r1 ++ r2)
  = row_pairs thr a r1 ++ row_pairs thr (a + length r1) r2.
Proof.
  unfold row_pairs. revert a. induction r1 as [|x r1 IH]; intros a.
  - simpl. rewrite Nat.add_0_r. reflexivity.
  - cbn [app length seq combine flat_map]. rewrite IH, <- app_assoc.
    replace (S a + length r1)%nat with (a + S (length r1))%nat by lia. reflexivity.
Qed.

Lemma row_pairs_in (thr : Q) (a : nat) (row : list Q) (p : Q * nat * nat) :
  In p (row_pairs thr a row) -> snd (fst p) = 0%nat /\ In (fst (fst p)) row.
Proof.
  unfold row_pairs. revert a. induction row as [|x row IH]; intros a; [intros []|].
  cbn [length seq combine flat_map]. rewrite in_app_iff. intros [H|H].
  - cbn [fst snd] in H. destruct (Qle_bool thr x); [|destruct H].
    destruct H as [<-|[]]. simpl. auto.
  - apply IH in H as [H1 H2]. split; [exact H1|right; exact H2].
Qed.

Lemma candidate_pairs_single (thr : Q) (row : list Q) :
  RingScreen.candidate_pairs thr [row] = row_pairs thr 0 row.
Proof.
  unfold RingScreen.candidate_pairs, row_pairs, enumerate.
  cbn [length seq combine flat_map fst snd]. apply app_nil_r.
Qed.
Import RingScreen.

(** Once detection 0 is claimed, no pair of it is accepted. *)
Lemma accept_pair_claimed (tids : list nat) (dets : list Box) (c : Claimed)
    (p : Q * nat * nat) :
  snd (fst p) ∈ used_d c -> accept_pair tids dets c p = c.
Proof.
  intros H. unfold accept_pair.
  destruct (tids !! snd p); [|reflexivity]. destruct (dets !! snd (fst p)); [|reflexivity].
  rewrite (bool_decide_eq_true_2 _ H), orb_true_r. reflexivity.
Qed.

Lemma accept_pairs_single (tids : list nat) (d : Box) (p : Q * nat * nat)
    (rest : list (Q * nat * nat)) (tid : nat) :
  snd (fst p) = 0%nat -> tids !! snd p = Some tid ->
  (forall q, In q rest -> snd (fst q) = 0%nat) ->
  accept_pairs tids [d] (p :: rest)
  = {| used_t := {[tid]} ∪ ∅; used_d := {[0%nat]} ∪ ∅; results := [(tid, d)] |}.
Proof.
  intros Hi Hj Hrest. unfold accept_pairs. cbn [fold_left].
  unfold accept_pair at 2. rewrite Hi, Hj. cbn [lookup list_lookup used_t used_d results].
  rewrite !bool_decide_eq_false_2 by apply not_elem_of_empty. cbn [orb app].
  induction rest as [|q rest IH]; [reflexivity|].
  cbn [fold_left]. rewrite accept_pair_claimed.
  - apply IH. intros q' Hq'. apply Hrest. right. exact Hq'.
  - rewrite (Hrest q ltac:(left; reflexivity)). cbn [used_d].
    apply elem_of_union_l, elem_of_singleton. reflexivity.
Qed.

Lemma ring_single_new (d : Box) (s : IoUTracker) :
  ring_wf s ->
  row_pairs (iou_threshold s) 0 (ring_row d (tracks s)) = [] ->
  fst (update [d] s) = [(next_id s, d)]
  /\ dict_get (next_id s) (tracks (snd (update [d] s)))
     = Some {| bbox := d; missed := 0 |}.
Proof.
  intros (Hd & Hb) Hnone. unfold update.
  destruct (dict_keys (tracks s)) as [|k0 ks] eqn:Ekeys.
  - cbn [enumerate length seq combine fold_left]. unfold spawn. cbn [fst snd].
    rewrite bool_decide_eq_false_2 by apply not_elem_of_empty.
    cbn [fst snd tracks app]. split; [reflexivity|].
    rewrite dict_get_set, Nat.eqb_refl. reflexivity.
  - rewrite <- Ekeys in *. clear Ekeys k0 ks.
    cbn [iou_matrix map]. fold (ring_row d (tracks s)).
    rewrite candidate_pairs_single, Hnone.
    cbn [sorted_desc fold_right accept_pairs fold_left used_d used_t results refresh].
    cbn [enumerate length seq combine fold_left]. unfold spawn. cbn [fst snd].
    rewrite bool_decide_eq_false_2 by apply not_elem_of_empty.
    cbn [fst snd tracks app]. split; [reflexivity|].
    rewrite sweep_get, age_other.
    + rewrite dict_get_set, Nat.eqb_refl. reflexivity.
    + left. intros Hin. specialize (Hb _ Hin). lia.
Qed.

Lemma ring_single_matched (d : Box) (s : IoUTracker) (p : Q * nat * nat)
    (rest : list (Q * nat * nat)) (tid : nat) :
  ring_wf s ->
  sorted_desc (row_pairs (iou_threshold s) 0 (ring_row d (tracks s))) = p :: rest ->
  dict_keys (tracks s) !! snd p = Some tid ->
  fst (update [d] s) = [(tid, d)]
  /\ dict_get tid (tracks (snd (update [d] s))) = Some {| bbox := d; missed := 0 |}.
Proof.
  intros (Hd & Hb) Hsort Hj. unfold update.
  destruct (dict_keys (tracks s)) as [|k0 ks] eqn:Ekeys; [discriminate|].
  rewrite <- Ekeys in *. clear Ekeys k0 ks.
  cbn [iou_matrix map]. fold (ring_row d (tracks s)).
  rewrite candidate_pairs_single, Hsort.
  rewrite (accept_pairs_single _ d p rest tid).
  - cbn [used_d used_t results refresh fold_left fst snd].
    cbn [enumerate length seq combine fold_left]. unfold spawn. cbn [fst snd].
    rewrite bool_decide_eq_true_2
      by (apply elem_of_union_l, elem_of_singleton; reflexivity).
    cbn [fst snd tracks]. split; [reflexivity|].
    rewrite sweep_get, age_other
      by (right; apply elem_of_union_l, elem_of_singleton; reflexivity).
    rewrite dict_get_alter, Nat.eqb_refl.
    assert (is_Some (dict_get tid (tracks s))) as [t0 ->]
      by (apply dict_get_in_keys; eapply lookup_In; exact Hj).
    reflexivity.
  - assert (In p (row_pairs (iou_threshold s) 0 (ring_row d (tracks s)))) as Hp
      by (apply in_sorted_desc; rewrite Hsort; left; reflexivity).
    apply row_pairs_in in Hp. tauto.
  - exact Hj.
  - intros q Hq.
    assert (In q (row_pairs (iou_threshold s) 0 (ring_row d (tracks s)))) as Hp
      by (apply in_sorted_desc; rewrite Hsort; right; exact Hq).
    apply row_pairs_in in Hp. tauto.
Qed.

Lemma row_pairs_index (thr : Q) (a : nat) (row : list Q) (p : Q * nat * nat) :
  In p (row_pairs thr a row) -> (a <= snd p < a + length row)%nat.
Proof.
  unfold row_pairs. revert a. induction row as [|x row IH]; intros a; [intros []|].
  cbn [length seq combine flat_map]. rewrite in_app_iff. intros [H|H].
  - cbn [fst snd] in H. destruct (Qle_bool thr x); [|destruct H].
    destruct H as [<-|[]]. simpl. lia.
  - apply IH in H. lia.
Qed.

Lemma ring_single_update (d : Box) (s : IoUTracker) :
  ring_wf s ->
  exists tid,
    fst (update [d] s) = [(tid, d)]
    /\ dict_get tid (tracks (snd (update [d] s))) = Some {| bbox := d; missed := 0 |}.
Proof.
  intros Hwf.
  destruct (sorted_desc (row_pairs (iou_threshold s) 0 (ring_row d (tracks s))))
    as [|p rest] eqn:Hsort.
  - exists (next_id s). apply ring_single_new; [exact Hwf|].
    destruct (row_pairs _ _ _) as [|q l] eqn:E; [reflexivity|].
    assert (In q (sorted_desc (q :: l))) as Hq by (apply in_sorted_desc; left; reflexivity).
    rewrite Hsort in Hq. destruct Hq.
  - assert (In p (row_pairs (iou_threshold s) 0 (ring_row d (tracks s)))) as Hp
      by (apply in_sorted_desc; rewrite Hsort; left; reflexivity).
    apply row_pairs_index in Hp. unfold ring_row in Hp. rewrite length_map in Hp.
    destruct (lookup_lt_is_Some_2 (dict_keys (tracks s)) (snd p)) as [tid Hj].
    { unfold dict_keys. rewrite length_map. lia. }
    exists tid. eapply ring_single_matched; eauto.
Qed.

(** A next call with one detection goes to the track [tid] when the
    overlap with its box reaches the threshold and is above the overlap
    with every other live track. *)
Lemma ring_single_same (d' : Box) (s : IoUTracker) (tid : nat) (t : Track) :
  ring_wf s ->
  dict_get tid (tracks s) = Some t ->
  (iou_threshold s <= iou (bbox t) d')%Q ->
  (forall k t', dict_get k (tracks s) = Some t' -> k <> tid ->
     (iou (bbox t') d' < iou (bbox t) d')%Q) ->
  fst (update [d'] s) = [(tid, d')].
Proof.
  intros Hwf Hget Hthr Hmax. pose proof Hwf as (Hd & _).
  destruct (dict_get_index _ _ _ Hget) as [j Hj].
  set (row := ring_row d' (tracks s)). set (v := iou (bbox t) d').
  assert (row !! j = Some v) as Hrow
    by (unfold row, ring_row; rewrite list_lookup_fmap, Hj; reflexivity).
  assert (forall j' v', j' <> j -> row !! j' = Some v' -> (v' < v)%Q) as Hothers.
  { intros j' v' Hne Hj'. unfold row, ring_row in Hj'. rewrite list_lookup_fmap in Hj'.
    destruct (tracks s !! j') as [[k t']|] eqn:E; [|discriminate].
    simpl in Hj'. inversion Hj'; subst v'. apply (Hmax k).
    - eapply dict_get_lookup; eauto.
    - intros ->. apply Hne.
      exact (NoDup_lookup_eq _ j' j tid Hd (dict_keys_lookup _ _ _ _ E)
               (dict_keys_lookup _ _ _ _ Hj)). }
  assert (exists rest, sorted_desc (row_pairs (iou_threshold s) 0 row) = (v, 0%nat, j) :: rest)
    as [rest Hsort].
  { replace (row_pairs (iou_threshold s) 0 row)
      with (row_pairs (iou_threshold s) 0 (take j row ++ v :: drop (S j) row))
      by (rewrite (take_drop_middle row j v Hrow); reflexivity).
    rewrite row_pairs_app. cbn [row_pairs length seq combine flat_map fst snd].
    assert (length (take j row) = j) as ->
      by (apply length_take_le; apply lookup_lt_Some in Hrow; lia).
    apply Qle_bool_iff in Hthr. fold v in Hthr. rewrite Hthr. cbn [app Nat.add].
    apply sorted_desc_head. intros y Hy. cbn [fst].
    apply in_app_iff in Hy as [Hy|Hy]; apply row_pairs_in in Hy as [_ Hy];
      apply In_lookup in Hy as [i Hi].
    - apply lookup_take_Some in Hi as [Hi Hlt]. apply (Hothers i); [lia|exact Hi].
    - rewrite lookup_drop in Hi. apply (Hothers (S j + i)%nat); [lia|exact Hi]. }
  apply (ring_single_matched d' s (v, 0%nat, j) rest tid Hwf Hsort).
  eapply dict_keys_lookup. exact Hj.
Qed.

End Continuity.

(** C4 (as amended). A call of [update] with a single detection [d]
    resolves it to one track id; a following call with a single detection
    [d'] resolves to the same id when the IoU of the two boxes is strictly
    above [iou_threshold] for the SideScreen tracker, at least
    [iou_threshold] for the RingScreen tracker, and above the IoU of [d']
    with every other live track. *)
Theorem C4_track_continuity :
  (forall (clock1 clock2 : nat -> Q) (s : SideScreen.tracker.IoUTracker)
          (d d' : SideScreen.tracker.Detection),
      wf s ->
      let r1 := SideScreen.tracker.update clock1 [d] s in
      let r2 := SideScreen.tracker.update clock2 [d'] (snd r1) in
      let overlap := SideScreen.tracker._calculate_iou
                       (SideScreen.tracker.d_bbox d') (SideScreen.tracker.d_bbox d) in
      (SideScreen.tracker.iou_threshold s < overlap)%Q ->
      (forall k t,
          dict_get k (SideScreen.tracker.tracks (snd r1)) = Some t ->
          ~ In k (ids (fst r1)) ->
          (SideScreen.tracker._calculate_iou (SideScreen.tracker.d_bbox d')
             (SideScreen.tracker.bbox t) < overlap)%Q) ->
      exists tid, ids (fst r1) = [tid] /\ ids (fst r2) = [tid])
  /\ (forall (s : RingScreen.IoUTracker) (d d' : Box),
        ring_wf s ->
        let r1 := RingScreen.update [d] s in
        let r2 := RingScreen.update [d'] (snd r1) in
        (RingScreen.iou_threshold s <= RingScreen.iou d d')%Q ->
        (forall k t,
            dict_get k (RingScreen.tracks (snd r1)) = Some t ->
            ~ In k (map fst (fst r1)) ->
            (RingScreen.iou (RingScreen.bbox t) d' < RingScreen.iou d d')%Q) ->
        exists tid, map fst (fst r1) = [tid] /\ map fst (fst r2) = [tid]).
Proof.
  split.
  - intros clock1 clock2 s d d' Hwf r1 r2 overlap Hthr Hmax.
    destruct (single_update clock1 d s Hwf) as (tid & Hres & Hget).
    fold r1 in Hres, Hget. exists tid. rewrite Hres. split; [reflexivity|].
    destruct (update_has_facts clock1 [d] s Hwf) as (Hsame & _ & _ & Hwf1 & _).
    fold r1 in Hsame, Hwf1. subst r2.
    rewrite (single_update_same clock2 d' (snd r1) tid _ Hwf1 Hget); [reflexivity| |].
    + rewrite Hsame. exact Hthr.
    + intros k t' Hk Hne. apply (Hmax k); [exact Hk|].
      rewrite Hres. simpl. intros [E|[]]. congruence.
  - intros s d d' Hwf r1 r2 Hthr Hmax.
    destruct (ring_single_update d s Hwf) as (tid & Hres & Hget).
    fold r1 in Hres, Hget. exists tid. rewrite Hres. split; [reflexivity|].
    destruct (ring_update_has_facts [d] s Hwf) as (Hsame & _ & _ & Hwf1 & _).
    fold r1 in Hsame, Hwf1. subst r2.
    rewrite (ring_single_same d' (snd r1) tid _ Hwf1 Hget); [reflexivity| |].
    + rewrite Hsame. exact Hthr.
    + intros k t' Hk Hne. apply (Hmax k); [exact Hk|].
      rewrite Hres. simpl. intros [E|[]]. congruence.
Qed.

Lemma C4_track_continuity_witness :
  (exists tid,
      ids (fst (SideScreen.tracker.update noon [letter 0 0 9 10]
                  (SideScreen.tracker.init (3 # 10) 30))) = [tid]
      /\ ids (fst (SideScreen.tracker.update noon [letter 1 0 10 10]
                    (snd (SideScreen.tracker.update noon [letter 0 0 9 10]
                            (SideScreen.tracker.init (3 # 10) 30))))) = [tid])
  /\ (exists tid,
        map fst (fst (RingScreen.update [box_a] (RingScreen.init (4 # 5) 20))) = [tid]
        /\ map fst (fst (RingScreen.update [box_b]
                          (snd (RingScreen.update [box_a]
                                  (RingScreen.init (4 # 5) 20))))) = [tid]).
Proof.
  split.
  - apply (proj1 C4_track_continuity noon noon (SideScreen.tracker.init (3 # 10) 30)
             (letter 0 0 9 10) (letter 1 0 10 10)).
    + apply wf_init.
    + reflexivity.
    + intros k t Hk Hn. exfalso. apply Hn. revert Hk. vm_compute.
      destruct k as [|[|k]]; [discriminate|intros _; left; reflexivity|discriminate].
  - apply (proj2 C4_track_continuity (RingScreen.init (4 # 5) 20) box_a box_b).
    + apply ring_wf_init.
    + vm_compute. discriminate.
    + intros k t Hk Hn. exfalso. apply Hn. revert Hk. vm_compute.
      destruct k as [|[|k]]; [discriminate|intros _; left; reflexivity|discriminate].
Defined.

(** C4 fails as stated: with the threshold 0.8 of [modules/config.py] and
    two boxes whose IoU is exactly 0.8, the letter tracker gives the second
    box a new id. *)
Lemma C4_counterexample :
  let s0 := SideScreen.tracker.init (4 # 5) 30 in
  let r1 := SideScreen.tracker.update noon [letter 0 0 9 10] s0 in
  let r2 := SideScreen.tracker.update noon [letter 1 0 10 10] (snd r1) in
  (SideScreen.tracker._calculate_iou box_b box_a == 4 # 5)%Q
  /\ ids (fst r1) = [1%nat]
  /\ ids (fst r2) = [2%nat].
Proof. vm_compute. repeat split; reflexivity. Qed.

(** Why C4 asks that no other live track overlaps the second box more: a box
    that starts track 2 beside track 1, then moves towards track 1, is
    resolved to track 1, its IoU with its own previous box (60/140) being
    at least the threshold all the same. *)
Example rival_track_takes_detection :
  let s0 := snd (RingScreen.update [mkBox 0 0 10 10] (RingScreen.init (3 # 10) 20)) in
  let r1 := RingScreen.update [mkBox 6 0 16 10] s0 in
  let r2 := RingScreen.update [mkBox 2 0 12 10] (snd r1) in
  Qle_bool (3 # 10) (RingScreen.iou (mkBox 6 0 16 10) (mkBox 2 0 12 10)) = true
  /\ map fst (fst r1) = [2%nat]
  /\ map fst (fst r2) = [1%nat].
Proof. vm_compute. repeat split; reflexivity. Qed.

(** ** The matching policy of the RingScreen tracker *)
Section RingPolicy.
Import RingScreen.

Lemma insert_desc_perm (x : Q * nat * nat) (l : list (Q * nat * nat)) :
  Permutation (insert_desc x l) (x :: l).
Proof.
  induction l as [|y l IH]; simpl; [reflexivity|].
  destruct (Qlt_bool (fst (fst x)) (fst (fst y))); [|reflexivity].
  rewrite IH. apply perm_swap.
Qed.

Lemma sorted_desc_perm (l : list (Q * nat * nat)) : Permutation (sorted_desc l) l.
Proof.
  unfold sorted_desc. induction l as [|x l IH]; simpl; [reflexivity|].
  rewrite insert_desc_perm. apply perm_skip. exact IH.
Qed.

Lemma insert_desc_sorted (x : Q * nat * nat) (l : list (Q * nat * nat)) :
  StronglySorted by_iou_desc l -> StronglySorted by_iou_desc (insert_desc x l).
Proof.
  induction 1 as [|y l Hs IH Hall]; simpl; [repeat constructor|].
  destruct (Qlt_bool (fst (fst x)) (fst (fst y))) eqn:E.
  - apply Qlt_bool_iff in E. constructor; [exact IH|].
    apply List.Forall_forall. intros z Hz. apply in_insert_desc in Hz as [->|Hz].
    + unfold by_iou_desc. apply Qlt_le_weak. exact E.
    + rewrite List.Forall_forall in Hall. apply Hall. exact Hz.
  - assert (fst (fst y) <= fst (fst x))%Q as Hle.
    { apply Qnot_lt_le. intros Hlt. apply Qlt_bool_iff in Hlt. congruence. }
    constructor; [constructor; assumption|].
    constructor; [exact Hle|].
    rewrite List.Forall_forall in Hall |- *. intros z Hz. unfold by_iou_desc.
    apply Qle_trans with (fst (fst y)); [apply Hall; exact Hz|exact Hle].
Qed.

Lemma sorted_desc_sorted (l : list (Q * nat * nat)) :
  StronglySorted by_iou_desc (sorted_desc l).
Proof.
  unfold sorted_desc. induction l as [|x l IH]; simpl; [constructor|].
  apply insert_desc_sorted. exact IH.
Qed.

Lemma by_id_sorted (tids : list nat) (l : list (Q * nat * nat)) :
  StronglySorted by_iou_desc l -> StronglySorted by_iou_desc (map (by_id tids) l).
Proof.
  induction 1 as [|y l Hs IH Hall]; simpl; constructor; [exact IH|].
  rewrite List.Forall_forall in Hall |- *. intros z Hz.
  apply in_map_iff in Hz as [z' [<- Hz']]. apply (Hall z' Hz').
Qed.

Lemma row_candidates (thr : Q) (d : Box) (i a : nat) (pre trk : list (nat * Track)) :
  a = length pre ->
  map (by_id (dict_keys (pre ++ trk)))
    (flat_map (fun jv => if Qle_bool thr (snd jv) then [(snd jv, i, fst jv)] else [])
       (combine (seq a (length (map (fun e => iou (bbox (snd e)) d) trk)))
          (map (fun e => iou (bbox (snd e)) d) trk)))
  = flat_map (fun kt => if Qle_bool thr (iou (snd kt) d)
                        then [(iou (snd kt) d, i, fst kt)] else [])
      (map (fun e => (fst e, bbox (snd e))) trk).
Proof.
  revert a pre. induction trk as [|e trk IH]; intros a pre Ha; [reflexivity|].
  cbn [map length seq combine flat_map fst snd]. rewrite map_app.
  replace (pre ++ e :: trk) with ((pre ++ [e]) ++ trk) by (rewrite <- app_assoc; reflexivity).
  rewrite (IH (S a) (pre ++ [e])) by (rewrite length_app; simpl; lia).
  f_equal. destruct (Qle_bool thr (iou (bbox (snd e)) d)); [|reflexivity].
  cbn [map]. unfold by_id. cbn [fst snd]. f_equal. f_equal.
  unfold dict_keys. rewrite list_lookup_fmap.
  rewrite lookup_app_l by (rewrite length_app; simpl; lia).
  rewrite lookup_app_r by lia. subst a. rewrite Nat.sub_diag. reflexivity.
Qed.

Lemma matrix_candidates (thr : Q) (a : nat) (dets : list Box) (trk : list (nat * Track)) :
  map (by_id (dict_keys trk))
    (flat_map (fun ir =>
       flat_map (fun jv =>
         if Qle_bool thr (snd jv) then [(snd jv, fst ir, fst jv)] else [])
         (enumerate (snd ir)))
       (combine (seq a (length (iou_matrix dets trk))) (iou_matrix dets trk)))
  = flat_map (fun id =>
      flat_map (fun kt =>
        if Qle_bool thr (iou (snd kt) (snd id))
        then [(iou (snd kt) (snd id), fst id, fst kt)] else [])
        (map (fun e => (fst e, bbox (snd e))) trk))
      (combine (seq a (length dets)) dets).
Proof.
  revert a. induction dets as [|d dets IH]; intros a; [reflexivity|].
  cbn [iou_matrix map length seq combine flat_map fst snd].
  rewrite map_app. fold (iou_matrix dets trk). rewrite IH. f_equal.
  unfold enumerate. apply (row_candidates thr d a 0 [] trk). reflexivity.
Qed.

Lemma candidates_qualifying (thr : Q) (dets : list Box) (trk : list (nat * Track)) :
  map (by_id (dict_keys trk)) (candidate_pairs thr (iou_matrix dets trk))
  = qualifying iou thr dets (map (fun e => (fst e, bbox (snd e))) trk).
Proof. unfold candidate_pairs, qualifying, enumerate. apply matrix_candidates. Qed.

Lemma existsb_eqb_true (x : nat) (l : list nat) : existsb (Nat.eqb x) l = true <-> In x l.
Proof.
  rewrite existsb_exists. split.
  - intros [y [Hy E]]. apply Nat.eqb_eq in E. subst y. exact Hy.
  - intros H. exists x. split; [exact H|apply Nat.eqb_refl].
Qed.

Lemma claimed_agree (x : nat) (S : gset nat) (l : list nat) :
  (forall y, y ∈ S <-> In y l) -> bool_decide (x ∈ S) = existsb (Nat.eqb x) l.
Proof.
  intros H. destruct (existsb (Nat.eqb x) l) eqn:E.
  - apply bool_decide_eq_true_2, H, existsb_eqb_true. exact E.
  - apply bool_decide_eq_false_2. intros Hx. apply H, existsb_eqb_true in Hx. congruence.
Qed.

(** The acceptance loop of [update] is the greedy acceptance of the
    policy. *)
Lemma accept_greedy (tids : list nat) (dets : list Box) (pairs : list (Q * nat * nat))
    (c : Claimed) (cd ct : list nat) :
  (forall i, i ∈ used_d c <-> In i cd) ->
  (forall t, t ∈ used_t c <-> In t ct) ->
  (forall p, In p pairs ->
     is_Some (tids !! snd p) /\ is_Some (dets !! snd (fst p))) ->
  results (fold_left (accept_pair tids dets) pairs c)
  = results c ++ resolve dets (greedy cd ct (map (by_id tids) pairs)).
Proof.
  revert c cd ct. induction pairs as [|p pairs IH]; intros c cd ct Hd Ht Hr.
  - simpl. rewrite app_nil_r. reflexivity.
  - destruct (Hr p ltac:(left; reflexivity)) as [[tid Htid] [d Hdet]].
    assert (by_id tids p = (fst (fst p), snd (fst p), tid)) as Hby
      by (unfold by_id; rewrite Htid; reflexivity).
    cbn [fold_left map greedy]. unfold accept_pair at 2. rewrite Htid, Hdet.
    rewrite !Hby. cbn [fst snd].
    rewrite (claimed_agree tid (used_t c) ct Ht),
      (claimed_agree (snd (fst p)) (used_d c) cd Hd).
    destruct (existsb (Nat.eqb tid) ct || existsb (Nat.eqb (snd (fst p))) cd).
    + apply IH; auto. intros q Hq. apply Hr. right. exact Hq.
    + rewrite (IH _ (snd (fst p) :: cd) (tid :: ct)).
      * cbn [results resolve flat_map fst snd]. rewrite Hdet, <- app_assoc. reflexivity.
      * intros i. cbn [used_d]. rewrite elem_of_union, elem_of_singleton, Hd.
        simpl. intuition congruence.
      * intros t. cbn [used_t]. rewrite elem_of_union, elem_of_singleton, Ht.
        simpl. intuition congruence.
      * intros q Hq. apply Hr. right. exact Hq.
Qed.

Lemma candidate_pairs_range (thr : Q) (dets : list Box) (trk : list (nat * Track))
    (p : Q * nat * nat) :
  In p (candidate_pairs thr (iou_matrix dets trk)) ->
  is_Some (dict_keys trk !! snd p) /\ is_Some (dets !! snd (fst p)).
Proof.
  unfold candidate_pairs. intros H.
  apply in_flat_map in H as [[i row] [Hi H]]. apply in_enumerate in Hi.
  apply in_flat_map in H as [[j v] [Hj H]]. apply in_enumerate in Hj.
  cbn [fst snd] in H. destruct (Qle_bool thr v); [|destruct H].
  destruct H as [<-|[]]. cbn [fst snd].
  unfold iou_matrix in Hi. rewrite list_lookup_fmap in Hi.
  destruct (dets !! i) as [d|]; [|discriminate]. simpl in Hi. inversion Hi; subst row.
  split; [|eauto]. apply lookup_lt_is_Some_2. apply lookup_lt_Some in Hj.
  cbn [snd] in Hj. unfold dict_keys. rewrite length_map in *. exact Hj.
Qed.

Lemma filter_old (n : nat) (old new : list (nat * Box)) :
  (forall r, In r old -> (fst r < n)%nat) ->
  (forall r, In r new -> (n <= fst r)%nat) ->
  List.filter (fun r => Nat.ltb (fst r) n) (old ++ new) = old.
Proof.
  intros Ho Hn. rewrite List.filter_app.
  rewrite (filter_all _ old)
    by (apply List.Forall_forall; intros r Hr; apply Nat.ltb_lt, Ho; exact Hr).
  assert (List.filter (fun r => Nat.ltb (fst r) n) new = []) as ->; [|apply app_nil_r].
  induction new as [|r new IH]; [reflexivity|]. simpl.
  replace (Nat.ltb (fst r) n) with false
    by (symmetry; apply Nat.ltb_ge, Hn; left; reflexivity).
  apply IH. intros r' Hr'. apply Hn. right. exact Hr'.
Qed.

(** C1 (as amended). For every call of the RingScreen [IoUTracker.update]
    with at least one live track, the matched (detection, track) pairs are
    an outcome of the policy: all pairs whose IoU is at least the
    threshold, in an order of descending IoU, accepted greedily when
    neither the detection nor the track has been claimed. *)
Theorem C1_canonical_matching (dets : list Box) (s : IoUTracker) :
  ring_wf s ->
  tracks s <> [] ->
  exists matched,
    canonical_policy iou (iou_threshold s) dets (live_boxes s) matched
    /\ matched_results s dets = resolve dets matched.
Proof.
  intros Hwf Hne. pose proof Hwf as (Hd & Hb).
  exists (greedy [] [] (map (by_id (dict_keys (tracks s)))
                          (sorted_desc (candidate_pairs (iou_threshold s)
                                          (iou_matrix dets (tracks s)))))).
  split.
  - eexists. split; [|split; [|reflexivity]].
    + unfold live_boxes. rewrite <- candidates_qualifying.
      apply Permutation_map. apply sorted_desc_perm.
    + apply by_id_sorted, sorted_desc_sorted.
  - unfold matched_results, update.
    destruct (dict_keys (tracks s)) as [|k0 ks] eqn:Ekeys.
    { destruct (tracks s); [congruence|discriminate]. }
    rewrite <- Ekeys in *. clear Ekeys k0 ks.
    set (tids := dict_keys (tracks s)) in *.
    set (pairs := sorted_desc (candidate_pairs (iou_threshold s)
                                 (iou_matrix dets (tracks s)))).
    set (c := accept_pairs tids dets pairs).
    destruct (accept_pairs_inv tids dets pairs) as [_ Hin]. fold c in Hin.
    destruct (fold_left (spawn (used_d c)) (enumerate dets)
                (next_id s, refresh (tracks s) (results c), results c))
      as [[nid trk2] res] eqn:Esp.
    apply ring_spawn_loop in Esp as (_ & _ & (new & Hres & Hnew) & _).
    cbn [fst]. rewrite Hres, filter_old.
    + unfold c, accept_pairs. rewrite (accept_greedy tids dets pairs _ [] []).
      * reflexivity.
      * intros i. simpl. split; [intros H; apply not_elem_of_empty in H|]; tauto.
      * intros t. simpl. split; [intros H; apply not_elem_of_empty in H|]; tauto.
      * intros p Hp. unfold pairs in Hp. apply (proj1 (in_sorted_desc _ _)) in Hp.
        eapply candidate_pairs_range. exact Hp.
    + intros r Hr. apply Hb, Hin. apply in_map. exact Hr.
    + intros r Hr. apply (Hnew (fst r)). apply in_map. exact Hr.
Qed.

End RingPolicy.

Lemma C1_canonical_matching_witness :
  exists matched,
    canonical_policy RingScreen.iou (RingScreen.iou_threshold two_faces) crossing
      (live_boxes two_faces) matched
    /\ matched_results two_faces crossing = resolve crossing matched.
Proof.
  apply (C1_canonical_matching crossing two_faces).
  - apply (ring_update_has_facts [mkBox 0 0 10 10; mkBox 6 0 16 10]).
    apply ring_wf_init.
  - vm_compute. discriminate.
Defined.

(** C1 fails as stated: the letter tracker gives the first detection to
    track 1 (IoU 80/120) and leaves the second, whose IoU with track 1 is
    90/100, without a track, while the policy matches the second to track
    1 and the first to track 2. *)
Lemma C1_counterexample :
  ~ exists matched,
      canonical_policy side_overlap (SideScreen.tracker.iou_threshold two_letters)
        (map SideScreen.tracker.d_bbox crossing_letters)
        (side_live_boxes two_letters) matched
      /\ side_matched_results noon two_letters crossing_letters
         = resolve (map SideScreen.tracker.d_bbox crossing_letters) matched.
Proof.
  intros [matched [[l [Hperm [Hsort Hm]]] Hres]].
  assert (qualifying side_overlap (SideScreen.tracker.iou_threshold two_letters)
            (map SideScreen.tracker.d_bbox crossing_letters)
            (side_live_boxes two_letters)
          = [(80 # 120, 0%nat, 1%nat); (60 # 140, 0%nat, 2%nat); (90 # 100, 1%nat, 1%nat)])
    as Hq by (vm_compute; reflexivity).
  rewrite Hq in Hperm. clear Hq.
  pose proof (Permutation_length Hperm) as Hlen.
  destruct l as [|a [|b [|c [|x l]]]]; try discriminate Hlen. clear Hlen.
  assert (In a [(80 # 120, 0%nat, 1%nat); (60 # 140, 0%nat, 2%nat); (90 # 100, 1%nat, 1%nat)])
    as Ha by (eapply Permutation_in; [exact Hperm|left; reflexivity]).
  assert (In b [(80 # 120, 0%nat, 1%nat); (60 # 140, 0%nat, 2%nat); (90 # 100, 1%nat, 1%nat)])
    as Hb by (eapply Permutation_in; [exact Hperm|right; left; reflexivity]).
  assert (In c [(80 # 120, 0%nat, 1%nat); (60 # 140, 0%nat, 2%nat); (90 # 100, 1%nat, 1%nat)])
    as Hc by (eapply Permutation_in; [exact Hperm|right; right; left; reflexivity]).
  assert (List.NoDup [a; b; c]) as Hnd.
  { eapply Permutation_NoDup; [symmetry; exact Hperm|].
    repeat constructor; simpl; intuition discriminate. }
  assert (a <> b /\ a <> c /\ b <> c) as (Hab & Hac & Hbc).
  { apply List.NoDup_cons_iff in Hnd as [H1 Hnd].
    apply List.NoDup_cons_iff in Hnd as [H2 _]. simpl in H1, H2.
    repeat split; intros ->; tauto. }
  inversion Hsort as [|? ? Hs1 Hf1]; subst.
  inversion Hf1 as [|? ? Sab Hf1']; subst. clear Hf1'.
  inversion Hs1 as [|? ? _ Hf2]; subst.
  inversion Hf2 as [|? ? Sbc _]; subst.
  unfold by_iou_desc in Sab, Sbc. clear Hsort Hs1 Hf1 Hf2 Hnd Hperm.
  destruct Ha as [<-|[<-|[<-|[]]]]; destruct Hb as [<-|[<-|[<-|[]]]];
    destruct Hc as [<-|[<-|[<-|[]]]];
    try (exfalso; apply Hab; reflexivity);
    try (exfalso; apply Hac; reflexivity);
    try (exfalso; apply Hbc; reflexivity);
    try (exfalso; vm_compute in Sab; apply Sab; reflexivity);
    try (exfalso; vm_compute in Sbc; apply Sbc; reflexivity).
  vm_compute in Hres. discriminate Hres.
Qed.

(** A track is created, lost, and a box at the same place comes back. *)
Lemma C5_ids_unique_never_reused_witness :
  (List.NoDup
     (dict_keys (SideScreen.tracker.tracks
                   (run [(noon, [letter 0 0 10 10])]
                      (SideScreen.tracker.init (3 # 10) 0))))
   /\ ~ In 1%nat
        (dict_keys (SideScreen.tracker.tracks
                      (run [(noon, [letter 0 0 10 10])]
                         (run [(noon, [])]
                            (run [(noon, [letter 0 0 10 10])]
                               (SideScreen.tracker.init (3 # 10) 0)))))))
  /\ (List.NoDup
        (dict_keys (RingScreen.tracks
                      (ring_run [[mkBox 0 0 10 10]] (RingScreen.init (3 # 10) 0))))
      /\ ~ In 1%nat
           (dict_keys (RingScreen.tracks
                         (ring_run [[mkBox 0 0 10 10]]
                            (ring_run [[]]
                               (ring_run [[mkBox 0 0 10 10]]
                                  (RingScreen.init (3 # 10) 0))))))).
Proof.
  split.
  - destruct (proj1 C5_ids_unique_never_reused (3 # 10) 0%nat
                [(noon, [letter 0 0 10 10])] [(noon, [])]
                [(noon, [letter 0 0 10 10])] 1%nat) as [Hnd Hnever].
    split; [exact Hnd|]. apply Hnever; vm_compute; tauto.
  - destruct (proj2 C5_ids_unique_never_reused (3 # 10) 0%nat
                [[mkBox 0 0 10 10]] [[]] [[mkBox 0 0 10 10]] 1%nat) as [Hnd Hnever].
    split; [exact Hnd|]. apply Hnever; vm_compute; tauto.
Defined.


(** * Further properties *)

(** ** The three overlap functions *)
Section Overlap.

Lemma int_div_zero (u : Z) : int_div 0 u == 0.
Proof. unfold int_div, Qeq. simpl. reflexivity. Qed.

Lemma int_div_range (a u : Z) :
  0 <= a <= u -> 0 < u -> (0 <= int_div a u <= 1)%Q.
Proof.
  intros Ha Hu. unfold int_div, Qle. simpl.
  rewrite Z2Pos.id by exact Hu. lia.
Qed.

Lemma int_div_one (u : Z) : 0 < u -> int_div u u == 1.
Proof.
  intros Hu. unfold int_div, Qeq. simpl. rewrite Z2Pos.id by exact Hu. lia.
Qed.

(** The overlap of two proper boxes is at most either area. *)
Lemma inter_le (a b : Box) :
  proper a -> proper b ->
  let wi := Z.max 0 (Z.min (bx2 a) (bx2 b) - Z.max (bx1 a) (bx1 b)) in
  let hi := Z.max 0 (Z.min (by2 a) (by2 b) - Z.max (by1 a) (by1 b)) in
  0 <= wi * hi /\ wi * hi <= area a /\ wi * hi <= area b.
Proof.
  intros [Ha1 Ha2] [Hb1 Hb2] wi hi. unfold area.
  assert (0 <= wi <= bx2 a - bx1 a) by (subst wi; lia).
  assert (0 <= hi <= by2 a - by1 a) by (subst hi; lia).
  assert (wi <= bx2 b - bx1 b) by (subst wi; lia).
  assert (hi <= by2 b - by1 b) by (subst hi; lia).
  split; [nia|]. split; nia.
Qed.

(** [SideScreen] computes the same overlap as [RingScreen]. *)
Lemma side_iou_ring (a b : Box) :
  SideScreen.tracker._calculate_iou a b == RingScreen.iou a b.
Proof.
  unfold SideScreen.tracker._calculate_iou, RingScreen.iou. cbv zeta.
  destruct (Z.ltb_spec (Z.min (bx2 a) (bx2 b)) (Z.max (bx1 a) (bx1 b))) as [Hx|Hx];
    [|destruct (Z.ltb_spec (Z.min (by2 a) (by2 b)) (Z.max (by1 a) (by1 b))) as [Hy|Hy]];
    cbn [orb].
  - rewrite (Z.max_l 0 (Z.min (bx2 a) (bx2 b) - _)) by lia. rewrite Z.mul_0_l.
    destruct (0 <? _); [rewrite int_div_zero|]; reflexivity.
  - rewrite (Z.max_l 0 (Z.min (by2 a) (by2 b) - _)) by lia. rewrite Z.mul_0_r.
    destruct (0 <? _); [rewrite int_div_zero|]; reflexivity.
  - rewrite (Z.max_r 0 (Z.min (bx2 a) (bx2 b) - _)) by lia.
    rewrite (Z.max_r 0 (Z.min (by2 a) (by2 b) - _)) by lia. reflexivity.
Qed.

Lemma worker_iou_ring (a b : Box) :
  SideScreen.worker.calculate_iou a b == RingScreen.iou a b.
Proof.
  unfold SideScreen.worker.calculate_iou, RingScreen.iou. cbv zeta.
  match goal with |- context [?u <=? 0] => destruct (Z.leb_spec u 0) as [H|H] end.
  - match goal with |- context [0 <? ?u] => destruct (Z.ltb_spec 0 u) end;
      [lia|reflexivity].
  - match goal with |- context [0 <? ?u] => destruct (Z.ltb_spec 0 u) end;
      [reflexivity|lia].
Qed.

Lemma ring_iou_sym (a b : Box) : RingScreen.iou a b = RingScreen.iou b a.
Proof.
  unfold RingScreen.iou. cbv zeta.
  rewrite (Z.max_comm (bx1 a)), (Z.max_comm (by1 a)),
    (Z.min_comm (bx2 a)), (Z.min_comm (by2 a)).
  rewrite (Z.add_comm ((bx2 a - bx1 a) * _)). reflexivity.
Qed.

Lemma ring_iou_range (a b : Box) :
  proper a -> proper b -> (0 <= RingScreen.iou a b <= 1)%Q.
Proof.
  intros Ha Hb. destruct (inter_le a b Ha Hb) as (H0 & H1 & H2).
  cbv zeta in *. unfold area in *.
  unfold RingScreen.iou. cbv zeta.
  match goal with |- context [0 <? ?u] => destruct (Z.ltb_spec 0 u) as [Hu|Hu] end.
  - apply int_div_range; [|exact Hu].
    split; [exact H0|]. destruct Ha, Hb. nia.
  - split; [apply Qle_refl|discriminate].
Qed.

Lemma ring_iou_self (b : Box) : proper b -> 0 < area b -> RingScreen.iou b b == 1.
Proof.
  intros [H1 H2] Ha. unfold area in Ha. unfold RingScreen.iou. cbv zeta.
  rewrite !Z.max_id, !Z.min_id.
  rewrite (Z.max_r 0 (bx2 b - bx1 b)) by lia.
  rewrite (Z.max_r 0 (by2 b - by1 b)) by lia.
  match goal with |- context [0 <? ?u] => replace u with ((bx2 b - bx1 b) * (by2 b - by1 b)) by ring end.
  destruct (Z.ltb_spec 0 ((bx2 b - bx1 b) * (by2 b - by1 b))); [|lia].
  apply int_div_one. exact Ha.
Qed.

(** A box without area overlaps nothing. *)
Lemma ring_iou_flat (a b : Box) : area a = 0 -> RingScreen.iou a b == 0.
Proof.
  unfold area. intros Hz. unfold RingScreen.iou. cbv zeta.
  assert (Z.max 0 (Z.min (bx2 a) (bx2 b) - Z.max (bx1 a) (bx1 b))
          * Z.max 0 (Z.min (by2 a) (by2 b) - Z.max (by1 a) (by1 b)) = 0) as ->.
  { apply Z.eq_mul_0 in Hz as [Hz|Hz]; [rewrite (Z.max_l 0) by lia|
                                        rewrite (Z.max_l 0 (Z.min (by2 a) _ - _)) by lia];
      lia. }
  destruct (0 <? _); [apply int_div_zero|reflexivity].
Qed.

(** X6. The three overlap functions of the repository ([_calculate_iou]
    of the letter tracker, the inline computation of the face tracker and
    [calculate_iou] of the vision worker) return the same value on every
    pair of boxes, degenerate ones included. *)
Theorem X6_overlap_functions_agree (a b : Box) :
  SideScreen.tracker._calculate_iou a b == RingScreen.iou a b
  /\ SideScreen.worker.calculate_iou a b == RingScreen.iou a b
  /\ SideScreen.tracker._calculate_iou a b == SideScreen.worker.calculate_iou a b.
Proof.
  split; [apply side_iou_ring|]. split; [apply worker_iou_ring|].
  rewrite side_iou_ring, worker_iou_ring. reflexivity.
Qed.

(** X7. On boxes whose corners are in order, [_calculate_iou] is
    symmetric, its value lies between 0 and 1, it is 1 for a box of
    positive area against itself, and it is 0 as soon as the first box has
    no area. *)
Theorem X7_overlap_range (a b : Box) :
  proper a -> proper b ->
  SideScreen.tracker._calculate_iou a b == SideScreen.tracker._calculate_iou b a
  /\ (0 <= SideScreen.tracker._calculate_iou a b <= 1)%Q
  /\ (0 < area a -> SideScreen.tracker._calculate_iou a a == 1)
  /\ (area a = 0 -> SideScreen.tracker._calculate_iou a b == 0).
Proof.
  intros Ha Hb. rewrite !side_iou_ring.
  split; [rewrite ring_iou_sym; reflexivity|].
  split; [apply ring_iou_range; assumption|].
  split; [apply ring_iou_self; assumption|apply ring_iou_flat].
Qed.

End Overlap.

Lemma X7_overlap_range_witness :
  (SideScreen.tracker._calculate_iou box_a box_b
   == SideScreen.tracker._calculate_iou box_b box_a
   /\ (0 <= SideScreen.tracker._calculate_iou box_a box_b <= 1)%Q
   /\ SideScreen.tracker._calculate_iou box_a box_a == 1)
  /\ SideScreen.tracker._calculate_iou (mkBox 3 0 3 10) box_a == 0.
Proof.
  split.
  - destruct (X7_overlap_range box_a box_b) as (H1 & H2 & H3 & _);
      [split; vm_compute; discriminate|split; vm_compute; discriminate|].
    split; [exact H1|]. split; [exact H2|]. apply H3. reflexivity.
  - apply (X7_overlap_range (mkBox 3 0 3 10) box_a);
      [split; vm_compute; discriminate|split; vm_compute; discriminate|reflexivity].
Defined.

(** ** What the letter tracker returns *)
Section SideResult.
Import SideScreen.tracker.

Lemma detection_of_resolved (tid : nat) (d : Detection) :
  detection_of (resolved tid d) = d.
Proof. destruct d. reflexivity. Qed.

(** The track [best_track] settles on is unclaimed and overlaps by more
    than the value the search started from. *)
Lemma best_track_some (row : list (nat * Q)) (T : gset nat) (cur : Q)
    (idx : option nat) (i : nat) :
  best_track row T cur idx = Some i ->
  idx = Some i \/ exists v, In (i, v) row /\ (cur < v)%Q /\ i ∉ T.
Proof.
  revert cur idx. induction row as [|[t_idx v] row IH]; intros cur idx; [simpl; auto|].
  cbn [best_track]. destruct (bool_decide (t_idx ∈ T)) eqn:ET.
  - intros H. apply IH in H as [H|(v' & H1 & H2 & H3)]; [auto|].
    right. exists v'. split; [right; exact H1|auto].
  - apply bool_decide_eq_false in ET. destruct (Qlt_bool cur v) eqn:E.
    + apply Qlt_bool_iff in E. intros H.
      apply IH in H as [H|(v' & H1 & H2 & H3)].
      * inversion H; subst. right. exists v. split; [left; reflexivity|auto].
      * right. exists v'. split; [right; exact H1|].
        split; [eapply Qlt_trans; eauto|exact H3].
    + intros H. apply IH in H as [H|(v' & H1 & H2 & H3)]; [auto|].
      right. exists v'. split; [right; exact H1|auto].
Qed.

Lemma append_history_last (track_id : nat) (e : HistoryEntry)
    (h : gmap nat (list HistoryEntry)) :
  exists l, append_history track_id e h !! track_id = Some l
            /\ last l = Some e /\ (1 <= length l <= 100)%nat.
Proof.
  unfold append_history. rewrite lookup_insert_eq.
  set (l0 := default [] (h !! track_id)).
  eexists. split; [reflexivity|].
  destruct (Nat.ltb_spec 100 (length (l0 ++ [e]))) as [Hlt|Hge].
  - rewrite length_app in *. simpl in *.
    rewrite skipn_app. replace (length l0 + 1 - 100 - length l0)%nat with 0%nat by lia.
    simpl. split; [apply last_snoc|].
    rewrite length_app, length_skipn. simpl. lia.
  - split; [apply last_snoc|]. rewrite length_app in *. simpl in *. lia.
Qed.

Lemma in_dict (trk : list (nat * Track)) (k : nat) (t : Track) :
  List.NoDup (dict_keys trk) -> (In (k, t) trk <-> dict_get k trk = Some t).
Proof.
  intros Hd. split.
  - intros Hin. destruct (In_lookup _ _ Hin) as [j Hj].
    eapply dict_get_lookup; eauto.
  - intros Hg. destruct (dict_get_index _ _ _ Hg) as [j Hj].
    eapply lookup_In. exact Hj.
Qed.

(** One round of the matching loop. *)
Lemma match_detection_matches (clock : nat -> Q) (dets : list Detection)
    (s : IoUTracker) (M : list (nat * Detection)) (st : Matching)
    (e : nat * Detection) :
  List.NoDup (dict_keys (tracks s)) ->
  match_inv s st -> matches s clock dets M st ->
  In e (enumerate dets) -> ~ In (fst e) (map fst M) ->
  exists M',
    matches s clock dets M'
      (match_detection clock (dict_keys (tracks s)) (iou_matrix dets (tracks s))
         (iou_threshold s) st e)
    /\ (M' = M \/ M' = M ++ [e]).
Proof.
  intros Hd (HK & HU & HT & HR) HM He Hfresh.
  pose proof HM as (M1 & M2 & M3 & M4 & M5 & M6).
  unfold match_detection.
  destruct (best_track _ _ _ _) as [idx|] eqn:Eb.
  2:{ exists M. split; [exact HM|left; reflexivity]. }
  destruct (dict_keys (tracks s) !! idx) as [track_id|] eqn:Eid.
  2:{ exists M. split; [exact HM|left; reflexivity]. }
  clear HM.
  destruct e as [i d]. cbn [fst snd] in *.
  apply best_track_some in Eb as [Eb|(v & Hv & Hlt & HnT)]; [discriminate|].
  apply in_enumerate in He. apply in_enumerate in Hv.
  unfold iou_matrix in Hv. rewrite list_lookup_fmap, He in Hv. cbn in Hv.
  rewrite list_lookup_fmap in Hv.
  destruct (tracks s !! idx) as [[k t]|] eqn:Et; [|discriminate].
  cbn in Hv. inversion Hv; subst v. clear Hv.
  pose proof (dict_keys_lookup _ _ _ _ Et) as Hk. rewrite Eid in Hk.
  inversion Hk; subst k. clear Hk.
  pose proof (dict_get_lookup _ _ _ _ Hd Et) as Hget.
  assert (~ In track_id (ids (result st))) as Hnew.
  { intros Hin. destruct (HR track_id Hin) as ((j & Hj1 & Hj2) & _).
    assert (j = idx) by exact (NoDup_lookup_eq _ j idx track_id Hd Hj2 Eid).
    subst j. tauto. }
  exists (M ++ [(i, d)]). split; [|right; reflexivity].
  unfold matches. cbn [result tracked_dets m_tracks m_history].
  rewrite !map_app, ids_app. cbn [map fst snd ids r_track_id resolved].
  rewrite detection_of_resolved.
  split; [rewrite M1; reflexivity|].
  split.
  { apply List.NoDup_app; [exact M2|repeat constructor; simpl; tauto|].
    intros a Ha [<-|[]]. tauto. }
  split.
  { intros e Hin. apply in_app_iff in Hin as [Hin|[<-|[]]]; [auto|].
    apply in_enumerate. exact He. }
  split.
  { intros j. rewrite elem_of_union, elem_of_singleton, in_app_iff, M4. simpl.
    split; [intros [->|H]; auto|intros [H|[<-|[]]]; auto]. }
  split.
  { apply List.NoDup_app; [exact M5|repeat constructor; simpl; tauto|].
    intros a Ha [<-|[]]. tauto. }
  intros r Hin. apply in_app_iff in Hin as [Hin|[<-|[]]].
  - destruct (M6 r Hin) as (H1 & H2 & (h & j & H3 & H4)).
    assert (r_track_id r <> track_id) as Hne.
    { intros Heq. apply Hnew. rewrite <- Heq. apply in_map. exact Hin. }
    split; [|split; [exact H2|]].
    + rewrite dict_get_alter. destruct (Nat.eqb_spec (r_track_id r) track_id); [tauto|].
      exact H1.
    + exists h, j. rewrite append_history_other by exact Hne. auto.
  - cbn [r_track_id resolved]. rewrite detection_of_resolved.
    split; [|split].
    + rewrite dict_get_alter, Nat.eqb_refl.
      assert (is_Some (dict_get track_id (m_tracks st))) as [t0 ->].
      { apply dict_get_in_keys. rewrite HK. eapply lookup_In. exact Eid. }
      reflexivity.
    + exists t. split; [exact Hget|exact Hlt].
    + destruct (append_history_last track_id (history_entry (clock i) d) (m_history st))
        as (l & Hl1 & Hl2 & _).
      exists l, i. rewrite detection_of_resolved. auto.
Qed.

Lemma match_loop_matches (clock : nat -> Q) (dets : list Detection) (s : IoUTracker)
    (l : list (nat * Detection)) (M : list (nat * Detection)) (st : Matching) :
  List.NoDup (dict_keys (tracks s)) ->
  match_inv s st -> matches s clock dets M st ->
  List.NoDup (map fst l) ->
  (forall e, In e l -> In e (enumerate dets)) ->
  (forall e, In e l -> ~ In (fst e) (map fst M)) ->
  exists M',
    matches s clock dets M'
      (fold_left (match_detection clock (dict_keys (tracks s))
                    (iou_matrix dets (tracks s)) (iou_threshold s)) l st).
Proof.
  intros Hd. revert M st. induction l as [|e l IH]; intros M st Hinv HM Hnd Hsub Hfresh.
  - exists M. exact HM.
  - cbn [fold_left]. simpl in Hnd. apply List.NoDup_cons_iff in Hnd as [Hn Hnd].
    destruct (match_detection_matches clock dets s M st e Hd Hinv HM)
      as (M' & HM' & Hcase); [apply Hsub; left; reflexivity|apply Hfresh; left; reflexivity|].
    apply (IH M'); auto.
    + apply match_detection_inv. exact Hinv.
    + intros x Hx. apply Hsub. right. exact Hx.
    + intros x Hx. destruct Hcase as [->| ->]; [apply Hfresh; right; exact Hx|].
      rewrite map_app, in_app_iff. simpl. intros [H|[H|[]]].
      * apply (Hfresh x); [right; exact Hx|exact H].
      * apply Hn. rewrite H. apply in_map. exact Hx.
Qed.

Lemma map_fst_combine_seq {A : Type} (a : nat) (l : list A) :
  map fst (combine (seq a (length l)) l) = seq a (length l).
Proof.
  revert a. induction l as [|x l IH]; intros a; simpl; [reflexivity|].
  rewrite IH. reflexivity.
Qed.

Lemma NoDup_fst_enumerate {A : Type} (l : list A) : List.NoDup (map fst (enumerate l)).
Proof.
  unfold enumerate. rewrite map_fst_combine_seq. apply seq_NoDup.
Qed.

Lemma NoDup_enumerate {A : Type} (l : list A) : List.NoDup (enumerate l).
Proof. eapply NoDup_map_inv. apply NoDup_fst_enumerate. Qed.

(** The detections picked out by their indices and the ones left over
    make up the frame. *)
Lemma split_by_index {A : Type} (l : list A) (M : list (nat * A)) (U : gset nat) :
  List.NoDup (map fst M) ->
  (forall e, In e M -> In e (enumerate l)) ->
  (forall i, i ∈ U <-> In i (map fst M)) ->
  Permutation
    (map snd M
     ++ map snd (List.filter (fun e => negb (bool_decide (fst e ∈ U))) (enumerate l)))
    l.
Proof.
  intros Hnd Hsub HU. rewrite <- map_app.
  rewrite <- (map_snd_combine_seq 0 l) at 2. fold (enumerate l).
  apply Permutation_map. apply Permutation.NoDup_Permutation.
  - apply List.NoDup_app.
    + eapply NoDup_map_inv. exact Hnd.
    + apply List.NoDup_filter. apply NoDup_enumerate.
    + intros e He Hf. apply filter_In in Hf as [_ Hf].
      apply negb_true_iff, bool_decide_eq_false in Hf. apply Hf, HU.
      apply in_map. exact He.
  - apply NoDup_enumerate.
  - intros e. rewrite in_app_iff, filter_In. split.
    + intros [H|[H _]]; auto.
    + intros He. destruct (decide (fst e ∈ U)) as [Hin|Hout].
      * left. apply HU in Hin. apply in_map_iff in Hin as [e' [Hfst He']].
        assert (e' = e); [|subst; exact He'].
        specialize (Hsub e' He'). destruct e as [i x], e' as [i' x'].
        simpl in Hfst. subst i'. apply in_enumerate in Hsub, He.
        congruence.
      * right. split; [exact He|].
        apply negb_true_iff, bool_decide_eq_false. exact Hout.
Qed.

(** The loop that creates tracks, entry by entry. *)
Lemma spawn_loop_detail (clock : nat -> Q) (used : gset nat) (l : list (nat * Detection))
    (nid : nat) (trk : list (nat * Track)) (hist : gmap nat (list HistoryEntry))
    (res : list Resolved) nid' trk' hist' res' :
  fold_left (spawn clock used) l (nid, trk, hist, res) = (nid', trk', hist', res') ->
  exists new,
    res' = res ++ new
    /\ map detection_of new
       = map snd (List.filter (fun e => negb (bool_decide (fst e ∈ used))) l)
    /\ ids new = seq nid (nid' - nid)
    /\ (nid <= nid')%nat
    /\ forall r, In r new ->
         dict_get (r_track_id r) trk' = Some (track_of (detection_of r))
         /\ recorded clock hist' r.
Proof.
  revert nid trk hist res. induction l as [|e l IH]; intros nid trk hist res.
  - simpl. intros H. inversion H; subst. exists []. rewrite app_nil_r, Nat.sub_diag.
    split; [reflexivity|]. split; [reflexivity|]. split; [reflexivity|].
    split; [lia|]. intros ? [].
  - cbn [fold_left List.filter]. unfold spawn at 2.
    destruct (bool_decide (fst e ∈ used)); [apply IH|].
    intros H. pose proof H as H'.
    apply IH in H as (new & H1 & H2 & H3 & H4 & H5).
    apply spawn_loop in H' as (_ & Hlow & _).
    exists (resolved nid (snd e) :: new). cbn [negb map ids r_track_id resolved].
    rewrite detection_of_resolved.
    split; [rewrite H1, <- app_assoc; reflexivity|].
    split; [rewrite H2; reflexivity|].
    split.
    { fold (ids new). rewrite H3.
      replace (nid' - nid)%nat with (S (nid' - S nid)) by lia. reflexivity. }
    split; [lia|].
    intros r [<-|Hr]; [|apply H5; exact Hr].
    cbn [r_track_id resolved]. rewrite detection_of_resolved.
    destruct (Hlow nid) as [Ha Hb]; [lia|].
    split.
    + rewrite Ha, dict_get_set, Nat.eqb_refl. reflexivity.
    + unfold recorded. cbn [r_track_id resolved]. rewrite detection_of_resolved.
      exists [history_entry (clock (fst e)) (snd e)], (fst e).
      rewrite Hb, lookup_insert_eq. split; reflexivity.
Qed.

(** What a call of [update] returns, entry by entry. *)
Lemma update_has_detail (clock : nat -> Q) (dets : list Detection) (s : IoUTracker) :
  wf s ->
  update_detail clock dets s (fst (update clock dets s)) (snd (update clock dets s)).
Proof.
  intros (Hd & Hb & Hh). destruct dets as [|d ds].
  { unfold update_detail, update. cbn [fst snd next_id].
    split; [constructor|]. split; [constructor|]. split; [intros r []|].
    intros tid Ht. lia. }
  unfold update. cbv iota. set (dets := d :: ds).
  set (track_ids := dict_keys (tracks s)).
  set (st0 := {| m_tracks := tracks s; m_history := track_history s;
                 result := []; tracked_dets := ∅; tracked_tracks := ∅ |}).
  match goal with |- context [if ?c then ?a else st0] => set (st1 := if c then a else st0) end.
  assert (matches s clock dets [] st0) as HM0.
  { unfold matches. simpl. split; [reflexivity|]. split; [constructor|].
    split; [intros e []|]. split; [|split; [constructor|intros r []]].
    intros i. split; [intros H; apply not_elem_of_empty in H; destruct H|intros []]. }
  assert (match_inv s st1 /\ exists M, matches s clock dets M st1) as [Hinv [M HM]].
  { subst st1. destruct (Nat.ltb 0 (length (tracks s))).
    - split; [apply match_loop_inv, match_inv_start|].
      apply (match_loop_matches clock dets s (enumerate dets) [] st0); auto.
      + apply match_inv_start.
      + apply NoDup_fst_enumerate.
    - split; [apply match_inv_start|]. exists []. exact HM0. }
  destruct Hinv as (HK & HU & HT & HR).
  destruct HM as (M1 & M2 & M3 & M4 & M5 & M6).
  destruct (fold_left (spawn clock (tracked_dets st1)) (enumerate dets)
              (next_id s, m_tracks st1, m_history st1, result st1))
    as [[[nid trk2] hist2] res] eqn:Esp.
  pose proof Esp as Esp'.
  apply spawn_loop in Esp' as (_ & Hlow & _).
  apply spawn_loop_detail in Esp as (new & Hres & Hnew1 & Hnew2 & Hn & Hnew3).
  rewrite age_loop_eq. cbn [fst snd].
  set (L := unmatched_ids (tracked_tracks st1) track_ids).
  assert (forall tid, In tid (ids (result st1)) -> In tid track_ids /\ ~ In tid L) as Hold.
  { intros tid Hin. destruct (HR tid Hin) as ((j & Hj1 & Hj2) & _).
    split; [eapply lookup_In; exact Hj2|].
    intros HL. apply in_unmatched_ids in HL as (j' & Hj' & Hn').
    assert (j' = j) by exact (NoDup_lookup_eq track_ids j' j tid Hd Hj' Hj2).
    subst j'. tauto. }
  assert (forall tid, In tid L -> In tid track_ids) as HLsub.
  { intros tid HL. apply in_unmatched_ids in HL as (j & Hj & _).
    eapply lookup_In. exact Hj. }
  assert (forall tid, In tid (ids new) -> (next_id s <= tid < nid)%nat) as Hrange.
  { intros tid Hin. rewrite Hnew2 in Hin. apply in_seq in Hin. lia. }
  unfold update_detail. cbn [next_id tracks track_history].
  rewrite Hres, map_app, ids_app, M1, Hnew1.
  split; [apply split_by_index; assumption|].
  split.
  { apply List.NoDup_app; [exact M5|rewrite Hnew2; apply seq_NoDup|].
    intros tid H1 H2. apply Hold in H1 as [H1 _]. apply Hrange in H2.
    specialize (Hb tid H1). lia. }
  split.
  - intros r Hin. apply in_app_iff in Hin as [Hin|Hin].
    + destruct (M6 r Hin) as (G1 & G2 & (h & i & G3 & G4)).
      assert (In (r_track_id r) (ids (result st1))) as Hid by (apply in_map; exact Hin).
      destruct (Hold _ Hid) as [Hk HnL].
      destruct (Hlow (r_track_id r) (Hb _ Hk)) as [Ha Hc].
      split; [rewrite age_all_other by exact HnL; rewrite Ha; exact G1|].
      split; [exists h, i; rewrite Hc; auto|left; exact G2].
    + destruct (Hnew3 r Hin) as [G1 G2].
      assert (In (r_track_id r) (ids new)) as Hid by (apply in_map; exact Hin).
      specialize (Hrange _ Hid).
      split; [|split; [exact G2|right; exact Hrange]].
      rewrite age_all_other; [exact G1|].
      intros HL. apply HLsub in HL. specialize (Hb _ HL). lia.
  - intros tid Ht. apply in_app_iff. right. rewrite Hnew2. apply in_seq. lia.
Qed.

(** X1. Every call of [update] of the letter tracker resolves each
    detection of the frame exactly once: the result is the list of
    detections up to order, each with a track id, and no two entries of a
    result share an id. *)
Theorem X1_side_update_resolves_each_detection (clock : nat -> Q)
    (dets : list Detection) (s : IoUTracker) :
  wf s ->
  Permutation (map detection_of (fst (update clock dets s))) dets
  /\ List.NoDup (ids (fst (update clock dets s)))
  /\ length (fst (update clock dets s)) = length dets.
Proof.
  intros Hwf. destruct (update_has_detail clock dets s Hwf) as (H1 & H2 & _).
  split; [exact H1|]. split; [exact H2|].
  apply Permutation_length in H1. rewrite length_map in H1. exact H1.
Qed.

(** X4. After a call of [update], [get_active_tracks] lists exactly the
    tracks of the result, each once, with the box, class and confidence of
    its detection; there are as many of them as the frame has
    detections. *)
Theorem X4_active_tracks_are_the_result (clock : nat -> Q) (dets : list Detection)
    (s : IoUTracker) :
  wf s ->
  (forall tid a,
      In (tid, a) (get_active_tracks (snd (update clock dets s)))
      <-> exists r, In r (fst (update clock dets s))
                    /\ r_track_id r = tid /\ a = active_of r)
  /\ length (get_active_tracks (snd (update clock dets s))) = length dets.
Proof.
  intros Hwf.
  destruct (update_has_detail clock dets s Hwf) as (D1 & D2 & D3 & D4).
  destruct (update_has_facts clock dets s Hwf)
    as (_ & _ & _ & (Hd' & _) & Hmiss & _ & Hkeys).
  set (res := fst (update clock dets s)) in *.
  set (s' := snd (update clock dets s)) in *.
  assert (forall tid a,
             In (tid, a) (get_active_tracks s')
             <-> exists r, In r res /\ r_track_id r = tid /\ a = active_of r) as Hiff.
  { intros tid a. unfold get_active_tracks. rewrite in_map_iff. split.
    - intros ([k t] & Heq & Hin). cbn [fst snd] in Heq. inversion Heq; subst tid a.
      clear Heq. apply filter_In in Hin as [Hin Hz]. cbn [snd] in Hz.
      apply Nat.eqb_eq in Hz. apply (in_dict _ _ _ Hd') in Hin.
      assert (In k (ids res)) as Hres.
      { destruct (Hkeys k) as [Hk|Hk]; [apply dict_get_in_keys; rewrite Hin; eauto| |auto].
        destruct (in_dec Nat.eq_dec k (ids res)) as [Hy|Hn]; [exact Hy|].
        destruct (Hmiss k Hk Hn) as [Hm _]. rewrite Hin in Hm.
        destruct (dict_get k (tracks s)) as [t0|]; [|discriminate].
        simpl in Hm. destruct (Nat.ltb _ _); [discriminate|].
        inversion Hm; subst t. simpl in Hz. discriminate. }
      apply in_map_iff in Hres as (r & Hr & Hin').
      exists r. split; [exact Hin'|]. split; [exact Hr|].
      destruct (D3 r Hin') as (Hg & _). rewrite Hr, Hin in Hg.
      inversion Hg; subst t. reflexivity.
    - intros (r & Hin & <- & ->). destruct (D3 r Hin) as (Hg & _).
      exists (r_track_id r, track_of (detection_of r)). split; [reflexivity|].
      apply filter_In. split; [apply (in_dict _ _ _ Hd'); exact Hg|reflexivity]. }
  split; [exact Hiff|].
  rewrite <- (Permutation_length D1), length_map.
  rewrite <- (length_map (fun r => (r_track_id r, active_of r)) res).
  apply Permutation_length. apply Permutation.NoDup_Permutation.
  - unfold get_active_tracks.
    eapply NoDup_map_inv with (f := fst). rewrite map_map. cbn [fst].
    revert Hd'. unfold dict_keys. generalize (tracks s').
    induction l as [|e l IH]; simpl; [constructor|].
    intros Hnd. apply List.NoDup_cons_iff in Hnd as [Hn Hnd].
    destruct (Nat.eqb (missed_count (snd e)) 0); simpl; [|auto].
    apply List.NoDup_cons_iff. split; [|auto].
    intros Hin. apply Hn. apply in_map_iff in Hin as (x & Hx & Hin).
    apply filter_In in Hin as [Hin _]. apply in_map_iff. eauto.
  - eapply NoDup_map_inv with (f := fst). rewrite map_map. cbn [fst]. exact D2.
  - intros [tid a]. rewrite Hiff, in_map_iff. split.
    + intros (r & H1 & H2 & H3). exists r. subst. auto.
    + intros (r & H1 & H2). inversion H1. exists r. auto.
Qed.

(** X8. The letter tracker never gives a detection the id of a track
    whose box it overlaps by the threshold or less: an entry of the result
    whose id was handed out before the call continues a track that was
    live, with an overlap above the threshold.  With a threshold of 0 or
    more, a detection without area therefore always gets a new id. *)
Theorem X8_side_matches_overlap (clock : nat -> Q) (dets : list Detection)
    (s : IoUTracker) (r : Resolved) :
  wf s ->
  In r (fst (update clock dets s)) ->
  ((r_track_id r < next_id s)%nat -> continues s r)
  /\ ((0 <= iou_threshold s)%Q -> area (r_bbox r) = 0 ->
      (next_id s <= r_track_id r)%nat).
Proof.
  intros Hwf Hin.
  destruct (update_has_detail clock dets s Hwf) as (_ & _ & D3 & _).
  destruct (D3 r Hin) as (_ & _ & Hcase). split.
  - intros Hlt. destruct Hcase as [Hc|Hc]; [exact Hc|lia].
  - intros Hthr Hflat. destruct Hcase as [(t & _ & Hlt)|Hc]; [|lia].
    exfalso. rewrite side_iou_ring, (ring_iou_flat _ _ Hflat) in Hlt.
    exact (Qlt_not_le _ _ Hlt Hthr).
Qed.

Lemma history_bounded_append (track_id : nat) (e : HistoryEntry)
    (h : gmap nat (list HistoryEntry)) :
  history_bounded h -> history_bounded (append_history track_id e h).
Proof.
  intros Hb tid l Hl. destruct (Nat.eq_dec tid track_id) as [->|Hne].
  - destruct (append_history_last track_id e h) as (l' & H1 & _ & H2).
    rewrite H1 in Hl. inversion Hl; subst. exact H2.
  - rewrite append_history_other in Hl by exact Hne. eapply Hb. exact Hl.
Qed.

Lemma update_history_bounded (clock : nat -> Q) (dets : list Detection) (s : IoUTracker) :
  history_bounded (track_history s) ->
  history_bounded (track_history (snd (update clock dets s))).
Proof.
  intros Hb. destruct dets as [|d ds]; [exact Hb|].
  unfold update. cbv iota. set (dets := d :: ds).
  set (st0 := {| m_tracks := tracks s; m_history := track_history s;
                 result := []; tracked_dets := ∅; tracked_tracks := ∅ |}).
  match goal with |- context [if ?c then ?a else st0] => set (st1 := if c then a else st0) end.
  assert (history_bounded (m_history st1)) as H1.
  { subst st1. destruct (Nat.ltb 0 (length (tracks s))); [|exact Hb].
    assert (history_bounded (m_history st0)) as H0 by exact Hb.
    revert H0. generalize st0. generalize (enumerate dets).
    induction l as [|e l IH]; intros st H0; [exact H0|].
    cbn [fold_left]. apply IH. unfold match_detection.
    destruct (best_track _ _ _ _); [|exact H0].
    destruct (_ !! _); [|exact H0]. cbn [m_history].
    apply history_bounded_append. exact H0. }
  assert (forall l nid trk hist res,
             history_bounded hist ->
             history_bounded
               (snd (fst (fold_left (spawn clock (tracked_dets st1)) l
                            (nid, trk, hist, res))))) as Hsp.
  { induction l as [|e l IH]; intros nid trk hist res Hh; [exact Hh|].
    cbn [fold_left]. unfold spawn at 2.
    destruct (bool_decide _); [apply IH; exact Hh|].
    apply IH. intros tid h Hl. destruct (Nat.eq_dec tid nid) as [->|Hne].
    - rewrite lookup_insert_eq in Hl. inversion Hl; subst. simpl. lia.
    - rewrite lookup_insert_ne in Hl by congruence. eapply Hh. exact Hl. }
  specialize (Hsp (enumerate dets) (next_id s) (m_tracks st1) (m_history st1)
                (result st1) H1).
  destruct (fold_left (spawn clock (tracked_dets st1)) (enumerate dets) _)
    as [[[nid trk2] hist2] res].
  exact Hsp.
Qed.

(** X5. After any sequence of updates of a new letter tracker, every
    history it stores holds at least 1 and at most 100 entries, and a
    further update leaves, for every entry of its result, the detection of
    that entry at the end of the history of its track. *)
Theorem X5_history_capped (thr : Q) (max : nat)
    (frames : list ((nat -> Q) * list Detection)) :
  history_bounded (track_history (run frames (init thr max)))
  /\ forall clock dets r,
       In r (fst (update clock dets (run frames (init thr max)))) ->
       recorded clock
         (track_history (snd (update clock dets (run frames (init thr max))))) r.
Proof.
  split.
  - assert (history_bounded (track_history (init thr max))) as H0.
    { intros tid h H. simpl in H. rewrite lookup_empty in H. discriminate. }
    revert H0. generalize (init thr max).
    induction frames as [|f frames IH]; intros s H0; [exact H0|].
    change (run (f :: frames) s) with (run frames (step s f)).
    apply IH. apply update_history_bounded. exact H0.
  - intros clock dets r Hin.
    assert (wf (run frames (init thr max))) as Hwf by (apply run_wf, wf_init).
    destruct (update_has_detail clock dets _ Hwf) as (_ & _ & D3 & _).
    apply (D3 r Hin).
Qed.

End SideResult.
(** ** What the face tracker returns *)
Section RingResult.
Import RingScreen.

Lemma accept_pair_accepted (tids : list nat) (dets : list Box) (M : list (nat * Box))
    (c : Claimed) (p : Q * nat * nat) :
  accept_inv tids c -> accepted dets M c ->
  exists M', accepted dets M' (accept_pair tids dets c p).
Proof.
  intros [Hu _] HM. pose proof HM as (M1 & M2 & M3 & M4 & M5). unfold accept_pair.
  destruct (tids !! snd p) as [tid|] eqn:Et; [|exists M; exact HM].
  destruct (dets !! snd (fst p)) as [d|] eqn:Ed; [|exists M; exact HM].
  destruct (bool_decide (tid ∈ used_t c)) eqn:E1; [exists M; exact HM|].
  destruct (bool_decide (snd (fst p) ∈ used_d c)) eqn:E2; [exists M; exact HM|].
  apply bool_decide_eq_false in E1, E2. cbn [orb].
  exists (M ++ [(snd (fst p), d)]). unfold accepted. cbn [results used_d].
  rewrite !map_app. cbn [map fst snd].
  split; [rewrite M1; reflexivity|].
  split.
  { apply List.NoDup_app; [exact M2|repeat constructor; simpl; tauto|].
    intros a Ha [<-|[]]. apply E2, M4. exact Ha. }
  split.
  { intros e Hin. apply in_app_iff in Hin as [Hin|[<-|[]]]; [auto|].
    apply in_enumerate. exact Ed. }
  split.
  { intros j. rewrite elem_of_union, elem_of_singleton, in_app_iff, M4. simpl.
    split; [intros [->|H]; auto|intros [H|[<-|[]]]; auto]. }
  apply List.NoDup_app; [exact M5|repeat constructor; simpl; tauto|].
  intros a Ha [<-|[]]. apply E1, Hu. exact Ha.
Qed.

Lemma accept_loop_accepted (tids : list nat) (dets : list Box)
    (pairs : list (Q * nat * nat)) (c : Claimed) (M : list (nat * Box)) :
  accept_inv tids c -> accepted dets M c ->
  exists M', accepted dets M' (fold_left (accept_pair tids dets) pairs c).
Proof.
  revert c M. induction pairs as [|p pairs IH]; intros c M Hc HM; [exists M; exact HM|].
  cbn [fold_left].
  destruct (accept_pair_accepted tids dets M c p Hc HM) as [M' HM'].
  apply (IH _ M'); [apply accept_pair_inv; exact Hc|exact HM'].
Qed.

Lemma accept_pairs_accepted (tids : list nat) (dets : list Box)
    (pairs : list (Q * nat * nat)) :
  exists M, accepted dets M (accept_pairs tids dets pairs).
Proof.
  unfold accept_pairs. apply (accept_loop_accepted tids dets pairs _ []).
  - split; simpl; [|tauto]. intros tid. split; [|tauto].
    intros H. apply not_elem_of_empty in H. destruct H.
  - unfold accepted. simpl. split; [reflexivity|]. split; [constructor|].
    split; [intros e []|]. split; [|constructor].
    intros i. split; [intros H; apply not_elem_of_empty in H; destruct H|intros []].
Qed.

Lemma refresh_get (trk : list (nat * Track)) (res : list (nat * Box)) (r : nat * Box) :
  List.NoDup (map fst res) -> In r res -> is_Some (dict_get (fst r) trk) ->
  dict_get (fst r) (refresh trk res) = Some {| bbox := snd r; missed := 0 |}.
Proof.
  unfold refresh. revert trk. induction res as [|r0 res IH]; intros trk Hnd Hin Hs;
    [destruct Hin|].
  cbn [fold_left]. simpl in Hnd. apply List.NoDup_cons_iff in Hnd as [Hn Hnd].
  destruct Hin as [->|Hin].
  - fold (refresh (dict_alter (fun _ => {| bbox := snd r; missed := 0 |}) (fst r) trk) res).
    rewrite refresh_other by exact Hn.
    rewrite dict_get_alter, Nat.eqb_refl. destruct Hs as [t ->]. reflexivity.
  - apply IH; [exact Hnd|exact Hin|]. rewrite dict_get_alter.
    destruct (Nat.eqb (fst r) (fst r0)); [|exact Hs]. destruct Hs as [t ->]. simpl. eauto.
Qed.

(** The loop that creates tracks, entry by entry. *)
Lemma ring_spawn_detail (used : gset nat) (l : list (nat * Box)) (nid : nat)
    (trk : list (nat * Track)) (res : list (nat * Box)) nid' trk' res' :
  fold_left (spawn used) l (nid, trk, res) = (nid', trk', res') ->
  exists new,
    res' = res ++ new
    /\ map snd new = map snd (List.filter (fun e => negb (bool_decide (fst e ∈ used))) l)
    /\ map fst new = seq nid (nid' - nid)
    /\ (nid <= nid')%nat
    /\ forall r, In r new -> dict_get (fst r) trk' = Some {| bbox := snd r; missed := 0 |}.
Proof.
  revert nid trk res. induction l as [|e l IH]; intros nid trk res.
  - simpl. intros H. inversion H; subst. exists []. rewrite app_nil_r, Nat.sub_diag.
    split; [reflexivity|]. split; [reflexivity|]. split; [reflexivity|].
    split; [lia|]. intros ? [].
  - cbn [fold_left List.filter]. unfold spawn at 2.
    destruct (bool_decide (fst e ∈ used)); [apply IH|].
    intros H. pose proof H as H'.
    apply IH in H as (new & H1 & H2 & H3 & H4 & H5).
    apply ring_spawn_loop in H' as (_ & Hlow & _).
    exists ((nid, snd e) :: new). cbn [negb map fst snd].
    split; [rewrite H1, <- app_assoc; reflexivity|].
    split; [rewrite H2; reflexivity|].
    split.
    { rewrite H3. replace (nid' - nid)%nat with (S (nid' - S nid)) by lia. reflexivity. }
    split; [lia|].
    intros r [<-|Hr]; [|apply H5; exact Hr].
    cbn [fst snd]. rewrite Hlow by lia. rewrite dict_get_set, Nat.eqb_refl. reflexivity.
Qed.

Lemma ring_update_has_detail (dets : list Box) (s : IoUTracker) :
  ring_wf s -> ring_update_detail dets s (fst (update dets s)) (snd (update dets s)).
Proof.
  intros (Hd & Hb). unfold update.
  destruct (dict_keys (tracks s)) as [|k0 ks] eqn:Ekeys.
  - destruct (fold_left (spawn ∅) (enumerate dets) (next_id s, tracks s, []))
      as [[nid trk] res] eqn:Esp.
    apply ring_spawn_detail in Esp as (new & Hres & H2 & H3 & H4 & H5).
    simpl in Hres. subst res.
    unfold ring_update_detail. cbn [fst snd next_id tracks].
    split.
    { rewrite H2. apply (split_by_index dets [] ∅); [constructor|intros e []|].
      intros i. split; [intros H; apply not_elem_of_empty in H; destruct H|intros []]. }
    split; [rewrite H3; apply seq_NoDup|]. split; [exact H5|].
    intros tid Ht. rewrite H3. apply in_seq. lia.
  - rewrite <- Ekeys in *. clear Ekeys k0 ks.
    set (tids := dict_keys (tracks s)) in *.
    set (pairs := sorted_desc (candidate_pairs (iou_threshold s)
                                 (iou_matrix dets (tracks s)))).
    set (c := accept_pairs tids dets pairs).
    destruct (accept_pairs_inv tids dets pairs) as [Hu Hin]. fold c in Hu, Hin.
    destruct (accept_pairs_accepted tids dets pairs) as (M & M1 & M2 & M3 & M4 & M5).
    fold c in M1, M4, M5.
    destruct (fold_left (spawn (used_d c)) (enumerate dets)
                (next_id s, refresh (tracks s) (results c), results c))
      as [[nid trk2] res] eqn:Esp.
    pose proof Esp as Esp'.
    apply ring_spawn_loop in Esp' as (_ & Hlow & _).
    apply ring_spawn_detail in Esp as (new & Hres & H2 & H3 & H4 & H5).
    unfold ring_update_detail. cbn [fst snd next_id tracks].
    rewrite Hres, !map_app, M1, H2.
    assert (forall tid, In tid (map fst new) -> (next_id s <= tid < nid)%nat) as Hrange.
    { intros tid Ht. rewrite H3 in Ht. apply in_seq in Ht. lia. }
    split; [apply split_by_index; assumption|].
    split.
    { apply List.NoDup_app; [exact M5|rewrite H3; apply seq_NoDup|].
      intros tid G1 G2. apply Hin in G1. apply Hrange in G2.
      specialize (Hb tid G1). lia. }
    split.
    + intros r Hr. rewrite sweep_get. apply in_app_iff in Hr as [Hr|Hr].
      * assert (In (fst r) (map fst (results c))) as Hid by (apply in_map; exact Hr).
        assert (In (fst r) tids) as Hk by (apply Hin; exact Hid).
        rewrite age_other by (right; apply Hu; exact Hid).
        rewrite Hlow by (apply Hb; exact Hk).
        rewrite (refresh_get _ _ r M5 Hr) by (apply dict_get_in_keys; exact Hk).
        reflexivity.
      * assert (In (fst r) (map fst new)) as Hid by (apply in_map; exact Hr).
        apply Hrange in Hid.
        rewrite age_other
          by (left; intros Hk; specialize (Hb _ Hk); lia).
        rewrite (H5 r Hr). reflexivity.
    + intros tid Ht. apply in_app_iff. right. rewrite H3. apply in_seq. lia.
Qed.

(** X2. Every call of [update] of the face tracker resolves each
    detection of the frame exactly once: the boxes of the result are the
    detections up to order, no two entries share an id, and after the
    call each entry's track is live with the entry's box and no missed
    frame. *)
Theorem X2_ring_update_resolves_each_detection (dets : list Box) (s : IoUTracker) :
  ring_wf s ->
  Permutation (map snd (fst (update dets s))) dets
  /\ List.NoDup (map fst (fst (update dets s)))
  /\ forall r, In r (fst (update dets s)) ->
       dict_get (fst r) (tracks (snd (update dets s)))
       = Some {| bbox := snd r; missed := 0 |}.
Proof.
  intros Hwf. destruct (ring_update_has_detail dets s Hwf) as (H1 & H2 & H3 & _).
  auto.
Qed.

End RingResult.

(** ** A frame on a tracker without live tracks *)
Section FirstFrame.

Lemma dict_set_new {V : Type} (k : nat) (v : V) (d : list (nat * V)) :
  ~ In k (dict_keys d) -> dict_set k v d = d ++ [(k, v)].
Proof.
  unfold dict_keys. induction d as [|[k0 v0] d IH]; simpl; [reflexivity|].
  intros Hn. destruct (Nat.eqb_spec k k0) as [->|Hne]; [tauto|].
  rewrite IH by tauto. reflexivity.
Qed.

Lemma ring_spawn_all (l : list Box) (a nid : nat) (trk : list (nat * RingScreen.Track))
    (res : list (nat * Box)) :
  (forall k, In k (dict_keys trk) -> (k < nid)%nat) ->
  fold_left (RingScreen.spawn ∅) (combine (seq a (length l)) l) (nid, trk, res)
  = ((nid + length l)%nat,
     trk ++ map ring_track_of (numbered nid l),
     res ++ numbered nid l).
Proof.
  unfold numbered.
  revert a nid trk res. induction l as [|d l IH]; intros a nid trk res Hb.
  - simpl. rewrite !app_nil_r, Nat.add_0_r. reflexivity.
  - cbn [length seq combine fold_left]. unfold RingScreen.spawn at 2. cbn [fst snd].
    rewrite bool_decide_eq_false_2 by apply not_elem_of_empty.
    rewrite dict_set_new by (intros Hin; specialize (Hb _ Hin); lia).
    rewrite IH.
    + cbn [map]. unfold ring_track_of at 2. cbn [fst snd].
      rewrite <- !app_assoc. cbn [app]. repeat (f_equal; try lia).
    + intros k Hk. unfold dict_keys in Hk. rewrite map_app, in_app_iff in Hk.
      destruct Hk as [Hk|[<-|[]]]; [specialize (Hb k Hk)|simpl]; lia.
Qed.

Lemma side_spawn_all (clock : nat -> Q) (l : list SideScreen.tracker.Detection)
    (a nid : nat) (trk : list (nat * SideScreen.tracker.Track))
    (hist : gmap nat (list SideScreen.tracker.HistoryEntry))
    (res : list SideScreen.tracker.Resolved) :
  (forall k, In k (dict_keys trk) -> (k < nid)%nat) ->
  exists hist',
    fold_left (SideScreen.tracker.spawn clock ∅) (combine (seq a (length l)) l)
      (nid, trk, hist, res)
    = ((nid + length l)%nat,
       trk ++ map (fun p => (fst p, track_of (snd p))) (numbered nid l),
       hist',
       res ++ map (fun p => SideScreen.tracker.resolved (fst p) (snd p)) (numbered nid l)).
Proof.
  unfold numbered.
  revert a nid trk hist res. induction l as [|d l IH]; intros a nid trk hist res Hb.
  - exists hist. simpl. rewrite !app_nil_r, Nat.add_0_r. reflexivity.
  - cbn [length seq combine fold_left]. unfold SideScreen.tracker.spawn at 2.
    cbn [fst snd].
    rewrite bool_decide_eq_false_2 by apply not_elem_of_empty.
    rewrite dict_set_new by (intros Hin; specialize (Hb _ Hin); lia).
    edestruct IH as [hist' ->].
    + intros k Hk. unfold dict_keys in Hk. rewrite map_app, in_app_iff in Hk.
      destruct Hk as [Hk|[<-|[]]]; [specialize (Hb k Hk)|simpl]; lia.
    + exists hist'. cbn [map fst snd]. rewrite <- !app_assoc. cbn [app].
      repeat (f_equal; try lia).
Qed.

(** X3. On a tracker without live tracks (a new one, or one whose tracks
    have all been dropped) both trackers number the detections of the
    frame [next_id], [next_id + 1], ... in the order of the frame, return
    them in that order, and hold exactly these tracks afterwards. *)
Theorem X3_first_frame_numbering :
  (forall (clock : nat -> Q) (dets : list SideScreen.tracker.Detection)
          (s : SideScreen.tracker.IoUTracker),
      SideScreen.tracker.tracks s = [] ->
      fst (SideScreen.tracker.update clock dets s)
      = map (fun p => SideScreen.tracker.resolved (fst p) (snd p))
          (numbered (SideScreen.tracker.next_id s) dets)
      /\ SideScreen.tracker.tracks (snd (SideScreen.tracker.update clock dets s))
         = map (fun p => (fst p, track_of (snd p)))
             (numbered (SideScreen.tracker.next_id s) dets)
      /\ SideScreen.tracker.next_id (snd (SideScreen.tracker.update clock dets s))
         = (SideScreen.tracker.next_id s + length dets)%nat)
  /\ (forall (dets : list Box) (s : RingScreen.IoUTracker),
        RingScreen.tracks s = [] ->
        fst (RingScreen.update dets s) = numbered (RingScreen.next_id s) dets
        /\ RingScreen.tracks (snd (RingScreen.update dets s))
           = map ring_track_of (numbered (RingScreen.next_id s) dets)
        /\ RingScreen.next_id (snd (RingScreen.update dets s))
           = (RingScreen.next_id s + length dets)%nat).
Proof.
  split.
  - intros clock dets s Hs. unfold SideScreen.tracker.update. rewrite Hs.
    destruct dets as [|d ds].
    { cbn. rewrite Nat.add_0_r. auto. }
    cbv iota. cbn [length Nat.ltb Nat.leb dict_keys map enumerate].
    cbn [SideScreen.tracker.tracked_dets SideScreen.tracker.m_tracks
         SideScreen.tracker.m_history SideScreen.tracker.result].
    destruct (side_spawn_all clock (d :: ds) 0 (SideScreen.tracker.next_id s) []
                (SideScreen.tracker.track_history s) []) as [hist' E];
      [intros k []|].
    unfold enumerate. rewrite E. cbn [fst snd app fold_left
      SideScreen.tracker.tracks SideScreen.tracker.next_id seq combine length].
    auto.
  - intros dets s Hs. unfold RingScreen.update. rewrite Hs. cbn [dict_keys map].
    unfold enumerate.
    rewrite (ring_spawn_all dets 0 (RingScreen.next_id s) [] []) by (intros k []).
    cbn. auto.
Qed.

End FirstFrame.

Lemma X1_side_update_resolves_each_detection_witness :
  Permutation
    (map detection_of
       (fst (SideScreen.tracker.update noon [letter 0 0 10 10; letter 20 20 30 30]
               one_letter)))
    [letter 0 0 10 10; letter 20 20 30 30]
  /\ List.NoDup
       (ids (fst (SideScreen.tracker.update noon [letter 0 0 10 10; letter 20 20 30 30]
                    one_letter)))
  /\ length (fst (SideScreen.tracker.update noon [letter 0 0 10 10; letter 20 20 30 30]
                    one_letter)) = 2%nat.
Proof.
  apply (X1_side_update_resolves_each_detection noon
           [letter 0 0 10 10; letter 20 20 30 30] one_letter).
  exact wf_one_letter.
Defined.

Lemma X2_ring_update_resolves_each_detection_witness :
  Permutation
    (map snd (fst (RingScreen.update [mkBox 20 20 30 30; mkBox 0 0 10 10] one_face)))
    [mkBox 20 20 30 30; mkBox 0 0 10 10]
  /\ List.NoDup
       (map fst (fst (RingScreen.update [mkBox 20 20 30 30; mkBox 0 0 10 10] one_face)))
  /\ forall r,
       In r (fst (RingScreen.update [mkBox 20 20 30 30; mkBox 0 0 10 10] one_face)) ->
       dict_get (fst r)
         (RingScreen.tracks
            (snd (RingScreen.update [mkBox 20 20 30 30; mkBox 0 0 10 10] one_face)))
       = Some {| RingScreen.bbox := snd r; RingScreen.missed := 0 |}.
Proof.
  apply (X2_ring_update_resolves_each_detection
           [mkBox 20 20 30 30; mkBox 0 0 10 10] one_face).
  apply (ring_update_has_facts [mkBox 0 0 10 10]). apply ring_wf_init.
Defined.

Lemma X3_first_frame_numbering_witness :
  fst (SideScreen.tracker.update noon [letter 0 0 10 10; letter 20 20 30 30]
         (SideScreen.tracker.init (3 # 10) 1))
  = [SideScreen.tracker.resolved 1 (letter 0 0 10 10);
     SideScreen.tracker.resolved 2 (letter 20 20 30 30)]
  /\ fst (RingScreen.update [mkBox 0 0 10 10; mkBox 20 20 30 30]
            (RingScreen.init (3 # 10) 1))
     = [(1%nat, mkBox 0 0 10 10); (2%nat, mkBox 20 20 30 30)].
Proof.
  split.
  - apply (proj1 X3_first_frame_numbering noon [letter 0 0 10 10; letter 20 20 30 30]
             (SideScreen.tracker.init (3 # 10) 1)).
    reflexivity.
  - apply (proj2 X3_first_frame_numbering [mkBox 0 0 10 10; mkBox 20 20 30 30]
             (RingScreen.init (3 # 10) 1)).
    reflexivity.
Defined.

Lemma X4_active_tracks_are_the_result_witness :
  (forall tid a,
      In (tid, a)
        (SideScreen.tracker.get_active_tracks
           (snd (SideScreen.tracker.update noon [letter 20 20 30 30] one_letter)))
      <-> exists r,
            In r (fst (SideScreen.tracker.update noon [letter 20 20 30 30] one_letter))
            /\ SideScreen.tracker.r_track_id r = tid /\ a = active_of r)
  /\ length (SideScreen.tracker.get_active_tracks
               (snd (SideScreen.tracker.update noon [letter 20 20 30 30] one_letter)))
     = 1%nat.
Proof.
  apply (X4_active_tracks_are_the_result noon [letter 20 20 30 30] one_letter).
  exact wf_one_letter.
Defined.

Lemma X5_history_capped_witness :
  recorded noon
    (SideScreen.tracker.track_history
       (snd (SideScreen.tracker.update noon [letter 0 0 10 10]
               (run [] (SideScreen.tracker.init (3 # 10) 1)))))
    (SideScreen.tracker.resolved 1 (letter 0 0 10 10)).
Proof.
  apply (proj2 (X5_history_capped (3 # 10) 1 []) noon [letter 0 0 10 10]).
  left. reflexivity.
Defined.

Lemma X8_side_matches_overlap_witness :
  continues one_letter (SideScreen.tracker.resolved 1 (letter 0 0 10 10))
  /\ (SideScreen.tracker.next_id one_letter
      <= SideScreen.tracker.r_track_id (SideScreen.tracker.resolved 2 (letter 5 5 5 9)))%nat.
Proof.
  split.
  - apply (X8_side_matches_overlap noon [letter 0 0 10 10] one_letter
             (SideScreen.tracker.resolved 1 (letter 0 0 10 10)));
      [exact wf_one_letter|left; reflexivity|vm_compute; lia].
  - apply (X8_side_matches_overlap noon [letter 5 5 5 9] one_letter
             (SideScreen.tracker.resolved 2 (letter 5 5 5 9)));
      [exact wf_one_letter|left; reflexivity|vm_compute; discriminate|reflexivity].
Defined.

(** ** The report gate over a frame *)
Section GateFrame.
Import SideScreen.tracker SideScreen.main.

(** X9. The gate never forgets: over a call of
    [send_letter_detection_results] the first-detection time of a track
    that had one is kept as it was, every reported object has one
    afterwards, and whatever had a last-sent time or state still has
    one. *)
Theorem X9_gate_never_forgets (cfg : Config) (current_time : Q)
    (tracked_objects : list Resolved) (g : Gate) :
  let g' := send_letter_detection_results cfg current_time tracked_objects g in
  (forall track_id t0,
      first_detection_time g !! track_id = Some t0 ->
      first_detection_time g' !! track_id = Some t0)
  /\ (forall obj, In obj tracked_objects ->
        is_Some (first_detection_time g' !! r_track_id obj))
  /\ (forall track_id,
        is_Some (last_sent_time g !! track_id) ->
        is_Some (last_sent_time g' !! track_id))
  /\ (forall track_id,
        is_Some (last_sent_state g !! track_id) ->
        is_Some (last_sent_state g' !! track_id)).
Proof.
  unfold send_letter_detection_results. revert g.
  induction tracked_objects as [|obj objs IH]; intros g.
  - simpl. repeat split; auto. intros obj [].
  - cbn [fold_left]. cbv zeta in *.
    destruct (IH (gate_object cfg current_time g obj)) as (I1 & I2 & I3 & I4).
    destruct (gate_object_dicts cfg current_time g obj) as [Hf Hs]. cbv zeta in *.
    assert (forall track_id t0,
               first_detection_time g !! track_id = Some t0 ->
               first_detection_time (gate_object cfg current_time g obj) !! track_id
               = Some t0) as Hkeep.
    { intros track_id t0 Ht. rewrite Hf.
      destruct (first_detection_time g !! r_track_id obj) eqn:E; [exact Ht|].
      rewrite lookup_insert_ne; [exact Ht|]. intros <-. congruence. }
    split; [intros track_id t0 Ht; apply I1, Hkeep; exact Ht|].
    split.
    { intros o [<-|Hin]; [|apply I2; exact Hin].
      assert (is_Some (first_detection_time (gate_object cfg current_time g obj)
                         !! r_track_id obj)) as [t0 Ht0].
      { rewrite Hf. destruct (first_detection_time g !! r_track_id obj) eqn:E.
        - rewrite E. eauto.
        - rewrite lookup_insert_eq. eauto. }
      rewrite (I1 _ _ Ht0). eauto. }
    split.
    + intros track_id Hs'. apply I3.
      destruct Hs as [(-> & _)|(-> & _)]; [exact Hs'|].
      destruct (decide (r_track_id obj = track_id)) as [->|Hne];
        [rewrite lookup_insert_eq; eauto|rewrite lookup_insert_ne by exact Hne; exact Hs'].
    + intros track_id Hs'. apply I4.
      destruct Hs as [(_ & -> & _)|(_ & -> & _)]; [exact Hs'|].
      destruct (decide (r_track_id obj = track_id)) as [->|Hne];
        [rewrite lookup_insert_eq; eauto|rewrite lookup_insert_ne by exact Hne; exact Hs'].
Qed.

(** X10. A call of [send_letter_detection_results] in which no object
    passes the stability filter sends nothing and leaves the last-sent
    records alone; with [SEND_ONLY_STABLE] and a positive
    [STABLE_TIME_THRESHOLD] this is the case when the gate sees every
    track of the call for the first time. *)
Theorem X10_unstable_objects_not_reported (cfg : Config) (current_time : Q)
    (tracked_objects : list Resolved) (g : Gate) :
  ((forall obj, In obj tracked_objects -> ~ passes_stability cfg current_time g obj)
   \/ (SEND_ONLY_STABLE cfg = true /\ (0 < STABLE_TIME_THRESHOLD cfg)%Q
       /\ forall obj, In obj tracked_objects ->
            first_detection_time g !! r_track_id obj = None)) ->
  let g' := send_letter_detection_results cfg current_time tracked_objects g in
  sent g' = sent g /\ last_sent_time g' = last_sent_time g
  /\ last_sent_state g' = last_sent_state g.
Proof.
  intros Hcase.
  assert (forall obj, In obj tracked_objects -> ~ passes_stability cfg current_time g obj)
    as Hun.
  { destruct Hcase as [H|(Hs & Ht & Hnew)]; [exact H|].
    intros obj Hin [Hp|[Hp _]]; [congruence|].
    unfold first_seen in Hp. rewrite (Hnew obj Hin) in Hp. simpl in Hp.
    rewrite fl_minus_self in Hp. exact (Qlt_not_le _ _ Ht Hp). }
  clear Hcase. unfold send_letter_detection_results. revert g Hun.
  induction tracked_objects as [|obj objs IH]; intros g Hun; [simpl; auto|].
  cbn [fold_left]. cbv zeta.
  destruct (gate_object_unstable cfg current_time g obj) as (E1 & E2 & E3);
    [apply Hun; left; reflexivity|].
  destruct (IH (gate_object cfg current_time g obj)) as (I1 & I2 & I3).
  { intros o Hin Hp. apply (Hun o); [right; exact Hin|].
    unfold passes_stability in *. rewrite gate_object_first_seen in Hp. exact Hp. }
  rewrite I1, I2, I3. auto.
Qed.

Lemma pos_Q (w : positive) : (0 < inject_Z (Zpos w))%Q.
Proof. unfold Qlt. simpl. lia. Qed.

Lemma unit_div (q : Q) (w : positive) :
  (0 <= q <= inject_Z (Zpos w))%Q -> unit_range (q / inject_Z (Zpos w)).
Proof.
  intros [H0 H1]. pose proof (pos_Q w) as Hw. split.
  - apply Qle_shift_div_l; [exact Hw|]. rewrite Qmult_0_l. exact H0.
  - apply Qle_shift_div_r; [exact Hw|]. rewrite Qmult_1_l. exact H1.
Qed.

Lemma unit_flip (q : Q) : unit_range q -> unit_range (1 - q).
Proof. unfold unit_range. intros [H0 H1]. split; lra. Qed.

Lemma unit_fl (q : Q) : unit_range q -> unit_range (fl q).
Proof. intros [H0 H1]. split; [apply fl_nonneg|apply fl_le_1]; assumption. Qed.

(** X11. For a box inside the frame, the four numbers of a letter
    report (centre, with the vertical axis flipped, and size, divided by
    the frame size) all lie between 0 and 1; a person message for the
    same box carries the same four numbers. *)
Theorem X11_reports_in_unit_square (cfg : Config) (obj : Resolved) :
  in_frame (Zpos (frame_width cfg)) (Zpos (frame_height cfg)) (r_bbox obj) ->
  let cur := current_state cfg obj in
  unit_range (norm_x cur) /\ unit_range (norm_y cur)
  /\ unit_range (norm_w cur) /\ unit_range (norm_h cur)
  /\ person_message cfg (r_bbox obj) (r_conf obj)
     = {| address := PERSON_OSC_ADDRESS;
          args := [OFloat (norm_x cur); OFloat (norm_y cur); OFloat (norm_w cur);
                   OFloat (norm_h cur); OFloat (r_conf obj)] |}.
Proof.
  intros (X0 & X1 & X2 & Y0 & Y1 & Y2). cbv zeta.
  unfold current_state. cbn [norm_x norm_y norm_w norm_h].
  rewrite Zle_Qle in X0, X1, X2, Y0, Y1, Y2.
  change (inject_Z 0) with 0%Q in X0, Y0.
  split; [|split; [|split; [|split; [|reflexivity]]]].
  - apply unit_fl, unit_div. unfold Z.sub. rewrite inject_Z_plus, inject_Z_opp.
    unfold Qdiv. setoid_replace (/ 2)%Q with (1 # 2)%Q using relation Qeq by reflexivity. split; lra.
  - apply unit_fl, unit_flip, unit_fl, unit_div. unfold Z.sub. rewrite inject_Z_plus, inject_Z_opp.
    unfold Qdiv. setoid_replace (/ 2)%Q with (1 # 2)%Q using relation Qeq by reflexivity. split; lra.
  - apply unit_fl, unit_div. unfold Z.sub. rewrite inject_Z_plus, inject_Z_opp. split; lra.
  - apply unit_fl, unit_div. unfold Z.sub. rewrite inject_Z_plus, inject_Z_opp. split; lra.
Qed.

End GateFrame.

(** ** Detections as parallel lists *)
Section Detections.
Import SideScreen.detection.

Lemma triples_untriples (t : list (Box * Z * Q)) : triples (untriples t) = t.
Proof.
  unfold triples, untriples. cbn [fst snd].
  induction t as [|[[b c] f] t IH]; [reflexivity|]. cbn. rewrite IH. reflexivity.
Qed.

Lemma untriples_triples (r : list Box * list Z * list Q) :
  parallel_lists r -> untriples (triples r) = r.
Proof.
  destruct r as [[bs cs] fs]. unfold parallel_lists, triples, untriples. cbn [fst snd].
  revert cs fs. induction bs as [|b bs IH]; intros [|c cs] [|f fs] [H1 H2];
    try discriminate; [reflexivity|].
  simpl in H1, H2. specialize (IH cs fs ltac:(split; lia)).
  injection IH as E1 E2 E3. cbn. congruence.
Qed.

Lemma parallel_untriples (t : list (Box * Z * Q)) : parallel_lists (untriples t).
Proof. unfold parallel_lists, untriples. cbn [fst snd]. rewrite !length_map. auto. Qed.

Lemma append3_untriples (t1 t2 : list (Box * Z * Q)) :
  append3 (untriples t1) (untriples t2) = untriples (t1 ++ t2).
Proof. unfold append3, untriples. cbn [fst snd]. rewrite !map_app. reflexivity. Qed.

Lemma reading_class (p : Prediction) : snd (fst (reading p)) = py_int (p_cls p).
Proof. unfold reading. destruct (p_xyxy p) as [[[x1 y1] x2] y2]. reflexivity. Qed.

(** [detect_with_model] as a filter over the predictions. *)
Lemma detect_with_model_spec (result_boxes : list Prediction)
    (class_filter : option (list Z)) :
  detect_with_model (Some result_boxes) class_filter
  = untriples
      (List.filter (fun e => negb (filtered_out class_filter (snd (fst e))))
         (map reading result_boxes)).
Proof.
  unfold detect_with_model.
  change ([], [], []) with (untriples []) at 1.
  rewrite <- (app_nil_l (List.filter _ _)). generalize (@nil (Box * Z * Q)).
  induction result_boxes as [|p l IH]; intros acc.
  - simpl. rewrite app_nil_r. reflexivity.
  - cbn [fold_left map List.filter]. rewrite reading_class.
    destruct (filtered_out class_filter (py_int (p_cls p))) eqn:E; cbn [negb].
    + apply (IH acc).
    + match goal with |- _ = untriples (acc ++ reading p :: ?X) =>
        replace (acc ++ reading p :: X) with ((acc ++ [reading p]) ++ X)
          by (rewrite <- app_assoc; reflexivity) end.
      rewrite <- (IH (acc ++ [reading p])). f_equal.
      unfold untriples, reading. destruct (p_xyxy p) as [[[x1 y1] x2] y2].
      rewrite !map_app. reflexivity.
Qed.

Lemma filter_map_comm {A B : Type} (f : B -> bool) (g : A -> B) (l : list A) :
  List.filter f (map g l) = map g (List.filter (fun x => f (g x)) l).
Proof.
  induction l as [|x l IH]; [reflexivity|]. simpl.
  destruct (f (g x)); simpl; rewrite IH; reflexivity.
Qed.

Lemma filter_filter_same {A : Type} (f : A -> bool) (l : list A) :
  List.filter f (List.filter f l) = List.filter f l.
Proof.
  induction l as [|x l IH]; [reflexivity|]. simpl.
  destruct (f x) eqn:E; simpl; rewrite ?E, IH; reflexivity.
Qed.

Lemma detect_classes (predicted : option (list Prediction)) (l : list Z) :
  Forall (fun c => In c l) (snd (fst (detect_with_model predicted (Some l)))).
Proof.
  destruct predicted as [p|]; [|constructor].
  rewrite detect_with_model_spec. cbn [untriples fst snd].
  apply List.Forall_forall. intros c Hc. apply in_map_iff in Hc as (e & <- & He).
  apply filter_In in He as [_ He]. apply negb_true_iff in He.
  cbn [filtered_out] in He. apply negb_false_iff, existsb_exists in He.
  destruct He as (x & Hx & Hxe). apply Z.eqb_eq in Hxe. subst x. exact Hx.
Qed.

(** X21. [detect_with_model] returns three lists of one length, at most
    the number of predictions, so that pairing them up loses nothing;
    with a class filter every class id it returns is in the filter; and
    when anything in it raises it returns three empty lists. *)
Theorem X21_detect_with_model_lists (predicted : option (list Prediction))
    (class_filter : option (list Z)) :
  parallel_lists (detect_with_model predicted class_filter)
  /\ (length (snd (detect_with_model predicted class_filter))
      <= length (default [] predicted))%nat
  /\ length (SideScreen.GAFDetectionSystem.parallel
               (detect_with_model predicted class_filter))
     = length (snd (detect_with_model predicted class_filter))
  /\ (forall l, class_filter = Some l ->
        Forall (fun c => In c l) (snd (fst (detect_with_model predicted class_filter))))
  /\ detect_with_model None class_filter = ([], [], []).
Proof.
  assert (parallel_lists (detect_with_model predicted class_filter)) as Hp.
  { destruct predicted as [l|]; [|split; reflexivity].
    rewrite detect_with_model_spec. apply parallel_untriples. }
  split; [exact Hp|]. split; [|split; [|split; [|reflexivity]]].
  - destruct predicted as [l|]; [|simpl; lia].
    rewrite detect_with_model_spec. cbn [untriples snd default from_option].
    rewrite length_map. etransitivity; [apply List.filter_length_le|].
    rewrite length_map. unfold id. lia.
  - destruct (detect_with_model predicted class_filter) as [[bs cs] fs].
    destruct Hp as [H1 H2]. cbn [fst snd] in *.
    unfold SideScreen.GAFDetectionSystem.parallel.
    rewrite length_map, !length_combine. lia.
  - intros l ->. apply detect_classes.
Qed.

(** The loop of [filter_detections_by_class] on parallel lists. *)
Lemma filter_loop_spec (target : list Z) (t1 t2 acc : list (Box * Z * Q)) :
  filter_loop (fst (fst (untriples (t1 ++ t2)))) (snd (untriples (t1 ++ t2))) target
    (combine (seq (length t1) (length t2)) (snd (fst (untriples t2)))) (untriples acc)
  = Some (untriples (acc ++ List.filter (of_class target) t2)).
Proof.
  revert t1 acc. induction t2 as [|e t2 IH]; intros t1 acc.
  - simpl. rewrite app_nil_r. reflexivity.
  - cbn [untriples fst snd length seq map combine filter_loop List.filter].
    assert (t1 ++ e :: t2 = (t1 ++ [e]) ++ t2) as Happ
      by (rewrite <- app_assoc; reflexivity).
    specialize (IH (t1 ++ [e])). rewrite <- Happ in IH.
    rewrite length_app in IH. cbn [length] in IH. rewrite Nat.add_1_r in IH.
    cbn [untriples fst snd] in IH.
    unfold of_class at 1.
    destruct (existsb (Z.eqb (snd (fst e))) target).
    + rewrite !list_lookup_fmap, lookup_app_r, Nat.sub_diag by lia. cbn.
      match goal with |- filter_loop _ _ _ _ ?a = _ =>
        replace a with (untriples (acc ++ [e]))
          by (unfold untriples; rewrite !map_app; reflexivity) end.
      rewrite IH, <- app_assoc. reflexivity.
    + apply IH.
Qed.

Lemma filter_by_class_parallel (target : list Z) (t : list (Box * Z * Q)) :
  target <> [] ->
  filter_detections_by_class (fst (fst (untriples t))) (snd (fst (untriples t)))
    (snd (untriples t)) (Some target)
  = Some (untriples (List.filter (of_class target) t)).
Proof.
  intros Hne. unfold filter_detections_by_class.
  destruct target as [|c0 cs]; [congruence|].
  unfold enumerate.
  replace (length (snd (fst (untriples t)))) with (length t)
    by (cbn [untriples fst snd]; rewrite length_map; reflexivity).
  change ([], [], []) with (untriples []).
  apply (filter_loop_spec (c0 :: cs) [] t []).
Qed.

(** X22. On three lists of one length and a non-empty list of target
    classes, [filter_detections_by_class] returns the detections of a
    target class, in order, again as three lists of one length; every
    class id it returns is a target class, and filtering its result again
    changes nothing. *)
Theorem X22_filter_detections_by_class (detections : list Box) (class_ids : list Z)
    (confs : list Q) (target : list Z) :
  parallel_lists (detections, class_ids, confs) ->
  target <> [] ->
  exists r,
    filter_detections_by_class detections class_ids confs (Some target) = Some r
    /\ triples r = List.filter (of_class target) (triples (detections, class_ids, confs))
    /\ parallel_lists r
    /\ Forall (fun c => In c target) (snd (fst r))
    /\ filter_detections_by_class (fst (fst r)) (snd (fst r)) (snd r) (Some target)
       = Some r.
Proof.
  intros Hp Hne. set (t := triples (detections, class_ids, confs)).
  assert (untriples t = (detections, class_ids, confs)) as Ht
    by (apply untriples_triples; exact Hp).
  exists (untriples (List.filter (of_class target) t)).
  split.
  { pose proof (filter_by_class_parallel target t Hne) as H. rewrite Ht in H. exact H. }
  split; [apply triples_untriples|]. split; [apply parallel_untriples|].
  split.
  - cbn [untriples fst snd]. apply List.Forall_forall. intros c Hc.
    apply in_map_iff in Hc as (e & <- & He). apply filter_In in He as [_ He].
    unfold of_class in He. apply existsb_exists in He as (x & Hx & Hxe).
    apply Z.eqb_eq in Hxe. subst x. exact Hx.
  - rewrite (filter_by_class_parallel target _ Hne), filter_filter_same. reflexivity.
Qed.

(** A class that is kept and has no box or no confidence at its index
    ends the loop in the IndexError. *)
Lemma filter_loop_index_error (detections : list Box) (confs : list Q) (target : list Z)
    (l : list (nat * Z)) (acc : list Box * list Z * list Q) (i : nat) (c : Z) :
  In (i, c) l -> existsb (Z.eqb c) target = true ->
  detections !! i = None \/ confs !! i = None ->
  filter_loop detections confs target l acc = None.
Proof.
  intros Hin Hc Hmiss. revert acc. induction l as [|[j c'] l IH]; intros acc;
    [destruct Hin|].
  cbn [filter_loop]. destruct Hin as [Heq|Hin].
  - inversion Heq; subst j c'. rewrite Hc.
    destruct Hmiss as [-> | ->]; [reflexivity|].
    destruct (detections !! i); reflexivity.
  - destruct (existsb (Z.eqb c') target); [|apply IH; exact Hin].
    destruct (detections !! j); [|reflexivity].
    destruct (confs !! j); [|reflexivity].
    destruct acc as [[a1 a2] a3]. apply IH. exact Hin.
Qed.

(** X23. The edges of [filter_detections_by_class], and how it composes
    with [detect_with_model].  Without target classes ([None], another
    type, or an empty list) the three lists come back unchanged; a class
    id that is kept at an index where [detections] or [confs] has no
    element raises the IndexError; filtering what [detect_with_model]
    returned without a filter gives what it returns with the filter,
    unless the filter is empty: then [detect_with_model] returns nothing
    and [filter_detections_by_class] everything. *)
Theorem X23_filter_edges_and_composition :
  (forall detections class_ids confs,
      filter_detections_by_class detections class_ids confs None
      = Some (detections, class_ids, confs)
      /\ filter_detections_by_class detections class_ids confs (Some [])
         = Some (detections, class_ids, confs))
  /\ (forall detections class_ids confs target i c,
        class_ids !! i = Some c -> In c target ->
        detections !! i = None \/ confs !! i = None ->
        filter_detections_by_class detections class_ids confs (Some target) = None)
  /\ (forall predicted target,
        target <> [] ->
        filter_detections_by_class
          (fst (fst (detect_with_model predicted None)))
          (snd (fst (detect_with_model predicted None)))
          (snd (detect_with_model predicted None)) (Some target)
        = Some (detect_with_model predicted (Some target)))
  /\ (forall predicted,
        detect_with_model predicted (Some []) = ([], [], [])
        /\ filter_detections_by_class
             (fst (fst (detect_with_model predicted None)))
             (snd (fst (detect_with_model predicted None)))
             (snd (detect_with_model predicted None)) (Some [])
           = Some (detect_with_model predicted None)).
Proof.
  split; [intros; split; reflexivity|]. split; [|split].
  - intros detections class_ids confs target i c Hi Hc Hmiss.
    unfold filter_detections_by_class. destruct target as [|c0 cs]; [destruct Hc|].
    apply (filter_loop_index_error _ _ _ _ _ i c).
    + apply in_enumerate. exact Hi.
    + apply existsb_exists. exists c. split; [exact Hc|apply Z.eqb_refl].
    + exact Hmiss.
  - intros [l|] target Hne.
    + rewrite !detect_with_model_spec, (filter_by_class_parallel target _ Hne).
      f_equal. f_equal. rewrite !filter_map_comm. f_equal.
      cbn [filtered_out negb]. rewrite (filter_all (fun _ => true)).
      * apply List.filter_ext. intros p. unfold of_class.
        rewrite negb_involutive. reflexivity.
      * apply List.Forall_forall. reflexivity.
    + destruct target as [|c0 cs]; [congruence|]. reflexivity.
  - intros [l|]; [|split; reflexivity]. split.
    + rewrite detect_with_model_spec. cbn [filtered_out existsb negb].
      induction (map reading l) as [|e t IH]; [reflexivity|exact IH].
    + destruct (detect_with_model (Some l) None) as [[bs cs] fs]. reflexivity.
Qed.

End Detections.

(** ** The letters of a frame: detection, tracking, reports *)
Section LettersFrame.
Import SideScreen.tracker SideScreen.main SideScreen.GAFDetectionSystem.

Lemma sublist_filter_mono {A : Type} (f g : A -> bool) (l : list A) :
  (forall x, In x l -> f x = true -> g x = true) ->
  sublist (List.filter f l) (List.filter g l).
Proof.
  induction l as [|x l IH]; intros H; [constructor|]. simpl.
  specialize (IH ltac:(intros y Hy; apply H; right; exact Hy)).
  destruct (f x) eqn:Ef.
  - rewrite (H x (or_introl eq_refl) Ef). apply sublist_skip. exact IH.
  - destruct (g x); [apply sublist_cons|]; exact IH.
Qed.

(** With [SEND_ONLY_STABLE], the reports of a call are those of some of
    its stable objects, one each, in their order. *)
Lemma gate_fold_reports (cfg : Config) (current_time : Q) (objs : list Resolved)
    (g : Gate) :
  SEND_ONLY_STABLE cfg = true ->
  exists reported,
    sublist reported
      (List.filter
         (fun o => stable cfg current_time
                     (first_seen current_time g (r_track_id o)) (r_conf o))
         objs)
    /\ sent (send_letter_detection_results cfg current_time objs g)
       = sent g ++ map (fun o => report (current_state cfg o)) reported.
Proof.
  intros Hs. unfold send_letter_detection_results. revert g.
  induction objs as [|obj objs IH]; intros g.
  { exists []. simpl. rewrite app_nil_r. split; [constructor|reflexivity]. }
  cbn [fold_left List.filter].
  destruct (IH (gate_object cfg current_time g obj)) as (rep & Hsub & Hsent).
  erewrite List.filter_ext in Hsub
    by (intros o; rewrite gate_object_first_seen; reflexivity).
  destruct (stable cfg current_time (first_seen current_time g (r_track_id obj))
              (r_conf obj)) eqn:E.
  - destruct (gate_object_sent cfg current_time g obj) as [[H _]|[H _]];
      cbv zeta in H; rewrite H in Hsent.
    + exists rep. split; [apply sublist_cons; exact Hsub|exact Hsent].
    + exists (obj :: rep). split; [apply sublist_skip; exact Hsub|].
      rewrite Hsent, <- app_assoc. reflexivity.
  - destruct (gate_object_unstable cfg current_time g obj) as (H & _).
    + intros [Hp|[H1 H2]]; [congruence|].
      unfold stable in E. apply andb_false_iff in E as [E|E];
        apply not_true_iff_false in E; apply E; apply Qle_bool_iff; assumption.
    + exists rep. split; [exact Hsub|]. rewrite Hsent, H. reflexivity.
Qed.

Lemma stable_known (cfg : Config) (current_time : Q) (g : Gate) (track_id : nat)
    (conf : Q) :
  (0 < STABLE_TIME_THRESHOLD cfg)%Q ->
  stable cfg current_time (first_seen current_time g track_id) conf = true ->
  known g track_id = true.
Proof.
  intros Ht Hs. unfold known. apply bool_decide_eq_true.
  unfold stable in Hs. apply andb_true_iff in Hs as [Hs _]. apply Qle_bool_iff in Hs.
  unfold first_seen in Hs.
  destruct (first_detection_time g !! track_id) as [t0|]; [eauto|].
  exfalso. simpl in Hs. rewrite fl_minus_self in Hs. exact (Qlt_not_le _ _ Ht Hs).
Qed.

(** Whatever the gate knows after a call, it knew before or saw in the
    call. *)
Lemma gate_fold_known (cfg : Config) (current_time : Q) (objs : list Resolved)
    (g : Gate) (track_id : nat) :
  known (send_letter_detection_results cfg current_time objs g) track_id = true ->
  known g track_id = true \/ In track_id (ids objs).
Proof.
  unfold send_letter_detection_results. revert g.
  induction objs as [|obj objs IH]; intros g; [auto|].
  cbn [fold_left]. intros H. apply IH in H as [H|H]; [|right; right; exact H].
  unfold known in *. apply bool_decide_eq_true in H.
  destruct (gate_object_dicts cfg current_time g obj) as [Hf _]. cbv zeta in Hf.
  rewrite Hf in H.
  destruct (first_detection_time g !! r_track_id obj) eqn:E.
  - left. apply bool_decide_eq_true. exact H.
  - destruct (decide (r_track_id obj = track_id)) as [<-|Hne].
    + right. left. reflexivity.
    + rewrite lookup_insert_ne in H by exact Hne.
      left. apply bool_decide_eq_true. exact H.
Qed.

Lemma in_parallel_class (r : list Box * list Z * list Q) (d : Detection) :
  In d (parallel r) -> In (d_class_id d) (snd (fst r)).
Proof.
  destruct r as [[bs cs] fs]. unfold parallel. cbn [fst snd].
  intros H. apply in_map_iff in H as ([[b c] f] & <- & Hin). cbn [d_class_id fst snd].
  apply in_combine_l in Hin. apply in_combine_r in Hin. exact Hin.
Qed.

(** X12. The letters of a frame.  When the tracker and the gate fit
    together (the gate has only seen ids the tracker handed out), they
    still do after [process_frame] has detected, tracked and reported the
    letters of a frame; every tracked object has one of the classes of
    [CLASS_NAME_MAP]; and with [SEND_ONLY_STABLE] and a positive
    [STABLE_TIME_THRESHOLD] a track is never reported in the frame that
    creates it: the messages of the frame are the reports of some of the
    objects that continue a track handed out before the frame, one each
    and in their order, so there are at most as many as such objects. *)
Theorem X12_letters_of_a_frame (cfg : Config)
    (predicted : option (list SideScreen.detection.Prediction)) (clock : nat -> Q)
    (current_time : Q) (st : IoUTracker * Gate) :
  letters_ok st ->
  SEND_ONLY_STABLE cfg = true ->
  (0 < STABLE_TIME_THRESHOLD cfg)%Q ->
  let objs := fst (process_frame_letters cfg predicted clock current_time st) in
  let st' := snd (process_frame_letters cfg predicted clock current_time st) in
  letters_ok st'
  /\ Forall (fun o => In (r_class_id o) CLASS_NAME_MAP_values) objs
  /\ (exists reported,
        sublist reported
          (List.filter (fun o => Nat.ltb (r_track_id o) (next_id (fst st))) objs)
        /\ sent (snd st')
           = sent (snd st) ++ map (fun o => report (current_state cfg o)) reported)
  /\ (length (sent (snd st'))
      <= length (sent (snd st))
         + length (List.filter (fun o => Nat.ltb (r_track_id o) (next_id (fst st))) objs))%nat.
Proof.
  intros (Hwf & Hcons & Hknown) Hs Ht. destruct st as [tr g]. cbn [fst snd] in *.
  unfold process_frame_letters. cbn [fst snd].
  set (dets := parallel (SideScreen.detection.detect_with_model predicted
                           (Some CLASS_NAME_MAP_values))).
  pose proof (update_has_facts clock dets tr Hwf) as (_ & _ & Hmono & Hwf' & _ & Hhit & _).
  pose proof (update_has_detail clock dets tr Hwf) as (Hperm & _).
  destruct (update clock dets tr) as [objs tr'] eqn:Eu. cbn [fst snd] in *.
  assert (match objs with
          | [] => g
          | _ :: _ => send_letter_detection_results cfg current_time objs g
          end = send_letter_detection_results cfg current_time objs g) as ->
    by (destruct objs; reflexivity).
  cbv zeta. cbn [fst snd].
  assert (exists reported,
             sublist reported
               (List.filter (fun o => Nat.ltb (r_track_id o) (next_id tr)) objs)
             /\ sent (send_letter_detection_results cfg current_time objs g)
                = sent g ++ map (fun o => report (current_state cfg o)) reported)
    as Hreports.
  { destruct (gate_fold_reports cfg current_time objs g Hs) as (rep & Hsub & Hsent).
    exists rep. split; [|exact Hsent].
    etransitivity; [exact Hsub|]. apply sublist_filter_mono.
    intros o _ Ho. apply Nat.ltb_lt. apply Hknown.
    eapply stable_known; eauto. }
  split; [|split; [|split]].
  - split; [exact Hwf'|]. split.
    + apply send_letter_detection_results_consistent. exact Hcons.
    + cbn [fst snd]. intros track_id Hk. apply gate_fold_known in Hk as [Hk|Hk].
      * specialize (Hknown _ Hk). lia.
      * destruct (Hhit _ Hk) as [[Hin|Hin] _]; [|lia].
        destruct Hwf as (_ & Hb & _). specialize (Hb _ Hin). lia.
  - apply List.Forall_forall. intros o Ho.
    assert (In (detection_of o) dets) as Hd.
    { eapply Permutation_in; [exact Hperm|]. apply in_map. exact Ho. }
    apply in_parallel_class in Hd.
    pose proof (detect_classes predicted CLASS_NAME_MAP_values) as Hc.
    rewrite List.Forall_forall in Hc. apply (Hc _ Hd).
  - exact Hreports.
  - destruct Hreports as (rep & Hsub & ->).
    rewrite length_app, length_map. apply Nat.add_le_mono_l.
    apply sublist_length. exact Hsub.
Qed.

End LettersFrame.

(** ** The vision worker: random boxes *)
Section RandomBox.
Import SideScreen.worker.

Lemma overlap_false (existing_boxes : list Box) (b : Box) :
  overlap existing_boxes b = false
  <-> forall box, In box existing_boxes -> (calculate_iou b box <= 1 # 10)%Q.
Proof.
  unfold overlap. split.
  - intros H box Hin. apply Qnot_lt_le. intros Hlt.
    apply Qlt_bool_iff in Hlt.
    assert (existsb (fun box => Qlt_bool (1 # 10) (calculate_iou b box)) existing_boxes
            = true) as Ht by (apply existsb_exists; eauto).
    congruence.
  - intros H. apply not_true_iff_false. intros Ht.
    apply existsb_exists in Ht as (box & Hin & Hlt). apply Qlt_bool_iff in Hlt.
    exact (Qlt_not_le _ _ Hlt (H box Hin)).
Qed.

(** The attempt the loop stops at. *)
Lemma attempts_choice (w h : Z) (existing_boxes : list Box) (draws : nat -> Draw)
    (more attempt : nat) :
  exists k,
    (attempt <= k <= attempt + more)%nat
    /\ attempts w h existing_boxes draws more attempt = new_box w h (draws k)
    /\ (forall j, (attempt <= j < k)%nat ->
        overlap existing_boxes (new_box w h (draws j)) = true)
    /\ (overlap existing_boxes (new_box w h (draws k)) = false
        \/ k = (attempt + more)%nat).
Proof.
  revert attempt. induction more as [|more IH]; intros attempt; cbn [attempts].
  - exists attempt. split; [lia|].
    destruct (overlap existing_boxes (new_box w h (draws attempt))) eqn:E.
    + split; [reflexivity|]. split; [intros j Hj; lia|right; lia].
    + split; [reflexivity|]. split; [intros j Hj; lia|left; reflexivity].
  - destruct (overlap existing_boxes (new_box w h (draws attempt))) eqn:E.
    + destruct (IH (S attempt)) as (k & Hk & Hr & Hbefore & Hlast).
      exists k. split; [lia|]. split; [exact Hr|]. split.
      * intros j Hj. destruct (Nat.eq_dec j attempt) as [->|Hne]; [exact E|].
        apply Hbefore. lia.
      * destruct Hlast as [Hl|Hl]; [left; exact Hl|right; lia].
    + exists attempt. split; [lia|]. split; [reflexivity|].
      split; [intros j Hj; lia|left; exact E].
Qed.

(** X13. [generate_random_box] returns the box of the first of its ten
    attempts that overlaps no annotation by more than 0.1, and the box of
    the tenth attempt when all ten overlap; without annotations it is the
    box of the first attempt. *)
Theorem X13_random_box_choice (w h : Z) (boxes : list Entry) (draws : nat -> Draw) :
  (exists k,
      (k < 10)%nat
      /\ generate_random_box w h boxes draws = new_box w h (draws k)
      /\ (forall j, (j < k)%nat -> ~ clear_of boxes (new_box w h (draws j)))
      /\ (clear_of boxes (new_box w h (draws k)) \/ k = 9%nat))
  /\ generate_random_box w h [] draws = new_box w h (draws 0%nat).
Proof.
  assert (forall b, overlap (map e_box boxes) b = false <-> clear_of boxes b) as Hclear.
  { intros b. rewrite overlap_false. unfold clear_of. split.
    - intros H e He. apply H. apply in_map. exact He.
    - intros H box Hin. apply in_map_iff in Hin as (e & <- & He). apply H. exact He. }
  split; [|reflexivity].
  unfold generate_random_box.
  destruct (attempts_choice w h (map e_box boxes) draws 9 0)
    as (k & Hk & Hr & Hbefore & Hlast).
  exists k. split; [lia|]. split; [exact Hr|]. split.
  - intros j Hj Hc. apply Hclear in Hc. rewrite Hbefore in Hc by lia. discriminate.
  - destruct Hlast as [Hl|Hl]; [left; apply Hclear; exact Hl|right; exact Hl].
Qed.

Lemma new_box_in_frame (w h : Z) (d : Draw) :
  0 <= w -> 0 <= h -> drawn w h d ->
  in_frame w h (new_box w h d)
  /\ bx2 (new_box w h d) - bx1 (new_box w h d) <= box_w d
  /\ by2 (new_box w h d) - by1 (new_box w h d) <= box_h d
  /\ (10 <= Z.min w h -> 1 <= box_w d -> 1 <= box_h d ->
      bx1 (new_box w h d) < bx2 (new_box w h d)
      /\ by1 (new_box w h d) < by2 (new_box w h d)).
Proof.
  intros Hw Hh (Hx & Hy & Hbw & Hbh). cbv zeta in *.
  unfold in_frame, new_box. cbn [bx1 bx2 by1 by2].
  assert (0 <= Z.min w h / 10) as Hm by (apply Z.div_pos; lia).
  assert (0 <= box_w d / 2) by (apply Z.div_pos; lia).
  assert (0 <= box_h d / 2) by (apply Z.div_pos; lia).
  split; [repeat split; lia|]. split; [lia|]. split; [lia|].
  intros H10 H1w H1h.
  assert (1 <= Z.min w h / 10) by (apply Z.div_le_lower_bound; lia).
  split; lia.
Qed.

(** X14. On a frame of [w] by [h] pixels, with the values
    [random.randint] may return, the box [generate_random_box] returns
    lies inside the frame and is no wider or higher than the size drawn
    for it; on a frame of 10 pixels or more in each direction, with sizes
    drawn that are 1 or more, it has positive width and height, so that
    the crop sent to the model is not empty. *)
Theorem X14_random_box_in_frame (w h : Z) (boxes : list Entry) (draws : nat -> Draw) :
  0 <= w -> 0 <= h ->
  (forall k, (k < 10)%nat -> drawn w h (draws k)) ->
  in_frame w h (generate_random_box w h boxes draws)
  /\ (exists k, (k < 10)%nat
       /\ bx2 (generate_random_box w h boxes draws)
          - bx1 (generate_random_box w h boxes draws) <= box_w (draws k)
       /\ by2 (generate_random_box w h boxes draws)
          - by1 (generate_random_box w h boxes draws) <= box_h (draws k))
  /\ (10 <= Z.min w h ->
      (forall k, (k < 10)%nat -> 1 <= box_w (draws k) /\ 1 <= box_h (draws k)) ->
      0 < area (generate_random_box w h boxes draws)).
Proof.
  intros Hw Hh Hd. unfold generate_random_box.
  destruct (attempts_choice w h (map e_box boxes) draws 9 0) as (k & Hk & -> & _).
  destruct (new_box_in_frame w h (draws k) Hw Hh (Hd k ltac:(lia)))
    as (H1 & H2 & H3 & H4).
  split; [exact H1|]. split; [exists k; split; [lia|auto]|].
  intros H10 Hsz. destruct (Hsz k ltac:(lia)) as [Hbw Hbh].
  destruct (H4 H10 Hbw Hbh) as [Hx Hy]. unfold area. nia.
Qed.

End RandomBox.

(** ** The vision worker: the annotation list, read and written *)
Section AnnotationList.
Import SideScreen.worker.
Variable DURATION : Q.
Variable MAX : nat.

Lemma sublist_List_filter {A : Type} (f : A -> bool) (l : list A) :
  sublist (List.filter f l) l.
Proof.
  induction l as [|x l IH]; [constructor|]. simpl.
  destruct (f x); [apply sublist_skip|apply sublist_cons]; exact IH.
Qed.

Lemma sublist_remove (x : Entry) (boxes : list Entry) : sublist (remove x boxes) boxes.
Proof.
  induction boxes as [|e boxes IH]; [constructor|]. cbn [remove].
  destruct (Entry_eqb e x); [apply sublist_cons; reflexivity|apply sublist_skip; exact IH].
Qed.

Lemma sublist_drop_oldest_n (k : nat) (boxes : list Entry) :
  sublist (drop_oldest_n k boxes) boxes.
Proof.
  revert boxes. induction k as [|k IH]; intros boxes; [reflexivity|].
  cbn [drop_oldest_n]. etransitivity; [apply IH|].
  unfold drop_oldest. destruct (oldest boxes); [apply sublist_remove|reflexivity].
Qed.

Lemma sublist_Forall {A : Type} (P : A -> Prop) (l1 l2 : list A) :
  sublist l1 l2 -> Forall P l2 -> Forall P l1.
Proof.
  intros Hs Hf. rewrite List.Forall_forall in *. intros x Hx.
  apply Hf. eapply sublist_In; eauto.
Qed.

(** The entry a round of a capacity loop takes out has the timestamp of
    the oldest. *)
Lemma removed_is_oldest (o e : Entry) (boxes : list Entry) :
  In e boxes -> In e (remove o boxes) \/ (e_time e == e_time o)%Q.
Proof.
  induction boxes as [|y boxes IH]; [intros []|]. cbn [remove].
  destruct (Entry_eqb y o) eqn:E.
  - intros [<-|Hin]; [right|left; exact Hin].
    unfold Entry_eqb in E. apply andb_true_iff in E as [_ E].
    apply Qeq_bool_iff in E. exact E.
  - intros [<-|Hin]; [left; left; reflexivity|].
    destruct (IH Hin) as [H|H]; [left; right; exact H|right; exact H].
Qed.

(** What a capacity loop drops is not newer than what it keeps. *)
Lemma dropped_not_newer (k : nat) (boxes : list Entry) (e s : Entry) :
  In e boxes -> ~ In e (drop_oldest_n k boxes) -> In s (drop_oldest_n k boxes) ->
  (e_time e <= e_time s)%Q.
Proof.
  revert boxes. induction k as [|k IH]; intros boxes He Hn Hs; [simpl in Hn; tauto|].
  cbn [drop_oldest_n] in *. unfold drop_oldest in *.
  destruct (oldest boxes) as [o|] eqn:Eo.
  - destruct (removed_is_oldest o e boxes He) as [Hin|Heq].
    + eapply IH; eauto.
    + rewrite Heq.
      apply (oldest_spec _ _ Eo). eapply in_remove.
      eapply sublist_In; [apply sublist_drop_oldest_n|exact Hs].
  - eapply IH; eauto.
Qed.

Lemma get_current_boxes_eq (now : Q) (boxes : list Entry) :
  get_current_boxes DURATION MAX now boxes
  = Done (drop_oldest_n (length (List.filter (active DURATION now) boxes) - MAX)
            (List.filter (active DURATION now) boxes)).
Proof. unfold get_current_boxes. apply evict_above. lia. Qed.

(** X16. [get_current_boxes] keeps a subsequence of [self.boxes], in
    order, of live entries only; a live entry it drops is not newer than
    any entry it keeps; and reading again at the same moment returns the
    same list. *)
Theorem X16_current_boxes_newest_live (now : Q) (boxes : list Entry) :
  exists shown,
    get_current_boxes DURATION MAX now boxes = Done shown
    /\ sublist shown boxes
    /\ Forall (fun e => active DURATION now e = true) shown
    /\ (forall e s, In e boxes -> active DURATION now e = true -> ~ In e shown ->
        In s shown -> (e_time e <= e_time s)%Q)
    /\ get_current_boxes DURATION MAX now shown = Done shown.
Proof.
  rewrite get_current_boxes_eq.
  set (live := List.filter (active DURATION now) boxes).
  set (shown := drop_oldest_n (length live - MAX) live).
  assert (sublist shown live) as Hsub by apply sublist_drop_oldest_n.
  assert (Forall (fun e => active DURATION now e = true) live) as Hlive.
  { apply List.Forall_forall. intros e He. apply filter_In in He. tauto. }
  assert (Forall (fun e => active DURATION now e = true) shown) as Hshown
    by (eapply sublist_Forall; eauto).
  exists shown. split; [reflexivity|].
  split; [etransitivity; [exact Hsub|apply sublist_List_filter]|].
  split; [exact Hshown|]. split.
  - intros e s He Ha Hn Hs. apply (dropped_not_newer (length live - MAX) live); auto.
    apply filter_In. auto.
  - rewrite get_current_boxes_eq, (filter_all _ _ Hshown).
    replace (length shown - MAX)%nat with 0%nat; [reflexivity|].
    unfold shown. rewrite length_drop_oldest_n. lia.
Qed.

(** X15. [process_frame_with_llm] skips the generation of a box only when
    the screen is full: then [get_current_boxes] at the same moment shows
    exactly [VISION_API_MAX_ONSCREEN] annotations, all of them younger
    than half the display time.  With fewer live annotations than the
    limit it never skips. *)
Theorem X15_skip_only_when_full (now : Q) (boxes : list Entry) :
  (skip_generation DURATION MAX now boxes = true ->
   exists shown,
     get_current_boxes DURATION MAX now boxes = Done shown
     /\ length shown = MAX
     /\ Forall (fun e => (now - e_time e < DURATION / 2)%Q) shown)
  /\ ((length (List.filter (active DURATION now) boxes) < MAX)%nat ->
      skip_generation DURATION MAX now boxes = false).
Proof.
  unfold skip_generation. cbv zeta.
  set (live := List.filter (active DURATION now) boxes). split.
  - destruct (Nat.leb_spec MAX (length live)) as [Hle|Hgt]; [|discriminate].
    destruct (oldest live) as [o|] eqn:Eo; [|discriminate].
    intros Hyoung. apply Qlt_bool_iff in Hyoung.
    rewrite get_current_boxes_eq. fold live.
    eexists. split; [reflexivity|]. split; [rewrite length_drop_oldest_n; lia|].
    apply List.Forall_forall. intros e He.
    assert (In e live) as Hin
      by (eapply sublist_In; [apply sublist_drop_oldest_n|exact He]).
    pose proof (proj2 (oldest_spec _ _ Eo) e Hin) as Hmin.
    eapply Qle_lt_trans; [|exact Hyoung]. lra.
  - intros Hlt. destruct (Nat.leb_spec MAX (length live)); [lia|reflexivity].
Qed.

(** X17. With a limit of at least 1, an answer stored at time [t] ends
    up last in [self.boxes], and [get_current_boxes] at time [t'] shows it
    exactly while [t' - t <= VISION_API_BOX_DURATION].  With a limit of 0
    the answer is never stored: the loop empties the list and [min]
    raises on it. *)
Theorem X17_stored_answer_shown (t t' : Q) (box : Box) (text : string)
    (boxes : list Entry) :
  ((1 <= MAX)%nat ->
   exists stored shown,
     store_result DURATION MAX t box text boxes = Done stored
     /\ last stored = Some (mkEntry box text t)
     /\ get_current_boxes DURATION MAX t' stored = Done shown
     /\ (In (mkEntry box text t) shown <-> (t' - t <= DURATION)%Q))
  /\ (MAX = 0%nat -> store_result DURATION MAX t box text boxes = ValueError []).
Proof.
  unfold store_result. set (kept := List.filter (active DURATION t) boxes).
  rewrite (evict_full MAX (S (length kept)) kept) by lia. split.
  - intros H1. destruct (Nat.eqb_spec MAX 0) as [Hz|_]; [lia|].
    set (stored := drop_oldest_n (S (length kept) - MAX) kept ++ [mkEntry box text t]).
    assert (length stored <= MAX)%nat as Hlen.
    { unfold stored. rewrite length_app, length_drop_oldest_n. simpl. lia. }
    exists stored, (List.filter (active DURATION t') stored).
    split; [reflexivity|]. split; [apply last_snoc|]. split.
    + rewrite get_current_boxes_eq.
      replace (length (List.filter (active DURATION t') stored) - MAX)%nat with 0%nat;
        [reflexivity|].
      pose proof (List.filter_length_le (active DURATION t') stored). lia.
    + rewrite filter_In. unfold active at 1. cbn [e_time]. rewrite Qle_bool_iff.
      split; [tauto|]. intros H. split; [|exact H].
      unfold stored. apply in_app_iff. right. left. reflexivity.
  - intros ->. reflexivity.
Qed.

End AnnotationList.

(** ** Announcing annotations over OSC *)
Section Announce.
Import SideScreen.worker SideScreen.osc_utils.

Lemma size_add (x : Z * Z * Z * Z) (s : gset (Z * Z * Z * Z)) :
  x ∉ s -> size ({[x]} ∪ s) = S (size s).
Proof.
  intros Hx. rewrite size_union, size_singleton; [reflexivity|].
  intros y Hy Hs. apply elem_of_singleton in Hy. subst y. tauto.
Qed.

(** The loop of [send_vision_api_osc]. *)
Lemma collect_loop (fw fh : positive) (boxes : list Entry) (l : list (list osc_arg))
    (seen : gset (Z * Z * Z * Z)) :
  let r := fold_left (collect fw fh) boxes (l, seen) in
  (forall t, t ∈ snd r <-> t ∈ seen \/ In t (box_tuples boxes))
  /\ (length (fst r) + size seen = length l + size (snd r))%nat
  /\ (size seen <= size (snd r))%nat.
Proof.
  revert l seen. induction boxes as [|e boxes IH]; intros l seen; cbv zeta.
  - simpl. split; [tauto|]. split; lia.
  - cbn [fold_left box_tuples map]. fold (box_tuples boxes).
    destruct (bool_decide (box_tuple (e_box e) ∈ seen)) eqn:E.
    + assert (collect fw fh (l, seen) e = (l, seen)) as ->
        by (unfold collect; rewrite E; reflexivity).
      apply bool_decide_eq_true in E.
      destruct (IH l seen) as (H1 & H2 & H3). cbv zeta in *.
      split; [|split; assumption].
      intros t. rewrite H1. split; [intros [H|H]; [left|right; right]; exact H|].
      intros [H|[<-|H]]; auto.
    + assert (collect fw fh (l, seen) e
              = (l ++ [anything_args fw fh (e_box e) (e_text e)],
                 {[box_tuple (e_box e)]} ∪ seen)) as ->
        by (unfold collect; rewrite E; reflexivity).
      apply bool_decide_eq_false in E.
      destruct (IH (l ++ [anything_args fw fh (e_box e) (e_text e)])
                  ({[box_tuple (e_box e)]} ∪ seen)) as (H1 & H2 & H3). cbv zeta in *.
      rewrite size_add in H2, H3 by exact E. rewrite length_app in H2. simpl in H2.
      split; [|split; lia].
      intros t. rewrite H1, elem_of_union, elem_of_singleton.
      split.
      * intros [[->|H]|H]; [right; left; reflexivity|left; exact H|right; right; exact H].
      * intros [H|[<-|H]]; auto.
Qed.

Lemma collect_seen (fw fh : positive) (boxes : list Entry) (l : list (list osc_arg))
    (seen : gset (Z * Z * Z * Z)) :
  (forall t, In t (box_tuples boxes) -> t ∈ seen) ->
  fold_left (collect fw fh) boxes (l, seen) = (l, seen).
Proof.
  induction boxes as [|e boxes IH]; intros H; [reflexivity|].
  cbn [fold_left]. unfold collect at 2.
  rewrite bool_decide_eq_true_2 by (apply H; left; reflexivity).
  apply IH. intros t Ht. apply H. right. exact Ht.
Qed.

(** X18. [send_vision_api_osc] announces every box at most once: after
    the call the set [sent_anything_boxes] holds the boxes it held and
    those of the annotations passed in, whether or not the send raised;
    the call sends nothing when they were all in the set, and otherwise
    one bundle with one [/anything] message per box that was not; and
    a second call with the same annotations sends nothing. *)
Theorem X18_annotations_announced_once (send_raises : packet -> bool)
    (boxes : list Entry) (fw fh : positive) (seen : gset (Z * Z * Z * Z))
    (wire : list packet) :
  let r := send_vision_api_osc send_raises boxes fw fh seen wire in
  let seen' := snd r in
  let wire' := snd (fst r) in
  (forall t, t ∈ seen' <-> t ∈ seen \/ In t (box_tuples boxes))
  /\ (size seen' = size seen -> wire' = wire /\ fst (fst r) = Some 0%nat)
  /\ (size seen' <> size seen ->
      exists messages,
        wire' = wire ++ [Bundle messages]
        /\ (length messages + size seen = size seen')%nat
        /\ Forall (fun m => address m = OPENAI_OSC_ADDRESS) messages
        /\ fst (fst r) = if send_raises (Bundle messages) then None
                         else Some (length messages))
  /\ send_vision_api_osc send_raises boxes fw fh seen' wire' = (Some 0%nat, wire', seen').
Proof.
  unfold send_vision_api_osc.
  destruct (collect_loop fw fh boxes [] seen) as (H1 & H2 & H3). cbv zeta in *.
  destruct (fold_left (collect fw fh) boxes ([], seen)) as [l seen'] eqn:E.
  cbn [fst snd] in *.
  split; [exact H1|]. split; [|split].
  - intros Hs. assert (l = []) as -> by (destruct l; simpl in *; [reflexivity|lia]).
    split; reflexivity.
  - intros Hs. destruct l as [|a l]; [simpl in *; lia|].
    unfold send_osc_messages. cbn [negb andb]. rewrite andb_false_r.
    exists (map (build_osc_message OPENAI_OSC_ADDRESS) (a :: l)).
    rewrite length_map.
    destruct (send_raises _); cbn [fst snd];
      (split; [reflexivity|]; split; [exact H2|]; split; [|reflexivity]);
      apply List.Forall_forall; intros m Hm; apply in_map_iff in Hm as (x & <- & _);
      reflexivity.
  - rewrite collect_seen; [reflexivity|].
    intros t Ht. apply H1. right. exact Ht.
Qed.

End Announce.

(** ** The periodic cleanup *)
Section Cleanup.
Import SideScreen.data_utils.

Lemma lookup_fold_delete {A : Type} (l : list nat) (m : gmap nat A) (k : nat) :
  fold_left (fun m track_id => delete track_id m) l m !! k
  = if in_dec Nat.eq_dec k l then None else m !! k.
Proof.
  revert m. induction l as [|x l IH]; intros m; [reflexivity|].
  cbn [fold_left]. rewrite IH.
  destruct (in_dec Nat.eq_dec k l) as [E1|E1];
    destruct (in_dec Nat.eq_dec k (x :: l)) as [E2|E2]; try reflexivity.
  - exfalso. apply E2. right. exact E1.
  - destruct E2 as [->|E2]; [apply lookup_delete_eq|tauto].
  - apply lookup_delete_ne. intros ->. apply E2. left. reflexivity.
Qed.

Lemma size_fold_delete {A : Type} (l : list nat) (m : gmap nat A) :
  List.NoDup l -> (forall k, In k l -> is_Some (m !! k)) ->
  (length l + size (fold_left (fun m track_id => delete track_id m) l m) = size m)%nat.
Proof.
  revert m. induction l as [|x l IH]; intros m Hnd Hin; [reflexivity|].
  apply List.NoDup_cons_iff in Hnd as [Hx Hnd]. cbn [fold_left length].
  pose proof (Hin x (or_introl eq_refl)) as Hsx.
  assert (size m <> 0%nat) as Hnz.
  { destruct Hsx as [v Hv]. intros Hz. apply map_size_empty_iff in Hz. subst m.
    rewrite lookup_empty in Hv. discriminate. }
  assert (forall k, In k l -> is_Some (delete x m !! k)) as Hin'.
  { intros k Hk. rewrite lookup_delete_ne by (intros ->; tauto).
    apply Hin. right. exact Hk. }
  specialize (IH (delete x m) Hnd Hin').
  rewrite map_size_delete_Some in IH by exact Hsx. lia.
Qed.

Lemma in_positions_to_remove (current_time max_age_seconds : Q)
    (target_positions : gmap nat (gmap string Q)) (k : nat) :
  In k (positions_to_remove current_time max_age_seconds target_positions)
  <-> exists data, target_positions !! k = Some data
                   /\ expired current_time max_age_seconds data = true.
Proof.
  unfold positions_to_remove. rewrite in_map_iff. split.
  - intros ([k' data] & <- & Hin). apply filter_In in Hin as [Hin He].
    apply list_elem_of_In, elem_of_map_to_list in Hin. exists data. auto.
  - intros (data & Hk & He). exists (k, data). split; [reflexivity|].
    apply filter_In. split; [|exact He].
    apply list_elem_of_In, elem_of_map_to_list. exact Hk.
Qed.

(** X19. [cleanup_historical_data] removes from [target_positions]
    exactly the entries that have a ["last_time"] more than
    [max_age_seconds] back, keeps the others (those without a
    ["last_time"] included) as they are, and returns how many it removed;
    it empties [sent_anything_boxes], returning its size, when the set
    holds more than [MAX_BOXES_BEFORE_CLEANUP] boxes, and otherwise leaves
    it alone and returns 0. *)
Theorem X19_cleanup_removes_the_expired (current_time max_age_seconds : Q)
    (target_positions : gmap nat (gmap string Q))
    (sent_anything_boxes : gset (Z * Z * Z * Z)) :
  let r := cleanup_historical_data current_time max_age_seconds target_positions
             sent_anything_boxes in
  (forall track_id,
      fst (fst r) !! track_id
      = match target_positions !! track_id with
        | Some data =>
            if expired current_time max_age_seconds data then None else Some data
        | None => None
        end)
  /\ (forall track_id data,
        target_positions !! track_id = Some data -> data !! "last_time" = None ->
        fst (fst r) !! track_id = Some data)
  /\ (fst (snd r) + size (fst (fst r)) = size target_positions)%nat
  /\ ((MAX_BOXES_BEFORE_CLEANUP < size sent_anything_boxes)%nat ->
      snd (fst r) = ∅ /\ snd (snd r) = size sent_anything_boxes)
  /\ ((size sent_anything_boxes <= MAX_BOXES_BEFORE_CLEANUP)%nat ->
      snd (fst r) = sent_anything_boxes /\ snd (snd r) = 0%nat).
Proof.
  cbv zeta. unfold cleanup_historical_data. cbn [fst snd].
  set (L := positions_to_remove current_time max_age_seconds target_positions).
  assert (forall track_id,
             fold_left (fun m k => delete k m) L target_positions !! track_id
             = match target_positions !! track_id with
               | Some data =>
                   if expired current_time max_age_seconds data then None else Some data
               | None => None
               end) as Hlook.
  { intros k. rewrite lookup_fold_delete.
    destruct (in_dec Nat.eq_dec k L) as [E|E].
    - apply in_positions_to_remove in E as (data & -> & ->).
      reflexivity.
    - destruct (target_positions !! k) as [data|] eqn:Ek; [|reflexivity].
      destruct (expired current_time max_age_seconds data) eqn:Ee; [|reflexivity].
      exfalso. apply E. apply in_positions_to_remove. eauto. }
  split; [exact Hlook|]. split; [|split; [|split]].
  - intros k data Hk Hn. rewrite Hlook, Hk. unfold expired. rewrite Hn. reflexivity.
  - apply size_fold_delete.
    + unfold L, positions_to_remove.
      pose proof (NoDup_fst_map_to_list target_positions) as Hnd.
      apply NoDup_ListNoDup in Hnd.
      revert Hnd. generalize (map_to_list target_positions).
      induction l as [|e l IH]; simpl; [constructor|].
      intros Hnd. apply List.NoDup_cons_iff in Hnd as [Hx Hnd].
      destruct (expired _ _ (snd e)); simpl; [|auto].
      apply List.NoDup_cons_iff. split; [|auto].
      intros Hin. apply Hx. apply in_map_iff in Hin as (x & Hfx & Hin).
      apply filter_In in Hin as [Hin _]. apply in_map_iff. eauto.
    + intros k Hk. apply in_positions_to_remove in Hk as (data & -> & _). eauto.
  - intros Hlt. apply Nat.ltb_lt in Hlt. rewrite Hlt. auto.
  - intros Hle. apply Nat.ltb_ge in Hle. rewrite Hle. auto.
Qed.

Lemma cleanup_times_after (interval_seconds last : Q) (clock : list Q) :
  (0 <= interval_seconds)%Q ->
  Forall (fun t => (interval_seconds < t - last)%Q)
    (cleanup_times interval_seconds last clock).
Proof.
  intros Hi. revert last. induction clock as [|t clock IH]; intros last; [constructor|].
  cbn [cleanup_times]. unfold should_run_cleanup.
  destruct (Qlt_bool interval_seconds (t - last)) eqn:E; cbn [fst snd].
  - apply Qlt_bool_iff in E. constructor; [exact E|].
    eapply List.Forall_impl; [|apply (IH t)]. intros x Hx. cbv beta in Hx. lra.
  - apply IH.
Qed.

(** X20. [should_run_cleanup] lets the cleanup run at most once per
    interval: over any sequence of calls, any two readings of the clock
    at which it returned [True] are more than [interval_seconds] apart,
    and the first of them is more than [interval_seconds] after the
    initial [LAST_DATA_CLEANUP_TIME]. *)
Theorem X20_cleanup_once_per_interval (interval_seconds last : Q) (clock : list Q) :
  (0 <= interval_seconds)%Q ->
  StronglySorted (fun a b => (interval_seconds < b - a)%Q)
    (cleanup_times interval_seconds last clock)
  /\ Forall (fun t => (interval_seconds < t - last)%Q)
       (cleanup_times interval_seconds last clock).
Proof.
  intros Hi. split; [|apply cleanup_times_after; exact Hi].
  revert last. induction clock as [|t clock IH]; intros last; [constructor|].
  cbn [cleanup_times]. unfold should_run_cleanup.
  destruct (Qlt_bool interval_seconds (t - last)); cbn [fst snd]; [|apply IH].
  constructor; [apply IH|apply cleanup_times_after; exact Hi].
Qed.

End Cleanup.

(** ** The image part of a vision query *)
Section ImageUrl.
Import SideScreen.api.

Lemma prefix_app (p s1 s2 : string) :
  String.prefix p s1 = true -> String.prefix p (s1 ++ s2) = true.
Proof.
  revert s1. induction p as [|c p IH]; intros s1;
    [intros _; destruct (s1 ++ s2)%string; reflexivity|].
  destruct s1 as [|c1 s1]; [discriminate|]. simpl.
  destruct (ascii_dec c c1); [apply IH|discriminate].
Qed.

Lemma after_first_comma_app (header payload : string) :
  after_first_comma header = None ->
  after_first_comma (header ++ String "," payload) = Some payload.
Proof.
  induction header as [|c h IH]; simpl; [reflexivity|].
  destruct (Ascii.eqb c ","); [discriminate|exact IH].
Qed.

(** X24. The url of the image part [send_image_query] builds for a
    non-empty [image_base64].  A payload that does not start with
    [data:image] gets the header [data:image/png;base64,] put in front.
    From a string that starts with [data:image], what comes before its
    first comma is cut off and replaced by that header, whatever follows
    the comma: a second header there is kept.  A string that starts with
    [data:image] and has no comma raises the IndexError, before any
    request is made. *)
Theorem X24_image_url_header (header payload : string) :
  (payload <> ""%string -> String.prefix "data:image" payload = false ->
   image_url payload = Some ("data:image/png;base64," ++ payload)%string)
  /\ (String.prefix "data:image" header = true ->
      after_first_comma header = None ->
      image_url (header ++ String "," payload)
      = Some ("data:image/png;base64," ++ payload)%string
      /\ image_url header = None).
Proof.
  unfold image_url. split.
  - intros _ ->. reflexivity.
  - intros Hp Hc. rewrite (prefix_app _ _ _ Hp), Hp, Hc, after_first_comma_app by exact Hc.
    split; reflexivity.
Qed.

End ImageUrl.

(** ** The face reports and the sampling of a frame (RingScreen) *)
Section FaceReports.
Import RingScreen.
Local Arguments Nat.leb : simpl never.
Local Arguments Qle_bool : simpl never.
Local Arguments total_cat : simpl never.
Local Arguments send_ai_query : simpl never.

Lemma report_face_trace (w : World) (t : nat * Box) (v : Vars) :
  exists v',
    report_face w t v = (Ret tt, v')
    /\ sent v' = sent v ++ face_report w t
    /\ same_window v v'.
Proof.
  unfold report_face, try_except, face_report.
  destruct (analyze w (snd t)) as [emo|].
  - set (m := face_message (fst t) (snd t) (emotion_to_index emo)).
    destruct (emotion_to_category emo) as [cat|];
      unfold send_message, bind, modify, raise, ret; simpl;
      destruct (send_raises w m); simpl;
      (eexists; split; [reflexivity|]; simpl; split; [reflexivity|];
       unfold same_window; simpl; tauto).
  - exists v. unfold raise, ret. simpl. rewrite app_nil_r.
    split; [reflexivity|]. split; [reflexivity|apply same_window_refl].
Qed.

Lemma report_loop_trace (w : World) (trks : list (nat * Box)) (v : Vars) :
  exists v',
    for_each trks (report_face w) v = (Ret tt, v')
    /\ sent v' = sent v ++ face_reports w trks
    /\ same_window v v'.
Proof.
  revert v. induction trks as [|t trks IH]; intros v.
  - exists v. simpl. unfold ret. rewrite app_nil_r.
    split; [reflexivity|]. split; [reflexivity|apply same_window_refl].
  - destruct (report_face_trace w t v) as (v1 & E1 & S1 & W1).
    destruct (IH v1) as (v2 & E2 & S2 & W2).
    exists v2. simpl. unfold bind. rewrite E1, E2.
    split; [reflexivity|]. split; [rewrite S2, S1, app_assoc; reflexivity|].
    eapply same_window_trans; eauto.
Qed.

(** The messages of [report_faces]: the face reports, then [/no_face] or
    nothing. *)
Lemma report_faces_trace (w : World) (trks : list (nat * Box)) (v : Vars) :
  exists o v' tail,
    report_faces w trks v = (o, v')
    /\ sent v' = sent v ++ face_reports w trks ++ tail
    /\ (tail = [] \/ tail = [no_face_message])
    /\ same_window v v'.
Proof.
  unfold report_faces.
  set (v0 := set_has_face false (set_cats [] v)).
  destruct (report_loop_trace w trks v0) as (v1 & E & S & W).
  assert (same_window v v0) as W0 by (unfold same_window; simpl; tauto).
  unfold bind at 1. unfold modify at 1. fold v0.
  unfold bind at 1. rewrite E. unfold bind at 1. unfold get at 1.
  destruct (negb (has_face v1)).
  - unfold send_message, bind, modify, raise, ret. simpl.
    destruct (send_raises w no_face_message);
      eexists; eexists; exists [no_face_message]; (split; [reflexivity|]); simpl;
      (split; [rewrite S, <- app_assoc; reflexivity|]);
      (split; [right; reflexivity|]);
      (eapply same_window_trans; [exact W0|];
       eapply same_window_trans; [exact W|]; unfold same_window; simpl; tauto).
  - exists (Ret tt), v1, []. unfold ret. split; [reflexivity|].
    split; [rewrite app_nil_r; exact S|]. split; [left; reflexivity|].
    eapply same_window_trans; eauto.
Qed.

(** What [sample] does, case by case. *)
Lemma sample_cases (w : World) (v : Vars) :
  (Qle_bool SAMPLE_INTERVAL (now w - last_sample v) = false
   /\ sample w v = (Ret tt, v))
  \/ (Qle_bool SAMPLE_INTERVAL (now w - last_sample v) = true
      /\ (S (sample_count v) < SAMPLES_PER_SUMMARY)%nat
      /\ sample w v
         = (Ret tt, set_sample (S (sample_count v)) (now w)
                      (set_counts (window_counts v) v)))
  \/ (Qle_bool SAMPLE_INTERVAL (now w - last_sample v) = true
      /\ (SAMPLES_PER_SUMMARY <= S (sample_count v))%nat
      /\ exists c o v',
           sample w v = (o, v')
           /\ (sent v' = sent v ++ [agent_emotion_message c (window_counts v)]
               \/ sent v'
                  = sent v ++ [agent_emotion_message c (window_counts v);
                               agent_word_message
                                 (send_ai_query w (c, window_counts v))])).
Proof.
  unfold sample, bind, get, modify, ret. simpl.
  destruct (Qle_bool SAMPLE_INTERVAL (now w - last_sample v)); [|left; auto].
  right. simpl. destruct (Nat.leb_spec SAMPLES_PER_SUMMARY (S (sample_count v))) as [H|H].
  - right. split; [reflexivity|]. split; [exact H|].
    unfold summary, bind, get. simpl. fold (window_counts v).
    destruct (total_cat_in (rand w) (window_counts v)) as [c [Hc _]]. rewrite Hc.
    exists c. unfold send_message, bind, modify, raise, ret. simpl.
    destruct (send_raises w (agent_emotion_message c _)).
    { eexists. eexists. split; [reflexivity|]. left. reflexivity. }
    simpl. destruct (send_raises w _);
      (eexists; eexists; split; [reflexivity|]; right; simpl;
       rewrite <- app_assoc; reflexivity).
  - left. split; [reflexivity|]. split; [exact H|reflexivity].
Qed.

Lemma face_reports_are_faces (w : World) (trks : list (nat * Box)) :
  Forall (fun m => is_addr "/face" m = true) (face_reports w trks).
Proof.
  apply List.Forall_forall. intros m Hm. unfold face_reports in Hm.
  apply in_flat_map in Hm as (t & _ & Hm). unfold face_report in Hm.
  destruct (analyze w (snd t)); [|destruct Hm].
  destruct Hm as [<-|[]]. reflexivity.
Qed.

Lemma filter_faces (l : list osc_message) :
  Forall (fun m => is_addr "/face" m = true) l -> List.filter (is_addr "/face") l = l.
Proof. apply filter_all. Qed.

(** A round, step by step: a send of [/no_face] that raises ends it. *)
Lemma frame_step_eq (w : World) (v : Vars) :
  frame_step w v
  = let '(trks, t') := update (detect w) (tracker v) in
    match report_faces w trks (set_tracker t' v) with
    | (Ret _, v1) => sample w v1
    | (Raise, v1) => (Raise, v1)
    end.
Proof.
  unfold frame_step. unfold bind at 1. unfold get at 1.
  destruct (update (detect w) (tracker v)) as [trks t'].
  unfold bind at 1. unfold modify at 1. unfold bind at 1.
  destruct (report_faces w trks (set_tracker t' v)) as [[[]|] v1]; reflexivity.
Qed.

(** The messages of a round: the face reports, [/no_face] or nothing,
    and what [sample] sends. *)
Lemma frame_step_trace (w : World) (v : Vars) :
  exists tail,
    sent (snd (frame_step w v))
    = sent v ++ face_reports w (fst (update (detect w) (tracker v))) ++ tail
    /\ Forall (fun m => is_addr "/face" m = false) tail.
Proof.
  unfold frame_step. unfold bind at 1. unfold get at 1.
  destruct (update (detect w) (tracker v)) as [trks t'].
  unfold bind at 1. unfold modify at 1. cbn [fst].
  set (v0 := set_tracker t' v).
  destruct (report_faces_trace w trks v0) as (o & v1 & t1 & E1 & S1 & Ht1 & _).
  assert (Forall (fun m => is_addr "/face" m = false) t1) as F1
    by (destruct Ht1 as [-> | ->]; repeat constructor).
  unfold bind at 1. rewrite E1. destruct o as [[]|].
  - destruct (sample_trace w v1) as (n2 & o2 & v2 & E2 & S2 & F2 & _).
    rewrite E2. exists (t1 ++ n2). cbn [snd].
    split; [rewrite S2, S1; simpl; rewrite <- !app_assoc; reflexivity|].
    apply Forall_app. auto.
  - exists t1. cbn [snd]. split; [rewrite S1; reflexivity|exact F1].
Qed.

(** X25. In every round of the main loop the [/face] messages handed to
    the OSC client are exactly one per track of the frame whose emotion
    analysis returns, in the order of the tracks, each with the id and the
    box of its track: an analysis that raises costs the track its message
    and nothing else, and a send that raises does not stop the
    others. *)
Theorem X25_face_reports_of_a_round (w : World) (v : Vars) :
  exists new,
    sent (snd (frame_step w v)) = sent v ++ new
    /\ List.filter (is_addr "/face") new
       = face_reports w (fst (update (detect w) (tracker v))).
Proof.
  destruct (frame_step_trace w v) as (tail & S & F).
  eexists. split; [exact S|].
  rewrite List.filter_app, (filter_faces _ (face_reports_are_faces w _)).
  assert (List.filter (is_addr "/face") tail = []) as ->; [|apply app_nil_r].
  clear S. induction F as [|m l Hm _ IH]; [reflexivity|]. simpl. rewrite Hm. exact IH.
Qed.

Lemma detect_kept (w : World) (b : Box) : In b (detect w) -> kept_face b.
Proof.
  unfold detect. intros H. apply in_flat_map in H as ([[[x y] wd] ht] & _ & H).
  cbv zeta in H.
  destruct (Z.ltb_spec (Z.max 0 x) (Z.max 0 x + wd)) as [Hx|Hx]; [|destruct H].
  destruct (Z.ltb_spec (Z.max 0 y) (Z.max 0 y + ht)) as [Hy|Hy]; [|destruct H].
  destruct H as [<-|[]]. unfold kept_face. cbn [bx1 bx2 by1 by2]. lia.
Qed.

(** X26. Every [/face] message of a round reports a detection of that
    round: its box is one of the boxes the detector returned, cut at the
    origin, and has positive width and height; and no two [/face]
    messages of a round carry the same track id. *)
Theorem X26_face_reports_are_detections (w : World) (v : Vars) :
  ring_wf (tracker v) ->
  exists new,
    sent (snd (frame_step w v)) = sent v ++ new
    /\ (forall m, In m new -> is_addr "/face" m = true ->
        exists tid b idx,
          m = face_message tid b idx /\ In b (detect w) /\ kept_face b
          /\ In (tid, b) (fst (update (detect w) (tracker v))))
    /\ List.NoDup (map fst (fst (update (detect w) (tracker v)))).
Proof.
  intros Hwf. destruct (frame_step_trace w v) as (tail & S & F).
  destruct (ring_update_has_detail (detect w) (tracker v) Hwf) as (Hperm & Hnd & _).
  eexists. split; [exact S|]. split; [|exact Hnd].
  intros m Hm Hface. apply in_app_iff in Hm as [Hm|Hm].
  - unfold face_reports in Hm. apply in_flat_map in Hm as ([tid b] & Ht & Hm).
    unfold face_report in Hm. cbn [fst snd] in Hm.
    destruct (analyze w b) as [emo|]; [|destruct Hm]. destruct Hm as [<-|[]].
    assert (In b (detect w)) as Hb.
    { eapply Permutation_in; [exact Hperm|].
      change b with (snd (tid, b)). apply in_map. exact Ht. }
    exists tid, b, (emotion_to_index emo).
    split; [reflexivity|]. split; [exact Hb|]. split; [apply (detect_kept w); exact Hb|exact Ht].
  - rewrite List.Forall_forall in F. rewrite (F m Hm) in Hface. discriminate.
Qed.

(** X27. The window of the main loop.  A round in which less than
    [SAMPLE_INTERVAL] has passed since the last sample leaves the
    counters, the tick count and the time of the last sample as they
    were, whatever faces it saw, and sends no agent message.  A round
    sends [/agent_emotion] at most once, and only when it takes the
    sample that completes a window of [SAMPLES_PER_SUMMARY]; it sends
    [/agent_word] at most once, and only in a round that sends
    [/agent_emotion]. *)
Theorem X27_agent_messages_of_a_round (w : World) (v : Vars) :
  exists new,
    sent (snd (frame_step w v)) = sent v ++ new
    /\ (count_addr "/agent_word" new <= count_addr "/agent_emotion" new <= 1)%nat
    /\ (count_addr "/agent_emotion" new = 1%nat ->
        Qle_bool SAMPLE_INTERVAL (now w - last_sample v) = true
        /\ (SAMPLES_PER_SUMMARY <= S (sample_count v))%nat)
    /\ (Qle_bool SAMPLE_INTERVAL (now w - last_sample v) = false ->
        counts (snd (frame_step w v)) = counts v
        /\ sample_count (snd (frame_step w v)) = sample_count v
        /\ last_sample (snd (frame_step w v)) = last_sample v).
Proof.
  rewrite frame_step_eq.
  destruct (update (detect w) (tracker v)) as [trks t'].
  set (v0 := set_tracker t' v).
  destruct (report_faces_trace w trks v0)
    as (o & v1 & t1 & E1 & S1 & Ht1 & (_ & W1 & W2 & W3)).
  cbn [last_sample sample_count counts set_tracker v0] in W1, W2, W3.
  assert (count_addr "/agent_emotion" (face_reports w trks ++ t1) = 0%nat
          /\ count_addr "/agent_word" (face_reports w trks ++ t1) = 0%nat) as [C1 C2].
  { split; apply count_addr_other; apply Forall_app; split;
      try (eapply List.Forall_impl; [|apply face_reports_are_faces];
           intros m Hm; unfold is_addr in *; apply String.eqb_eq in Hm;
           rewrite Hm; reflexivity);
      destruct Ht1 as [-> | ->]; repeat constructor. }
  rewrite E1. destruct o as [[]|].
  2:{ exists (face_reports w trks ++ t1). cbn [snd].
      split; [exact S1|]. rewrite C1, C2. split; [lia|].
      split; [discriminate|]. intros _. auto. }
  destruct (sample_cases w v1) as [(Hi & E2)|[(Hi & Hc & E2)|(Hi & Hc & c & o & v2 & E2 & S2)]];
    rewrite W1 in Hi; try rewrite W2 in Hc; rewrite E2; cbn [snd].
  - exists (face_reports w trks ++ t1). split; [exact S1|].
    rewrite C1, C2. split; [lia|]. split; [discriminate|]. intros _. auto.
  - exists (face_reports w trks ++ t1). cbn [sent set_sample set_counts].
    split; [exact S1|]. rewrite C1, C2. split; [lia|]. split; [discriminate|].
    intros Hn. congruence.
  - destruct S2 as [S2|S2];
      [exists ((face_reports w trks ++ t1)
               ++ [agent_emotion_message c (window_counts v1)])
      |exists ((face_reports w trks ++ t1)
               ++ [agent_emotion_message c (window_counts v1);
                   agent_word_message (send_ai_query w (c, window_counts v1))])];
      (split; [rewrite S2, S1, <- !app_assoc; reflexivity|]);
      rewrite !(count_addr_app _ (face_reports w trks ++ t1)), C1, C2;
      (split; [cbn; lia|]); (split; [intros _; auto|]); intros Hn; congruence.
Qed.

End FaceReports.

(** ** The properties at concrete inputs *)

Lemma X9_gate_never_forgets_witness :
  SideScreen.main.first_detection_time
    (SideScreen.main.send_letter_detection_results (SideScreen.main.config_py 1280 720) 1
       [seen_letter] gate_after_first_sight) !! 1%nat
  = Some 0%Q.
Proof.
  apply (proj1 (X9_gate_never_forgets (SideScreen.main.config_py 1280 720) 1
                  [seen_letter] gate_after_first_sight) 1%nat 0%Q).
  reflexivity.
Defined.

Lemma X10_unstable_objects_not_reported_witness :
  SideScreen.main.sent
    (SideScreen.main.send_letter_detection_results (SideScreen.main.config_py 1280 720) 0
       [seen_letter] SideScreen.main.gate_init)
  = [].
Proof.
  refine (proj1 (X10_unstable_objects_not_reported (SideScreen.main.config_py 1280 720) 0
                   [seen_letter] SideScreen.main.gate_init _)).
  right. split; [reflexivity|]. split; [reflexivity|].
  intros obj [<-|[]]. reflexivity.
Defined.

Lemma X11_reports_in_unit_square_witness :
  unit_range
    (SideScreen.main.norm_x
       (SideScreen.main.current_state (SideScreen.main.config_py 1280 720) seen_letter))
  /\ unit_range
       (SideScreen.main.norm_h
          (SideScreen.main.current_state (SideScreen.main.config_py 1280 720) seen_letter)).
Proof.
  assert (in_frame 1280 720 (SideScreen.tracker.r_bbox seen_letter)) as H
    by (unfold in_frame; simpl; lia).
  destruct (X11_reports_in_unit_square (SideScreen.main.config_py 1280 720) seen_letter H)
    as (Hx & _ & _ & Hh & _).
  split; assumption.
Defined.

Lemma X12_letters_of_a_frame_witness :
  letters_ok
    (snd (SideScreen.GAFDetectionSystem.process_frame_letters
            (SideScreen.main.config_py 1280 720)
            (Some [SideScreen.detection.mkPrediction 2 (100, 100, 200, 260)%Q (9 # 10)])
            noon 0 (one_letter, SideScreen.main.gate_init)))
  /\ Forall (fun o => In (SideScreen.tracker.r_class_id o)
                        SideScreen.GAFDetectionSystem.CLASS_NAME_MAP_values)
       (fst (SideScreen.GAFDetectionSystem.process_frame_letters
               (SideScreen.main.config_py 1280 720)
               (Some [SideScreen.detection.mkPrediction 2 (100, 100, 200, 260)%Q (9 # 10)])
               noon 0 (one_letter, SideScreen.main.gate_init))).
Proof.
  assert (letters_ok (one_letter, SideScreen.main.gate_init)) as H.
  { split; [exact wf_one_letter|]. split; [exact gate_init_consistent|].
    intros track_id Hk. unfold known in Hk. apply bool_decide_eq_true in Hk.
    destruct Hk as [x Hx]. simpl in Hx. rewrite lookup_empty in Hx. discriminate. }
  destruct (X12_letters_of_a_frame (SideScreen.main.config_py 1280 720)
              (Some [SideScreen.detection.mkPrediction 2 (100, 100, 200, 260)%Q (9 # 10)])
              noon 0 (one_letter, SideScreen.main.gate_init) H)
    as (H1 & H2 & _); [reflexivity|reflexivity|].
  split; assumption.
Defined.

Lemma X14_random_box_in_frame_witness :
  in_frame 100 100
    (SideScreen.worker.generate_random_box 100 100 []
       (fun _ => SideScreen.worker.mkDraw 50 50 10 10))
  /\ 0 < area (SideScreen.worker.generate_random_box 100 100 []
                 (fun _ => SideScreen.worker.mkDraw 50 50 10 10)).
Proof.
  assert (forall k : nat, (k < 10)%nat ->
            drawn 100 100 (SideScreen.worker.mkDraw 50 50 10 10)) as H
    by (intros k _; unfold drawn; change (Z.min 100 100 / 10) with 10; simpl; lia).
  destruct (X14_random_box_in_frame 100 100 []
              (fun _ => SideScreen.worker.mkDraw 50 50 10 10)) as (H1 & _ & H3);
    [lia|lia|exact H|].
  split; [exact H1|]. apply H3; [change (Z.min 100 100) with 100; lia|]. intros k _. simpl. lia.
Defined.

Lemma X15_skip_only_when_full_witness :
  exists shown,
    SideScreen.worker.get_current_boxes 5 2 4
      [SideScreen.worker.mkEntry (mkBox 0 0 5 5) "a" 3;
       SideScreen.worker.mkEntry (mkBox 10 0 15 5) "b" 3]
    = SideScreen.worker.Done shown
    /\ length shown = 2%nat
    /\ Forall (fun e => (4 - SideScreen.worker.e_time e < 5 / 2)%Q) shown.
Proof.
  apply (proj1 (X15_skip_only_when_full 5 2 4
                  [SideScreen.worker.mkEntry (mkBox 0 0 5 5) "a" 3;
                   SideScreen.worker.mkEntry (mkBox 10 0 15 5) "b" 3])).
  reflexivity.
Defined.

Lemma X17_stored_answer_shown_witness :
  exists stored shown,
    SideScreen.worker.store_result 5 6 7 (mkBox 0 0 5 5) "new" six_boxes
    = SideScreen.worker.Done stored
    /\ last stored = Some (SideScreen.worker.mkEntry (mkBox 0 0 5 5) "new" 7)
    /\ SideScreen.worker.get_current_boxes 5 6 8 stored = SideScreen.worker.Done shown
    /\ (In (SideScreen.worker.mkEntry (mkBox 0 0 5 5) "new" 7) shown
        <-> (8 - 7 <= 5)%Q).
Proof.
  apply (proj1 (X17_stored_answer_shown 5 6 7 8 (mkBox 0 0 5 5) "new" six_boxes)).
  lia.
Defined.

Lemma X20_cleanup_once_per_interval_witness :
  StronglySorted (fun a b => (30 < b - a)%Q) (cleanup_times 30 0 [10; 31; 40; 62; 93]%Q)
  /\ Forall (fun t => (30 < t - 0)%Q) (cleanup_times 30 0 [10; 31; 40; 62; 93]%Q).
Proof.
  apply (X20_cleanup_once_per_interval 30 0 [10; 31; 40; 62; 93]%Q).
  unfold Qle. simpl. lia.
Defined.

Lemma X22_filter_detections_by_class_witness :
  exists r,
    SideScreen.detection.filter_detections_by_class
      [mkBox 0 0 5 5; mkBox 10 0 15 5] [0; 1] [1 # 2; 9 # 10]%Q (Some [1])
    = Some r
    /\ triples r
       = List.filter (of_class [1])
           (triples ([mkBox 0 0 5 5; mkBox 10 0 15 5], [0; 1], [1 # 2; 9 # 10]%Q))
    /\ parallel_lists r
    /\ Forall (fun c => In c [1]) (snd (fst r))
    /\ SideScreen.detection.filter_detections_by_class
         (fst (fst r)) (snd (fst r)) (snd r) (Some [1])
       = Some r.
Proof.
  apply (X22_filter_detections_by_class
           [mkBox 0 0 5 5; mkBox 10 0 15 5] [0; 1] [1 # 2; 9 # 10]%Q [1]).
  - split; reflexivity.
  - discriminate.
Defined.

Lemma X23_filter_edges_and_composition_witness :
  SideScreen.detection.filter_detections_by_class [] [0] [] (Some [0]) = None.
Proof.
  apply (proj1 (proj2 X23_filter_edges_and_composition) [] [0] [] [0] 0%nat 0).
  - reflexivity.
  - left. reflexivity.
  - left. reflexivity.
Defined.

Lemma X24_image_url_header_witness :
  SideScreen.api.image_url "AAAA" = Some "data:image/png;base64,AAAA"%string
  /\ SideScreen.api.image_url "data:image/jpeg;base64,AAAA"
     = Some "data:image/png;base64,AAAA"%string
  /\ SideScreen.api.image_url "data:image/jpeg;base64,data:image/png;base64,AAAA"
     = Some "data:image/png;base64,data:image/png;base64,AAAA"%string
  /\ SideScreen.api.image_url "data:image/jpeg;base64" = None.
Proof.
  split; [|split].
  - apply (proj1 (X24_image_url_header "" "AAAA")); [discriminate|reflexivity].
  - apply (proj2 (X24_image_url_header "data:image/jpeg;base64" "AAAA"));
      reflexivity.
  - apply (proj2 (X24_image_url_header "data:image/jpeg;base64"
                    "data:image/png;base64,AAAA")); reflexivity.
Defined.

Lemma X26_face_reports_are_detections_witness :
  exists new,
    RingScreen.sent (snd (RingScreen.frame_step broken_sink_world last_tick))
    = RingScreen.sent last_tick ++ new
    /\ (forall m, In m new -> is_addr "/face" m = true ->
        exists tid b idx,
          m = RingScreen.face_message tid b idx
          /\ In b (RingScreen.detect broken_sink_world) /\ kept_face b
          /\ In (tid, b)
               (fst (RingScreen.update (RingScreen.detect broken_sink_world)
                       (RingScreen.tracker last_tick))))
    /\ List.NoDup
         (map fst (fst (RingScreen.update (RingScreen.detect broken_sink_world)
                          (RingScreen.tracker last_tick)))).
Proof.
  apply (X26_face_reports_are_detections broken_sink_world last_tick).
  apply ring_wf_init.
Defined.

Lemma X27_agent_messages_of_a_round_witness :
  Qle_bool RingScreen.SAMPLE_INTERVAL
    (RingScreen.now quiet_world - RingScreen.last_sample last_tick) = true
  /\ (RingScreen.SAMPLES_PER_SUMMARY <= S (RingScreen.sample_count last_tick))%nat.
Proof.
  destruct (X27_agent_messages_of_a_round quiet_world last_tick)
    as (new & S & _ & H & _).
  apply H. change (RingScreen.sent last_tick ++ new) with new in S.
  rewrite <- S. reflexivity.
Defined.
